(** * job_module: salary cleaning, table pre-processing, SQLite store and reports

    A shallow embedding of [job_module.py].  Python values, pandas columns and
    SQLite cells are modelled as inductive data; the functions of the module
    are written as Rocq functions in an error monad whose exceptions are the
    Python exceptions the module can raise.

    Conventions of the model.
    - A Python [float] is a [float] below: NaN, an infinity, or a finite value
      carried as a rational in lowest terms.
    - A Python [str] is a [string], the bytes of its UTF-8 text.
    - [clean_salary] is embedded twice.  [Cpython.clean_salary] is the
      function as CPython evaluates it: [\d] and [int] read every Unicode
      decimal digit, [int] refuses more than 4300 digits, and the quotient
      is rounded to binary64 or raises OverflowError.  [Salary.clean_salary]
      is the same lines over ASCII text with the exact mean; it is the one
      the table-level development computes with.  The white space of
      [str.strip] and the letters of [str.lower] are the ASCII ones as well.
    - A [DataFrame] is the ordered list of its columns; its column labels are
      expected to be distinct, which is what [pd.read_csv] produces. *)

From Stdlib Require Import ZArith QArith Qreduction Qabs Ascii String.
From Stdlib Require Import DecimalString DecimalZ DecimalPos.
From stdpp Require Import base option list strings gmap sorting.

Local Open Scope string_scope.
Local Open Scope list_scope.
Local Open Scope Z_scope.

(** ** Exceptions and results *)

Inductive value_error : Type :=
  | invalid_literal          (* int(): invalid literal for int() with base 10 *)
  | digit_limit              (* int(): exceeds the limit (4300 digits) *)
  | all_salaries_empty       (* raised by preprocess_data, line 50 *)
  | empty_file.              (* raised by load_data, line 16 *)

Inductive exn : Type :=
  | ValueError (why : value_error)
  | KeyError (missing : list string)     (* preprocess_data, line 46 *)
  | ZeroDivisionError
  | AttributeError                       (* the .str accessor on non-text data *)
  | FileNotFoundError (path : string)
  | OperationalError                     (* sqlite3: the statement is rejected *)
  | InterfaceError                       (* sqlite3: a value of unsupported type *)
  | OverflowError.                       (* sqlite3: an int beyond 64 bits *)

Inductive result (A : Type) : Type :=
  | Ok (a : A)
  | Raise (e : exn).
Arguments Ok {A} a.
Arguments Raise {A} e.

Definition bind {A B : Type} (r : result A) (k : A -> result B) : result B :=
  match r with
  | Ok a => k a
  | Raise e => Raise e
  end.

Notation "x <~ r ;; k" := (bind r (fun x => k))
  (at level 100, r at next level, right associativity).

Fixpoint mapR {A B : Type} (f : A -> result B) (l : list A) : result (list B) :=
  match l with
  | [] => Ok []
  | a :: l' => b <~ f a ;; bs <~ mapR f l' ;; Ok (b :: bs)
  end.

(** ** Python values *)

Inductive float : Type :=
  | FNaN
  | FInf (negative : bool)
  | FFin (q : Q).

Inductive pyval : Type :=
  | PNone
  | PBool (b : bool)
  | PInt (z : Z)
  | PFloat (f : float)
  | PStr (s : string).

(** [pd.isna] on a scalar. *)
Definition isna (v : pyval) : bool :=
  match v with
  | PNone | PFloat FNaN => true
  | _ => false
  end.

(** [isinstance(v, str)]. *)
Definition is_str (v : pyval) : bool :=
  match v with
  | PStr _ => true
  | _ => false
  end.

(** [a / b] on Python integers. *)
Definition py_truediv (a b : Z) : result float :=
  if b =? 0 then Raise ZeroDivisionError
  else Ok (FFin (Qred (inject_Z a / inject_Z b))).

(** [a / b] where [a] is a numpy integer scalar: IEEE-754 division, a zero
    divisor gives NaN or an infinity (with a RuntimeWarning), never an
    exception. *)
Definition np_truediv (a b : Z) : float :=
  if b =? 0 then
    if a =? 0 then FNaN else FInf (a <? 0)
  else FFin (Qred (inject_Z a / inject_Z b)).

(** [x > t] for a float [x] and a finite threshold [t]; every comparison
    with NaN is false. *)
Definition float_gt (x : float) (t : Q) : bool :=
  match x with
  | FNaN => false
  | FInf negative => negb negative
  | FFin q => negb (Qle_bool q t)
  end.

(** ** The salary text

    Lines 22-32 over ASCII text, with the mean as the exact quotient. *)

Module Salary.

Definition is_digit (c : ascii) : bool :=
  let n := nat_of_ascii c in (48 <=? n)%nat && (n <=? 57)%nat.

Definition is_comma (c : ascii) : bool := Ascii.eqb c ","%char.

(** The class [[\d,]]. *)
Definition in_class (c : ascii) : bool := is_digit c || is_comma c.

(** [[\d,]*], greedy: the longest prefix inside the class. *)
Fixpoint star_class (s : list ascii) : list ascii :=
  match s with
  | c :: s' => if in_class c then c :: star_class s' else []
  | [] => []
  end.

(** [\d[\d,]*] anchored at the head of [s]: the matched text, if any. *)
Definition match_here (s : list ascii) : option (list ascii) :=
  match s with
  | c :: s' => if is_digit c then Some (c :: star_class s') else None
  | [] => None
  end.

(** [re.findall]: try the pattern at each position from left to right; a
    match is recorded and the scan resumes right after it.  [skip] counts
    the characters of the last match still to be passed over. *)
Fixpoint findall_from (skip : nat) (s : list ascii) : list (list ascii) :=
  match s with
  | [] => []
  | _ :: s' =>
      match skip with
      | S k => findall_from k s'
      | O =>
          match match_here s with
          | Some m => m :: findall_from (length m - 1) s'
          | None => findall_from 0 s'
          end
      end
  end.

Definition findall (s : string) : list (list ascii) :=
  findall_from 0 (list_ascii_of_string s).

(** [n.replace(",", "")]. *)
Definition replace_commas (n : list ascii) : list ascii :=
  List.filter (fun c => negb (is_comma c)) n.

Definition digit_value (c : ascii) : Z := Z.of_nat (nat_of_ascii c) - 48.

(** [int(n)] on a text of decimal digits.  The empty text and any other
    character raise ValueError; signs, blanks and underscores, which [int]
    also reads, cannot reach this call. *)
Definition py_int (n : list ascii) : result Z :=
  match n with
  | [] => Raise (ValueError invalid_literal)
  | _ =>
      if forallb is_digit n
      then Ok (fold_left (fun acc c => 10 * acc + digit_value c) n 0)
      else Raise (ValueError invalid_literal)
  end.

Definition sum (l : list Z) : Z := fold_left Z.add l 0.

Definition clean_salary (s : pyval) : result pyval :=
  if isna s || negb (is_str s) then Ok PNone
  else
    match s with
    | PStr text =>
        let numbers := findall text in
        match numbers with
        | [] => Ok PNone
        | _ =>
            match mapR (fun n => py_int (replace_commas n)) numbers with
            | Raise (ValueError _) => Ok PNone
            | Raise e => Raise e
            | Ok numbers =>
                m <~ py_truediv (sum numbers) (Z.of_nat (length numbers)) ;;
                Ok (PFloat m)
            end
        end
    | _ => Ok PNone
    end.

End Salary.

(** ** Data frames *)

Module Frame.

(** A column is a typed array.  The dtypes are the three that
    [pd.read_csv] infers for numbers and truth values, [object] for
    everything else, and [category], which [preprocess_data] introduces
    (a missing category cell is NaN). *)
Inductive series : Type :=
  | Int64 (data : list Z)
  | Float64 (data : list float)
  | Bool (data : list bool)
  | Object (data : list pyval)
  | Category (data : list (option string)).

Definition category_cell (c : option string) : pyval :=
  match c with
  | Some t => PStr t
  | None => PFloat FNaN
  end.

(** The cells of a column as Python values. *)
Definition values (s : series) : list pyval :=
  match s with
  | Int64 d => map PInt d
  | Float64 d => map PFloat d
  | Bool d => map PBool d
  | Object d => d
  | Category d => map category_cell d
  end.

(** [n_rows] is the length of the index, [columns] the labelled columns in
    their order. *)
Record dataframe : Type :=
  DataFrame { n_rows : nat; columns : list (string * series) }.

(** [df.columns]. *)
Definition labels (df : dataframe) : list string := map fst (columns df).

(** [col in df.columns]. *)
Definition has_column (df : dataframe) (col : string) : bool :=
  existsb (String.eqb col) (labels df).

(** [df[col]], for a label that occurs once. *)
Definition getitem (df : dataframe) (col : string) : option series :=
  snd <$> List.find (fun c => String.eqb (fst c) col) (columns df).

(** [s.isna().sum()]: a numpy integer. *)
Definition na_count (s : series) : Z :=
  Z.of_nat (length (List.filter isna (values s))).

(** [s.isna().all()]. *)
Definition all_na (s : series) : bool := forallb isna (values s).

Definition threshold : Q := 9 # 10.

(** [df[col].isna().sum()/n_rows > threshold]. *)
Definition above_threshold (n_rows : nat) (s : series) : bool :=
  float_gt (np_truediv (na_count s) (Z.of_nat n_rows)) threshold.

(** Line 38: the labels of the columns to prune. *)
Definition to_drop (df : dataframe) : list string :=
  List.filter
    (fun col =>
       match getitem df col with
       | Some s => above_threshold (n_rows df) s
       | None => false
       end)
    (labels df).

(** [df.drop(columns=cols)]. *)
Definition drop (df : dataframe) (cols : list string) : dataframe :=
  {| n_rows := n_rows df;
     columns :=
       List.filter (fun c => negb (existsb (String.eqb (fst c)) cols))
                   (columns df) |}.

(** Lines 36-41. *)
Definition prune (df : dataframe) : dataframe :=
  match to_drop df with
  | [] => df
  | cols => drop df cols
  end.

Definition required_columns : list string :=
  ["salary"; "seniority_level"; "location"].

(** Line 44. *)
Definition missing_columns (df : dataframe) : list string :=
  List.filter (fun col => negb (has_column df col)) required_columns.

(** [df[col] = s]: an existing label keeps its place, a new one goes last. *)
Fixpoint set_column (cols : list (string * series)) (col : string) (s : series)
  : list (string * series) :=
  match cols with
  | [] => [(col, s)]
  | (c, old) :: rest =>
      if String.eqb c col then (c, s) :: rest
      else (c, old) :: set_column rest col s
  end.

Definition setitem (df : dataframe) (col : string) (s : series) : dataframe :=
  {| n_rows := n_rows df; columns := set_column (columns df) col s |}.

Definition is_float (v : pyval) : bool :=
  match v with PFloat _ => true | _ => false end.

Definition is_int (v : pyval) : bool :=
  match v with PInt _ => true | _ => false end.

Definition is_bool (v : pyval) : bool :=
  match v with PBool _ => true | _ => false end.

(** What [Series.apply] makes of the values a function returned when they
    are floats and [None]: a float64 column in which [None] has become NaN
    as soon as one float is there, an object column otherwise. *)
Definition to_float (v : pyval) : float :=
  match v with PFloat x => x | _ => FNaN end.

Definition infer_applied (vs : list pyval) : series :=
  if existsb is_float vs && forallb (fun v => is_float v || isna v) vs
  then Float64 (map to_float vs)
  else Object vs.

(** [s.apply(f)]. *)
Definition apply (f : pyval -> result pyval) (s : series) : result series :=
  vs <~ mapR f (values s) ;; Ok (infer_applied vs).

(** White space in the sense of [str.strip]. *)
Definition is_space (c : ascii) : bool :=
  let n := nat_of_ascii c in
  ((9 <=? n)%nat && (n <=? 13)%nat) || ((28 <=? n)%nat && (n <=? 32)%nat).

Fixpoint lstrip (s : list ascii) : list ascii :=
  match s with
  | c :: s' => if is_space c then lstrip s' else s
  | [] => []
  end.

Definition py_strip (s : string) : string :=
  string_of_list_ascii
    (rev (lstrip (rev (lstrip (list_ascii_of_string s))))).

Definition lower_char (c : ascii) : ascii :=
  let n := nat_of_ascii c in
  if (65 <=? n)%nat && (n <=? 90)%nat then ascii_of_nat (n + 32) else c.

Definition py_lower (s : string) : string :=
  string_of_list_ascii (map lower_char (list_ascii_of_string s)).

(** The [.str] accessor refuses a column whose data are not text: a numeric
    or boolean dtype, or an [object] column whose present values are all
    numbers or all truth values. *)
Definition str_accessor_ok (s : series) : bool :=
  match s with
  | Object d =>
      let present := List.filter (fun v => negb (isna v)) d in
      match present with
      | [] => true
      | _ => negb (forallb (fun v => is_int v || is_float v) present
                   || forallb is_bool present)
      end
  | Category _ => true
  | Int64 _ | Float64 _ | Bool _ => false
  end.

(** One [.str] method on one cell: text is transformed, anything else
    becomes NaN. *)
Definition str_method (f : string -> string) (v : pyval) : pyval :=
  match v with
  | PStr t => PStr (f t)
  | _ => PFloat FNaN
  end.

(** [s.str.f()]: an object column. *)
Definition str_map (f : string -> string) (s : series) : result series :=
  if str_accessor_ok s then Ok (Object (map (str_method f) (values s)))
  else Raise AttributeError.

(** [s.astype("category")] for a column of text and NaN, which is what the
    [.str] methods return. *)
Definition astype_category (s : series) : series :=
  Category (map (fun v => match v with PStr t => Some t | _ => None end)
                (values s)).

(** Line 52: [.str.strip().str.lower().astype("category")]. *)
Definition normalize_seniority (s : series) : result series :=
  stripped <~ str_map py_strip s ;;
  lowered <~ str_map py_lower stripped ;;
  Ok (astype_category lowered).

(** Lines 43-53, on the pruned frame. *)
Definition clean (df : dataframe) : result dataframe :=
  match missing_columns df with
  | (_ :: _) as missing => Raise (KeyError missing)
  | [] =>
      match getitem df "salary" with
      | None => Raise (KeyError ["salary"])
      | Some salary =>
          cs <~ apply Salary.clean_salary salary ;;
          let df := setitem df "clean_salary" cs in
          if all_na cs then Raise (ValueError all_salaries_empty)
          else
            match getitem df "seniority_level" with
            | None => Raise (KeyError ["seniority_level"])
            | Some level =>
                level <~ normalize_seniority level ;;
                Ok (setitem df "seniority_level" level)
            end
      end
  end.

Definition preprocess_data (df : dataframe) : result dataframe :=
  clean (prune df).

(** The shape of a well-formed frame: distinct labels, and as many cells
    in every column as the index has entries. *)
Definition well_formed (df : dataframe) : Prop :=
  NoDup (labels df) /\
  Forall (fun c => length (values (snd c)) = n_rows df) (columns df).

End Frame.

(** ** The SQLite store *)

Inductive sqltype : Type := INTEGER | REAL | TEXT.

(** A stored cell with its storage class.  A REAL cell is never NaN: SQLite
    stores NaN as NULL. *)
Inductive sqlval : Type :=
  | SNull
  | SInt (z : Z)
  | SReal (x : float)
  | SText (s : string).

(** The text of a float and the float of a text are matters of binary64
    printing and reading; the store and the splitter use them through this
    interface. *)
Class NumberText : Type := {
  (** Python: [str(x)] for a float [x]. *)
  float_str : float -> string;
  (** SQLite: a REAL value converted to TEXT. *)
  real_text : float -> string;
  (** SQLite: the REAL that a text denotes when the text looks like a number
      and is not a plain decimal integer. *)
  text_real : string -> option float
}.

Module Store.
Import Frame.

Definition row : Type := list sqlval.

Record table : Type :=
  Table { schema : list (string * sqltype); rows : list row }.

(** A database file: its tables by name. *)
Abbreviation database := (gmap string table).

(** What the module reads and writes outside the process: the CSV files
    (as the tables they parse to), the database files and the text
    files.  A text file is the sequence of the strings written to it. *)
Inductive chunk : Type :=
  | Text (s : string)
  | Tuple (fields : list pyval).       (* str(row) + "\n" *)

Record world : Type :=
  World { csv_files : gmap string dataframe;
          databases : gmap string database;
          text_files : gmap string (list chunk) }.

(** [pd.api.types.is_integer_dtype], [is_float_dtype]. *)
Definition is_integer_dtype (s : series) : bool :=
  match s with Int64 _ => true | _ => false end.

Definition is_float_dtype (s : series) : bool :=
  match s with Float64 _ => true | _ => false end.

(** Lines 69-74. *)
Definition col_type (s : series) : sqltype :=
  if is_integer_dtype s then INTEGER
  else if is_float_dtype s then REAL
  else TEXT.

(** Lines 67-74: one definition per column, in the order of the frame. *)
Definition col_defs (df : dataframe) : list (string * sqltype) :=
  map (fun c => (fst c, col_type (snd c))) (columns df).

(** Lines 62-64. *)
Definition drop_empty_salary (df : dataframe) : dataframe :=
  if has_column df "salary"
     && match getitem df "salary" with
        | Some s => all_na s
        | None => false
        end
  then drop df ["salary"]
  else df.

Definition int_text (z : Z) : string := NilZero.string_of_int (Z.to_int z).

(** The integer a text spells in plain decimal, if it does. *)
Definition text_int (t : string) : option Z :=
  Z.of_int <$> NilZero.int_of_string t.

(** sqlite3 binding a Python value to a [?]. *)
Definition bind_parameter (v : pyval) : result sqlval :=
  match v with
  | PNone => Ok SNull
  | PBool b => Ok (SInt (if b then 1 else 0))
  | PInt z =>
      if (- 2 ^ 63 <=? z) && (z <? 2 ^ 63) then Ok (SInt z)
      else Raise OverflowError
  | PFloat FNaN => Ok SNull
  | PFloat x => Ok (SReal x)
  | PStr t => Ok (SText t)
  end.

Section Affinity.
Context {N : NumberText}.

(** The number a text looks like, if any. *)
Definition text_numeric (t : string) : option sqlval :=
  match text_int t with
  | Some z => Some (SInt z)
  | None => SReal <$> text_real t
  end.

(** A whole finite REAL as an integer. *)
Definition real_as_int (x : float) : option Z :=
  match x with
  | FFin q => if (Qden (Qred q) =? 1)%positive then Some (Qnum (Qred q)) else None
  | _ => None
  end.

(** The conversion a column of declared type [ty] applies to a value on
    its way in. *)
Definition apply_affinity (ty : sqltype) (c : sqlval) : sqlval :=
  match ty, c with
  | TEXT, SInt z => SText (int_text z)
  | TEXT, SReal x => SText (real_text x)
  | INTEGER, SReal x =>
      match real_as_int x with Some z => SInt z | None => c end
  | INTEGER, SText t =>
      match text_numeric t with
      | Some (SReal x) =>
          match real_as_int x with Some z => SInt z | None => SReal x end
      | Some n => n
      | None => c
      end
  | REAL, SInt z => SReal (FFin (inject_Z z))
  | REAL, SText t =>
      match text_numeric t with
      | Some (SInt z) => SReal (FFin (inject_Z z))
      | Some n => n
      | None => c
      end
  | _, _ => c
  end.

(** The cells one column contributes, top to bottom. *)
Definition column_cells (s : series) : result (list sqlval) :=
  mapR (fun v => c <~ bind_parameter v ;; Ok (apply_affinity (col_type s) c))
       (values s).

(** Row [i] of the frame as inserted: the [i]-th cell of every column. *)
Definition row_at (cells : list (list sqlval)) (i : nat) : row :=
  map (fun col => nth i col SNull) cells.

(** Lines 77-80.  A frame whose columns are all int64 yields numpy
    integers from [iterrows], which sqlite3 refuses to bind. *)
Definition insert_rows (df : dataframe) : result (list row) :=
  if forallb (fun c => is_integer_dtype (snd c)) (columns df)
     && negb (n_rows df =? 0)%nat
  then Raise InterfaceError
  else
    cells <~ mapR (fun c => column_cells (snd c)) (columns df) ;;
    Ok (map (row_at cells) (seq 0 (n_rows df))).

(** [create_database(db_name, df)]: the connection it returns is the
    name of the database it opened. *)
Definition create_database (db_name : string) (df : dataframe) (w : world)
  : result (string * world) :=
  let db : database := default ∅ (databases w !! db_name) in
  let df := drop_empty_salary df in
  (* DROP TABLE IF EXISTS jobs *)
  let db := delete "jobs" db in
  (* CREATE TABLE jobs (...) *)
  match col_defs df with
  | [] => Raise OperationalError
  | defs =>
      inserted <~ insert_rows df ;;
      let db := <["jobs" := Table defs inserted]> db in
      Ok (db_name,
          {| csv_files := csv_files w;
             databases := <[db_name := db]> (databases w);
             text_files := text_files w |})
  end.

End Affinity.

End Store.

(** ** Queries *)

Module Query.
Import Store.

(** The position of a column in the schema. *)
Fixpoint column_index (sch : list (string * sqltype)) (col : string)
  : option nat :=
  match sch with
  | [] => None
  | (c, _) :: rest =>
      if String.eqb c col then Some O else S <$> column_index rest col
  end.

Definition column_type (sch : list (string * sqltype)) (col : string)
  : option sqltype :=
  snd <$> List.find (fun c => String.eqb (fst c) col) sch.

Definition cell (i : nat) (r : row) : sqlval := nth i r SNull.

(** *** The order of values: NULL, then numbers, then text by bytes *)

Definition float_compare (x y : float) : comparison :=
  match x, y with
  | FNaN, FNaN => Eq
  | FNaN, _ => Lt
  | _, FNaN => Gt
  | FInf a, FInf b =>
      if Bool.eqb a b then Eq else if a then Lt else Gt
  | FInf a, FFin _ => if a then Lt else Gt
  | FFin _, FInf b => if b then Gt else Lt
  | FFin p, FFin q => Qcompare p q
  end.

Definition as_float (c : sqlval) : float :=
  match c with
  | SInt z => FFin (inject_Z z)
  | SReal x => x
  | _ => FNaN
  end.

Definition sql_compare (a b : sqlval) : comparison :=
  match a, b with
  | SNull, SNull => Eq
  | SNull, _ => Lt
  | _, SNull => Gt
  | SText s, SText t => String.compare s t
  | SText _, _ => Gt
  | _, SText _ => Lt
  | _, _ => float_compare (as_float a) (as_float b)
  end.

Fixpoint key_compare (k1 k2 : list sqlval) : comparison :=
  match k1, k2 with
  | [], [] => Eq
  | [], _ => Lt
  | _, [] => Gt
  | a :: k1', b :: k2' =>
      match sql_compare a b with
      | Eq => key_compare k1' k2'
      | c => c
      end
  end.

(** *** GROUP BY: the groups come out in ascending order of their key,
    the rows of a group in table order *)

Fixpoint insert_group (k : list sqlval) (r : row)
         (groups : list (list sqlval * list row)) : list (list sqlval * list row) :=
  match groups with
  | [] => [(k, [r])]
  | (k', rs) :: rest =>
      match key_compare k k' with
      | Eq => (k', rs ++ [r]) :: rest
      | Lt => (k, [r]) :: groups
      | Gt => (k', rs) :: insert_group k r rest
      end
  end.

Definition group_by (key : row -> list sqlval) (rs : list row)
  : list (list sqlval * list row) :=
  fold_left (fun groups r => insert_group (key r) r groups) rs [].

(** *** Aggregates *)

Definition is_null (c : sqlval) : bool :=
  match c with SNull => true | _ => false end.

Definition sql_max (cs : list sqlval) : sqlval :=
  fold_left
    (fun best c =>
       if is_null c then best
       else if is_null best then c
       else match sql_compare c best with Gt => c | _ => best end)
    cs SNull.

Definition float_add (x y : float) : float :=
  match x, y with
  | FNaN, _ | _, FNaN => FNaN
  | FInf a, FInf b => if Bool.eqb a b then FInf a else FNaN
  | FInf a, _ | _, FInf a => FInf a
  | FFin p, FFin q => FFin (Qred (p + q))
  end.

(** Division of a float by a positive count. *)
Definition float_div (x : float) (n : nat) : float :=
  match x with
  | FFin p => FFin (Qred (p / inject_Z (Z.of_nat n)))
  | _ => x
  end.

Section Aggregates.
Context {N : NumberText}.

(** The number AVG sees in a cell: a text counts as the number it looks
    like, and as 0 when it looks like none. *)
Definition numeric_value (c : sqlval) : float :=
  match c with
  | SText t =>
      match text_numeric t with
      | Some n => as_float n
      | None => FFin 0
      end
  | _ => as_float c
  end.

Definition sql_avg (cs : list sqlval) : sqlval :=
  match List.filter (fun c => negb (is_null c)) cs with
  | [] => SNull
  | present =>
      match float_div (fold_left float_add (map numeric_value present) (FFin 0))
                      (length present) with
      | FNaN => SNull
      | x => SReal x
      end
  end.

Inductive aggregate : Type :=
  | Max (col : string)
  | Avg (col : string)
  | CountStar.

Definition resolve (sch : list (string * sqltype)) (col : string)
  : result nat :=
  match column_index sch col with
  | Some i => Ok i
  | None => Raise OperationalError       (* no such column *)
  end.

Definition eval_aggregate (sch : list (string * sqltype)) (a : aggregate)
  : result (list row -> sqlval) :=
  match a with
  | Max col => i <~ resolve sch col ;; Ok (fun rs => sql_max (map (cell i) rs))
  | Avg col => i <~ resolve sch col ;; Ok (fun rs => sql_avg (map (cell i) rs))
  | CountStar => Ok (fun rs => SInt (Z.of_nat (length rs)))
  end.

Definition limit (n : option nat) (rs : list row) : list row :=
  match n with
  | Some k => firstn k rs
  | None => rs
  end.

(** [SELECT by..., agg FROM jobs GROUP BY by... [LIMIT n]], with no
    ORDER BY. *)
Definition select_grouped (t : table) (by_cols : list string)
           (agg : aggregate) (n : option nat) : result (list row) :=
  idx <~ mapR (resolve (schema t)) by_cols ;;
  f <~ eval_aggregate (schema t) agg ;;
  let groups := group_by (fun r => map (fun i => cell i r) idx) (rows t) in
  Ok (limit n (map (fun g => fst g ++ [f (snd g)]) groups)).

(** The same with [ORDER BY agg DESC] before the LIMIT, as the chart
    functions of the module write it (lines 158, 167, 179, 193): a
    stable sort of the groups by descending aggregate. *)
Fixpoint insert_desc (r : row) (sorted : list row) : list row :=
  match sorted with
  | [] => [r]
  | r' :: rest =>
      match sql_compare (List.last r SNull) (List.last r' SNull) with
      | Gt => r :: sorted
      | _ => r' :: insert_desc r rest
      end
  end.

Definition order_desc (rs : list row) : list row :=
  fold_left (fun sorted r => insert_desc r sorted) rs [].

Definition select_grouped_desc (t : table) (by_cols : list string)
           (agg : aggregate) (n : option nat) : result (list row) :=
  all <~ select_grouped t by_cols agg None ;;
  Ok (limit n (order_desc all)).

End Aggregates.

(** What Python receives for a cell. *)
Definition py_of_cell (c : sqlval) : pyval :=
  match c with
  | SNull => PNone
  | SInt z => PInt z
  | SReal x => PFloat x
  | SText t => PStr t
  end.

Definition fetch (r : row) : list pyval := map py_of_cell r.

Definition header1 : string := "--- Топ-5 зарплат по локациям и seniority ---
".
Definition header2 : string := "
--- Средняя зарплата по уровням ---
".
Definition header3 : string := "
--- Количество вакансий по локациям ---
".

Section Report.
Context {N : NumberText}.

(** The three result sets of [run_sql_queries], lines 92, 96 and 100. *)
Definition block1 (jobs : table) : result (list row) :=
  select_grouped jobs ["location"; "seniority_level"] (Max "clean_salary") (Some 5%nat).

Definition block2 (jobs : table) : result (list row) :=
  select_grouped jobs ["seniority_level"] (Avg "clean_salary") None.

Definition block3 (jobs : table) : result (list row) :=
  select_grouped jobs ["location"] CountStar (Some 5%nat).

(** What [run_sql_queries] writes, in the order of its writes. *)
Definition report (jobs : table) : result (list chunk) :=
  b1 <~ block1 jobs ;;
  b2 <~ block2 jobs ;;
  b3 <~ block3 jobs ;;
  Ok ([Text header1] ++ map (fun r => Tuple (fetch r)) b1
      ++ [Text header2] ++ map (fun r => Tuple (fetch r)) b2
      ++ [Text header3] ++ map (fun r => Tuple (fetch r)) b3).

(** [run_sql_queries(conn, out_file)]: the file is opened with mode
    ["w"], so what was there is replaced. *)
Definition run_sql_queries (conn : string) (out_file : string) (w : world)
  : result world :=
  match default ∅ (databases w !! conn) !! "jobs" with
  | None => Raise OperationalError        (* no such table: jobs *)
  | Some jobs =>
      content <~ report jobs ;;
      Ok {| csv_files := csv_files w;
            databases := databases w;
            text_files := <[out_file := content]> (text_files w) |}
  end.

End Report.

(** *** Splitting the table *)

(** [SELECT DISTINCT col]: every value once, at its first occurrence;
    NULL counts as one value. *)
Fixpoint distinct (cs : list sqlval) : list sqlval :=
  match cs with
  | [] => []
  | c :: rest =>
      c :: List.filter
             (fun c' => match sql_compare c' c with Eq => false | _ => true end)
             (distinct rest)
  end.

(** Equality of two values used as keys of a Python dict. *)
Definition py_number (v : pyval) : option float :=
  match v with
  | PBool b => Some (FFin (if b then 1 else 0))
  | PInt z => Some (FFin (inject_Z z))
  | PFloat x => Some x
  | _ => None
  end.

Definition py_eqb (a b : pyval) : bool :=
  match a, b with
  | PNone, PNone => true
  | PStr s, PStr t => String.eqb s t
  | _, _ =>
      match py_number a, py_number b with
      | Some FNaN, _ | _, Some FNaN => false
      | Some x, Some y =>
          match float_compare x y with Eq => true | _ => false end
      | _, _ => false
      end
  end.

(** [d[k] = v] on a dict kept in insertion order. *)
Fixpoint dict_set {V : Type} (d : list (pyval * V)) (k : pyval) (v : V)
  : list (pyval * V) :=
  match d with
  | [] => [(k, v)]
  | (k', v') :: rest =>
      if py_eqb k' k then (k', v) :: rest
      else (k', v') :: dict_set rest k v
  end.

Definition quote : ascii := "'"%char.

(** SQLite reading a string literal whose opening quote has been passed:
    two quotes in a row stand for one, a single quote closes the literal.
    The result is the text of the literal and what follows it. *)
Fixpoint lex_string (s : list ascii) : option (list ascii * list ascii) :=
  match s with
  | [] => None
  | c :: s' =>
      if Ascii.eqb c quote then
        match s' with
        | c' :: s'' =>
            if Ascii.eqb c' quote
            then (fun p => (quote :: fst p, snd p)) <$> lex_string s''
            else Some ([], s')
        | [] => Some ([], [])
        end
      else (fun p => (c :: fst p, snd p)) <$> lex_string s'
  end.

Section Split.
Context {N : NumberText}.

(** [f"{val}"]. *)
Definition py_str (v : pyval) : string :=
  match v with
  | PNone => "None"
  | PBool b => if b then "True" else "False"
  | PInt z => int_text z
  | PFloat x => float_str x
  | PStr t => t
  end.

(** The literal that [f"...='{val}'"] puts in the statement.  When the
    spliced text closes the literal early, what is left over is further
    SQL; the statement is then taken to be rejected. *)
Definition spliced_literal (val : pyval) : result string :=
  match lex_string (list_ascii_of_string (py_str val) ++ [quote]) with
  | Some (lit, []) => Ok (string_of_list_ascii lit)
  | _ => Raise OperationalError
  end.

(** The right operand of [col = 'lit'] after the conversion the
    affinity of the column asks for. *)
Definition literal_operand (ty : sqltype) (lit : string) : sqlval :=
  match ty with
  | TEXT => SText lit
  | INTEGER | REAL =>
      match text_numeric lit with
      | Some n => n
      | None => SText lit
      end
  end.

(** [a = b] as a WHERE clause sees it: NULL equals nothing. *)
Definition sql_eqb (a b : sqlval) : bool :=
  match a, b with
  | SNull, _ | _, SNull => false
  | _, _ => match sql_compare a b with Eq => true | _ => false end
  end.

(** [SELECT * FROM jobs WHERE col='lit']. *)
Definition select_where (t : table) (i : nat) (ty : sqltype) (lit : string)
  : table :=
  {| schema := schema t;
     rows := List.filter (fun r => sql_eqb (cell i r) (literal_operand ty lit))
                         (rows t) |}.

(** Lines 230-231, for the keys still to be handled. *)
Fixpoint fill (t : table) (i : nat) (ty : sqltype) (vals : list pyval)
         (tables : list (pyval * table)) : result (list (pyval * table)) :=
  match vals with
  | [] => Ok tables
  | val :: rest =>
      lit <~ spliced_literal val ;;
      fill t i ty rest (dict_set tables val (select_where t i ty lit))
  end.

Definition split_table_by_column_sql (jobs : table) (column : string)
  : result (list (pyval * table)) :=
  match column_index (schema jobs) column, column_type (schema jobs) column with
  | Some i, Some ty =>
      let values := map py_of_cell (distinct (map (cell i) (rows jobs))) in
      fill jobs i ty values []
  | _, _ => Raise OperationalError        (* no such column *)
  end.

End Split.

End Query.

(** ** The loader and the whole run *)

Module Pipeline.
Import Frame Store Query.

(** [df.empty]. *)
Definition empty (df : dataframe) : bool :=
  (n_rows df =? 0)%nat || match columns df with [] => true | _ => false end.

(** [load_data(file_path)]; the file system holds, for a CSV file, the
    table it parses to. *)
Definition load_data (file_path : string) (w : world) : result dataframe :=
  match csv_files w !! file_path with
  | None => Raise (FileNotFoundError file_path)
  | Some df => if empty df then Raise (ValueError empty_file) else Ok df
  end.

Section Run.
Context {N : NumberText}.

(** The module has no driver of its own; a run is its numbered steps in
    order: 1 load, 2 pre-process, 3 create the database, 4 run the
    queries. *)
Definition run (file_path db_name out_file : string) (w : world)
  : result world :=
  df <~ load_data file_path w ;;
  df <~ preprocess_data df ;;
  cw <~ create_database db_name df w ;;
  run_sql_queries (fst cw) out_file (snd cw).

End Run.

End Pipeline.

(** ** The salary rule as the specification words it *)

Module SalarySpec.
Import Salary.

(** The integers of a text, read in one pass from left to right.  A run
    starts at a digit and goes on through digits and commas; the commas
    carry no value.  [cur] is the value of the run being read, if one is
    open. *)
Fixpoint numbers_from (cur : option Z) (s : list ascii) : list Z :=
  match s with
  | [] => match cur with Some n => [n] | None => [] end
  | c :: s' =>
      if is_digit c then
        numbers_from (Some (10 * default 0 cur + digit_value c)) s'
      else if is_comma c then numbers_from cur s'
      else
        match cur with
        | Some n => n :: numbers_from None s'
        | None => numbers_from None s'
        end
  end.

Definition numbers (t : string) : list Z :=
  numbers_from None (list_ascii_of_string t).

(** The arithmetic mean of a non-empty list of integers. *)
Definition mean (l : list Z) : Q :=
  Qred (inject_Z (sum l) / inject_Z (Z.of_nat (length l))).

(** Absent for a value that is missing or not text and for a text without
    a number, the mean of the numbers otherwise. *)
Definition clean_salary_spec (v : pyval) : pyval :=
  match v with
  | PStr t =>
      match numbers t with
      | [] => PNone
      | ns => PFloat (FFin (mean ns))
      end
  | _ => PNone
  end.

End SalarySpec.

(** ** The salary text as CPython evaluates it

    Lines 22-32 once more, now with the three things that the module
    [Salary] above leaves aside: the characters of a [str] are Unicode code
    points, of which [\d] and [int] read every decimal digit; [int] refuses
    a text of more than 4300 digits with a ValueError, which line 30
    catches; and [/] on two integers gives the binary64 float nearest to the
    quotient, or raises OverflowError when that is beyond the largest
    float. *)

Module Binary64.

(** The integer nearest to [n / d], a tie going to the even one
    ([0 <= n], [0 < d]). *)
Definition nearest_even (n d : Z) : Z :=
  let m := n / d in
  match 2 * (n mod d) ?= d with
  | Lt => m
  | Gt => m + 1
  | Eq => if Z.even m then m else m + 1
  end.

(** The [e] with [2 ^ e <= n / d < 2 ^ (e + 1)] ([0 < n], [0 < d]). *)
Definition binade (n d : Z) : Z :=
  let e := Z.log2 n - Z.log2 d in
  if (if 0 <=? e then d * 2 ^ e <=? n else d <=? n * 2 ^ (- e))
  then e else e - 1.

(** The binary64 float nearest to [n / d] ([0 <= n], [0 < d]): 53
    significant bits, no exponent of the last bit below -1074, ties to
    even; [None] when the rounded value reaches [2 ^ 1024]. *)
Definition nearest (n d : Z) : option Q :=
  if n =? 0 then Some 0%Q
  else
    let u := Z.max (binade n d - 52) (-1074) in
    if 0 <=? u then
      let m := nearest_even n (d * 2 ^ u) in
      if 2 ^ 1024 <=? m * 2 ^ u then None else Some (inject_Z (m * 2 ^ u))
    else
      Some (Qred (nearest_even (n * 2 ^ (- u)) d # Z.to_pos (2 ^ (- u)))).

End Binary64.

Module Cpython.

(** A [str] is held as its UTF-8 text; these are its code points.  A byte
    that does not belong to a well-formed sequence, which no [str] read
    from a UTF-8 file contains, is kept apart as the code point
    [0xDC00 + byte]. *)
Definition continuation (b : N) : bool := ((128 <=? b) && (b <=? 191))%N.

Definition escaped (b : N) : N := (56320 + b)%N.

Fixpoint decode (bs : list N) : list N :=
  match bs with
  | [] => []
  | b0 :: r0 =>
      if (b0 <? 128)%N then b0 :: decode r0
      else
        match r0 with
        | [] => [escaped b0]
        | b1 :: r1 =>
            if ((194 <=? b0) && (b0 <=? 223))%N && continuation b1
            then ((b0 - 192) * 64 + (b1 - 128))%N :: decode r1
            else
              match r1 with
              | [] => escaped b0 :: decode r0
              | b2 :: r2 =>
                  let c3 := ((b0 - 224) * 4096 + (b1 - 128) * 64 + (b2 - 128))%N in
                  if ((224 <=? b0) && (b0 <=? 239))%N
                     && continuation b1 && continuation b2
                     && (2048 <=? c3)%N
                     && negb ((55296 <=? c3) && (c3 <=? 57343))%N
                  then c3 :: decode r2
                  else
                    match r2 with
                    | [] => escaped b0 :: decode r0
                    | b3 :: r3 =>
                        let c4 := ((b0 - 240) * 262144 + (b1 - 128) * 4096
                                   + (b2 - 128) * 64 + (b3 - 128))%N in
                        if ((240 <=? b0) && (b0 <=? 244))%N
                           && continuation b1 && continuation b2
                           && continuation b3
                           && ((65536 <=? c4) && (c4 <=? 1114111))%N
                        then c4 :: decode r3
                        else escaped b0 :: decode r0
                    end
              end
        end
  end.

Definition codepoints (s : string) : list N :=
  decode (map N_of_ascii (list_ascii_of_string s)).

(** The decimal digits of Unicode (category Nd, Unicode 14.0 as in CPython
    3.11) come in blocks of ten, zero to nine; these are the code points of
    the zeros. *)
Definition decimal_zeros : list N :=
  [
   48; 1632; 1776; 1984; 2406; 2534; 2662; 2790;
   2918; 3046; 3174; 3302; 3430; 3558; 3664; 3792;
   3872; 4160; 4240; 6112; 6160; 6470; 6608; 6784;
   6800; 6992; 7088; 7232; 7248; 42528; 43216; 43264;
   43472; 43504; 43600; 44016; 65296; 66720; 68912; 69734;
   69872; 69942; 70096; 70384; 70736; 70864; 71248; 71360;
   71472; 71904; 72016; 72784; 73040; 73120; 92768; 92864;
   93008; 120782; 120792; 120802; 120812; 120822; 123200; 123632;
   125264; 130032]%N.

(** The value of a decimal digit; [None] for any other character. *)
Definition decimal (c : N) : option Z :=
  match List.find (fun z => (z <=? c) && (c <? z + 10))%N decimal_zeros with
  | Some z => Some (Z.of_N (c - z))
  | None => None
  end.

(** [\d] on a [str] pattern. *)
Definition is_digit (c : N) : bool :=
  match decimal c with Some _ => true | None => false end.

Definition is_comma (c : N) : bool := (c =? 44)%N.

(** The class [[\d,]]. *)
Definition in_class (c : N) : bool := is_digit c || is_comma c.

(** [[\d,]*], greedy. *)
Fixpoint star_class (s : list N) : list N :=
  match s with
  | c :: s' => if in_class c then c :: star_class s' else []
  | [] => []
  end.

(** [\d[\d,]*] anchored at the head of [s]. *)
Definition match_here (s : list N) : option (list N) :=
  match s with
  | c :: s' => if is_digit c then Some (c :: star_class s') else None
  | [] => None
  end.

(** [re.findall], as in [Salary.findall_from]. *)
Fixpoint findall_from (skip : nat) (s : list N) : list (list N) :=
  match s with
  | [] => []
  | _ :: s' =>
      match skip with
      | S k => findall_from k s'
      | O =>
          match match_here s with
          | Some m => m :: findall_from (length m - 1) s'
          | None => findall_from 0 s'
          end
      end
  end.

Definition findall (s : string) : list (list N) :=
  findall_from 0 (codepoints s).

(** [n.replace(",", "")]. *)
Definition replace_commas (n : list N) : list N :=
  List.filter (fun c => negb (is_comma c)) n.

Definition digit_value (c : N) : Z :=
  match decimal c with Some d => d | None => 0 end.

(** [sys.int_info.default_max_str_digits]. *)
Definition max_str_digits : Z := 4300.

(** [int(n)] on a text of decimal digits: more than 4300 of them are
    refused with a ValueError, like the empty text and any other
    character. *)
Definition py_int (n : list N) : result Z :=
  match n with
  | [] => Raise (ValueError invalid_literal)
  | _ =>
      if forallb is_digit n then
        if max_str_digits <? Z.of_nat (length n)
        then Raise (ValueError digit_limit)
        else Ok (fold_left (fun acc c => 10 * acc + digit_value c) n 0)
      else Raise (ValueError invalid_literal)
  end.

(** [a / b] on Python integers: the float nearest to the quotient, or
    OverflowError (the sign of a zero is not kept). *)
Definition py_truediv (a b : Z) : result float :=
  if b =? 0 then Raise ZeroDivisionError
  else
    match Binary64.nearest (Z.abs a) (Z.abs b) with
    | Some q => Ok (FFin (if xorb (a <? 0) (b <? 0) then (- q)%Q else q))
    | None => Raise OverflowError
    end.

Definition clean_salary (s : pyval) : result pyval :=
  if isna s || negb (is_str s) then Ok PNone
  else
    match s with
    | PStr text =>
        let numbers := findall text in
        match numbers with
        | [] => Ok PNone
        | _ =>
            match mapR (fun n => py_int (replace_commas n)) numbers with
            | Raise (ValueError _) => Ok PNone
            | Raise e => Raise e
            | Ok numbers =>
                m <~ py_truediv (Salary.sum numbers)
                                (Z.of_nat (length numbers)) ;;
                Ok (PFloat m)
            end
        end
    | _ => Ok PNone
    end.

End Cpython.

(** The salary rule in the words of the specification, over code points:
    the text is read once from left to right; a run starts at a decimal
    digit and goes on through digits and commas, the commas carry no
    value; each run is an integer; the result is the mean of the
    integers. *)

Module SalaryRule.
Import Cpython.

(** [cur] is the run being read, if one is open: its value so far and the
    number of its digits. *)
Fixpoint runs_from (cur : option (Z * Z)) (s : list N) : list (Z * Z) :=
  match s with
  | [] => match cur with Some r => [r] | None => [] end
  | c :: s' =>
      match decimal c with
      | Some d =>
          let r := match cur with Some r => r | None => (0, 0) end in
          runs_from (Some (10 * fst r + d, snd r + 1)) s'
      | None =>
          if (c =? 44)%N then runs_from cur s'
          else
            match cur with
            | Some r => r :: runs_from None s'
            | None => runs_from None s'
            end
      end
  end.

(** The digit runs of a text: the integer each one reads as, and how many
    digits it has. *)
Definition runs (t : string) : list (Z * Z) := runs_from None (codepoints t).

Definition total (l : list Z) : Z := fold_right Z.add 0 l.

(** Absent for a value that is missing or not text, for a text without a
    run, and for a text with a run of more than 4300 digits; otherwise the
    float nearest to the mean of the integers, and OverflowError when
    there is none. *)
Definition clean_salary_spec (v : pyval) : result pyval :=
  match v with
  | PStr t =>
      match runs t with
      | [] => Ok PNone
      | rs =>
          if forallb (fun r => snd r <=? 4300) rs then
            match Binary64.nearest (total (map fst rs)) (Z.of_nat (length rs)) with
            | Some x => Ok (PFloat (FFin x))
            | None => Raise OverflowError
            end
          else Ok PNone
      end
  | _ => Ok PNone
  end.

End SalaryRule.

(** * Properties *)

Import Frame Store Query Pipeline.

(** ** clean_salary *)

Section SalaryFacts.
Import Salary SalarySpec.

Let step (acc : Z) (c : ascii) : Z := 10 * acc + digit_value c.

Lemma is_digit_in_class c : is_digit c = true -> in_class c = true.
Proof. unfold in_class. intros ->. reflexivity. Qed.

Lemma is_digit_not_comma c : is_digit c = true -> is_comma c = false.
Proof.
  unfold is_digit, is_comma. intros H.
  destruct (Ascii.eqb_spec c ","%char) as [-> | _]; [ | reflexivity ].
  vm_compute in H. discriminate.
Qed.

(** The digits left of a run of the class, and their value. *)
Lemma replace_commas_star_digits s :
  forallb is_digit (replace_commas (star_class s)) = true.
Proof.
  induction s as [ | c s IH]; [ reflexivity | ].
  simpl. unfold in_class.
  destruct (is_digit c) eqn:Hd; simpl.
  - rewrite (is_digit_not_comma c Hd). simpl. rewrite Hd. exact IH.
  - destruct (is_comma c) eqn:Hc; simpl; [ rewrite Hc; exact IH | reflexivity ].
Qed.

Lemma numbers_from_open acc s :
  numbers_from (Some acc) s =
  fold_left step (replace_commas (star_class s)) acc
    :: numbers_from None (skipn (length (star_class s)) s).
Proof.
  revert acc. induction s as [ | c s IH]; intros acc; [ reflexivity | ].
  simpl. unfold in_class.
  destruct (is_digit c) eqn:Hd; simpl.
  - rewrite (is_digit_not_comma c Hd). simpl. apply IH.
  - destruct (is_comma c) eqn:Hc; simpl.
    + rewrite ?Hc. apply IH.
    + rewrite ?Hd, ?Hc. reflexivity.
Qed.

Lemma findall_from_skip s :
  findall_from (length (star_class s)) s =
  findall_from 0 (skipn (length (star_class s)) s).
Proof.
  induction s as [ | c s IH]; [ reflexivity | ].
  simpl. destruct (in_class c); simpl; [ exact IH | reflexivity ].
Qed.

Lemma py_int_run c s :
  is_digit c = true ->
  py_int (replace_commas (c :: star_class s)) =
  Ok (fold_left step (replace_commas (star_class s)) (digit_value c)).
Proof.
  intros Hd. simpl. rewrite (is_digit_not_comma c Hd). simpl.
  rewrite Hd, replace_commas_star_digits. reflexivity.
Qed.

(** Every match of the pattern reads as an integer, and the integers are
    those of the one-pass reading. *)
Lemma findall_numbers_from n :
  forall s, (length s <= n)%nat ->
  mapR (fun m => py_int (replace_commas m)) (findall_from 0 s)
  = Ok (numbers_from None s).
Proof.
  induction n as [ | n IH]; intros s Hlen.
  - destruct s; [ reflexivity | simpl in Hlen; lia ].
  - destruct s as [ | c s]; [ reflexivity | ].
    simpl in Hlen.
    cbn [findall_from match_here numbers_from].
    destruct (is_digit c) eqn:Hd.
    + cbn [length]. rewrite Nat.sub_succ, Nat.sub_0_r.
      rewrite findall_from_skip. cbn [mapR].
      rewrite (py_int_run c s Hd). cbn [bind].
      rewrite IH by (rewrite length_skipn; lia).
      cbn [bind default]. rewrite numbers_from_open.
      replace (10 * 0 + digit_value c) with (digit_value c) by lia.
      reflexivity.
    + destruct (is_comma c); apply IH; lia.
Qed.

Lemma mapR_length {A B} (f : A -> result B) l l' :
  mapR f l = Ok l' -> length l' = length l.
Proof.
  revert l'. induction l as [ | a l IH]; intros l' H; simpl in H.
  - injection H as <-. reflexivity.
  - destruct (f a); [ | discriminate ]. simpl in H.
    destruct (mapR f l) as [bs | ]; [ | discriminate ]. simpl in H.
    injection H as <-. simpl. f_equal. apply IH. reflexivity.
Qed.

(** The code computes what the specification words describe, and raises
    nothing. *)
Lemma clean_salary_refines v : clean_salary v = Ok (clean_salary_spec v).
Proof.
  destruct v as [ | b | z | x | t]; try reflexivity.
  - destruct x; reflexivity.
  - unfold clean_salary, clean_salary_spec, numbers, findall. cbn [isna is_str negb orb].
    pose proof (findall_numbers_from _ (list_ascii_of_string t) (le_n _)) as H.
    destruct (findall_from 0 (list_ascii_of_string t)) as [ | m ms] eqn:Hf.
    + simpl in H. injection H as <-. reflexivity.
    + rewrite H.
      pose proof (mapR_length _ _ _ H) as Hlen.
      destruct (numbers_from None (list_ascii_of_string t)) as [ | k ks] eqn:Hn;
        [ discriminate Hlen | ].
      unfold py_truediv, mean.
      destruct (Z.eqb_spec (Z.of_nat (length (k :: ks))) 0) as [E | _];
        [ simpl in E; lia | ].
      reflexivity.
Qed.

End SalaryFacts.

(** ** Rounding to binary64 *)

Section Binary64Facts.
Import Binary64.

Lemma nearest_even_spec n d :
  0 <= n -> 0 < d ->
  let m := nearest_even n d in
  n / d <= m <= n / d + 1 /\ 2 * Z.abs (m * d - n) <= d
  /\ (2 * (n mod d) < d -> m = n / d)
  /\ (d < 2 * (n mod d) -> m = n / d + 1).
Proof.
  intros Hn Hd. unfold nearest_even.
  pose proof (Z.div_mod n d ltac:(lia)) as E.
  pose proof (Z.mod_pos_bound n d Hd) as Hr.
  destruct (Z.compare_spec (2 * (n mod d)) d) as [C | C | C].
  - destruct (Z.even (n / d)); cbn zeta; (split; [ lia | split; [ nia | split; lia ] ]).
  - cbn zeta. split; [ lia | split; [ nia | split; lia ] ].
  - cbn zeta. split; [ lia | split; [ nia | split; lia ] ].
Qed.

(** [binade n d] is the exponent of the power of two at or just below
    [n / d]. *)
Lemma binade_spec n d :
  0 < n -> 0 < d ->
  let e := binade n d in
  d * 2 ^ Z.max e 0 <= n * 2 ^ Z.max (- e) 0 < 2 * d * 2 ^ Z.max e 0.
Proof.
  intros Hn Hd.
  pose proof (Z.log2_spec n Hn) as [Ln Un].
  pose proof (Z.log2_spec d Hd) as [Ld Ud].
  pose proof (Z.log2_nonneg n) as Nn. pose proof (Z.log2_nonneg d) as Nd.
  set (a := Z.log2 n) in *. set (b := Z.log2 d) in *.
  rewrite <- Z.add_1_r in Un, Ud. rewrite Z.pow_add_r in Un, Ud by lia.
  change (2 ^ 1) with 2 in *.
  unfold binade. fold a. fold b. cbn zeta.
  destruct (Z.leb_spec 0 (a - b)) as [Hge | Hlt].
  - (* a >= b *)
    assert (Ea : 2 ^ a = 2 ^ b * 2 ^ (a - b)).
    { rewrite <- Z.pow_add_r by lia. f_equal. lia. }
    assert (Hp : 0 < 2 ^ (a - b)) by (apply Z.pow_pos_nonneg; lia).
    assert (Hb : 0 < 2 ^ b) by (apply Z.pow_pos_nonneg; lia).
    destruct (Z.leb_spec (d * 2 ^ (a - b)) n) as [T | T].
    + rewrite (Z.max_l (a - b) 0), (Z.max_r (- (a - b)) 0) by lia.
      rewrite Z.pow_0_r. split; [ lia | nia ].
    + destruct (Z.eq_dec a b) as [E | NE].
      * assert (E0 : a - b = 0) by lia. rewrite E0 in *.
        change (Z.max (0 - 1) 0) with 0. change (Z.max (- (0 - 1)) 0) with 1.
        change (2 ^ 0) with 1 in *. change (2 ^ 1) with 2.
        assert (2 ^ a = 2 ^ b) by (f_equal; lia). lia.
      * rewrite (Z.max_l (a - b - 1) 0), (Z.max_r (- (a - b - 1)) 0) by lia.
        rewrite Z.pow_0_r.
        assert (Ec : 2 ^ (a - b) = 2 * 2 ^ (a - b - 1)).
        { rewrite <- (Z.pow_succ_r 2 (a - b - 1)) by lia. f_equal. lia. }
        assert (Hq : 0 < 2 ^ (a - b - 1)) by (apply Z.pow_pos_nonneg; lia).
        split; [ nia | nia ].
  - (* a < b *)
    assert (Eb : 2 ^ b = 2 ^ a * 2 ^ (- (a - b))).
    { rewrite <- Z.pow_add_r by lia. f_equal. lia. }
    assert (Hp : 0 < 2 ^ (- (a - b))) by (apply Z.pow_pos_nonneg; lia).
    assert (Ha : 0 < 2 ^ a) by (apply Z.pow_pos_nonneg; lia).
    destruct (Z.leb_spec d (n * 2 ^ (- (a - b)))) as [T | T].
    + rewrite (Z.max_r (a - b) 0), (Z.max_l (- (a - b)) 0) by lia.
      rewrite Z.pow_0_r. split; [ lia | nia ].
    + rewrite (Z.max_r (a - b - 1) 0), (Z.max_l (- (a - b - 1)) 0) by lia.
      rewrite Z.pow_0_r.
      assert (Ec : 2 ^ (- (a - b - 1)) = 2 * 2 ^ (- (a - b))).
      { rewrite <- (Z.pow_succ_r 2 (- (a - b))) by lia. f_equal. lia. }
      split; [ nia | nia ].
Qed.

Lemma nearest_even_exact m d : 0 <= m -> 0 < d -> nearest_even (m * d) d = m.
Proof.
  intros Hm Hd. unfold nearest_even.
  rewrite Z.div_mul, Z.mod_mul by lia. cbn zeta.
  replace (2 * 0) with 0 by lia.
  destruct (Z.compare_spec 0 d); [ lia | reflexivity | lia ].
Qed.

Lemma Qred_inject_Z z : Qred (inject_Z z) = inject_Z z.
Proof.
  unfold Qred, inject_Z.
  pose proof (Z.ggcd_correct_divisors z 1) as H.
  pose proof (Z.ggcd_gcd z 1) as G.
  change (Z.pos 1) with 1.
  destruct (Z.ggcd z 1) as [g [aa bb]]. simpl in G. destruct H as [H1 H2].
  rewrite Z.gcd_1_r in G. subst g.
  assert (Ea : aa = z) by lia. assert (Eb : bb = 1) by lia.
  rewrite Ea, Eb. reflexivity.
Qed.

(** A quotient that is an integer up to [2 ^ 53] is a float: the division
    is exact. *)
Lemma nearest_exact k d :
  0 < d -> 0 <= k <= 2 ^ 53 -> nearest (k * d) d = Some (inject_Z k).
Proof.
  intros Hd [Hk0 Hk]. unfold nearest.
  destruct (Z.eqb_spec (k * d) 0) as [E | NE].
  - assert (k = 0) by nia. subst k. reflexivity.
  - assert (Hkpos : 0 < k) by nia.
    pose proof (binade_spec (k * d) d ltac:(nia) Hd) as Hbin. cbn zeta in Hbin.
    set (e := binade (k * d) d) in *. clearbody e.
    assert (He0 : 0 <= e).
    { destruct (Z.lt_ge_cases e 0) as [Hneg | ]; [ exfalso | assumption ].
      rewrite (Z.max_r e 0), (Z.max_l (- e) 0) in Hbin by lia.
      rewrite Z.pow_0_r in Hbin.
      assert (2 <= 2 ^ (- e)).
      { change 2 with (2 ^ 1) at 1. apply Z.pow_le_mono_r; lia. }
      nia. }
    rewrite (Z.max_l e 0), (Z.max_r (- e) 0) in Hbin by lia.
    rewrite Z.pow_0_r in Hbin.
    assert (Hpe : 0 < 2 ^ e) by (apply Z.pow_pos_nonneg; lia).
    assert (Hke : 2 ^ e <= k < 2 * 2 ^ e) by nia.
    assert (He : e <= 53).
    { destruct (Z.le_gt_cases e 53) as [ | Hbig]; [ assumption | exfalso ].
      assert (2 ^ 54 <= 2 ^ e) by (apply Z.pow_le_mono_r; lia).
      assert (2 ^ 53 < 2 ^ 54) by (apply Z.pow_lt_mono_r; lia). lia. }
    rewrite (Z.max_l (e - 52) (-1074)) by lia.
    destruct (Z.leb_spec 0 (e - 52)) as [Hu | Hu].
    + assert (Hdiv : k = (k / 2 ^ (e - 52)) * 2 ^ (e - 52)).
      { destruct (Z.eq_dec e 52) as [-> | ].
        - change (2 ^ (52 - 52)) with 1. rewrite Z.div_1_r. lia.
        - assert (e = 53) by lia. subst e.
          change (2 ^ (53 - 52)) with 2. assert (k = 2 ^ 53) by lia. subst k.
          reflexivity. }
      assert (Hpu : 0 < 2 ^ (e - 52)) by (apply Z.pow_pos_nonneg; lia).
      replace (k * d) with (k / 2 ^ (e - 52) * (d * 2 ^ (e - 52))) by
        (rewrite Hdiv at 2; ring).
      rewrite nearest_even_exact;
        [ | apply Z.div_pos; lia | nia ].
      rewrite <- Hdiv.
      destruct (Z.leb_spec (2 ^ 1024) k) as [Hbig | _]; [ exfalso | reflexivity ].
      assert (2 ^ 53 < 2 ^ 1024) by (apply Z.pow_lt_mono_r; lia). lia.
    + assert (Hpu : 0 < 2 ^ (- (e - 52))) by (apply Z.pow_pos_nonneg; lia).
      replace (k * d * 2 ^ (- (e - 52))) with (k * 2 ^ (- (e - 52)) * d) by ring.
      rewrite nearest_even_exact by nia.
      f_equal. rewrite <- (Qred_inject_Z k). apply Qred_complete.
      unfold Qeq, inject_Z. simpl. rewrite Z2Pos.id by lia. ring.
Qed.

(** The rounded quotient of numbers that are not negative is not
    negative. *)
Lemma nearest_nonneg n d x :
  0 <= n -> 0 < d -> nearest n d = Some x -> (0 <= x)%Q.
Proof.
  intros Hn Hd. unfold nearest.
  destruct (Z.eqb_spec n 0) as [E | NE]; [ intros [= <-]; apply Qle_refl | ].
  set (u := Z.max (binade n d - 52) (-1074)).
  destruct (Z.leb_spec 0 u) as [Hu | Hu].
  - assert (Hp : 0 < 2 ^ u) by (apply Z.pow_pos_nonneg; lia).
    pose proof (nearest_even_spec n (d * 2 ^ u) Hn ltac:(nia)) as (Hm & _).
    cbn zeta in Hm.
    assert (0 <= n / (d * 2 ^ u)) by (apply Z.div_pos; nia).
    destruct (_ <=? _); [ discriminate | ]. intros [= <-].
    change 0%Q with (inject_Z 0). rewrite <- Zle_Qle. nia.
  - assert (Hp : 0 < 2 ^ (- u)) by (apply Z.pow_pos_nonneg; lia).
    pose proof (nearest_even_spec (n * 2 ^ (- u)) d ltac:(nia) Hd) as (Hm & _).
    cbn zeta in Hm.
    assert (0 <= n * 2 ^ (- u) / d) by (apply Z.div_pos; nia).
    set (y := _ # _). intros E. assert (Ex : x = Qred y) by congruence.
    rewrite Ex. change 0%Q with (Qred 0).
    apply (proj2 (Qred_le 0 y)).
    unfold Qle, y. cbn [Qnum Qden]. lia.
Qed.

(** Two fractions with positive denominators within a bound, read off the
    integers. *)
Lemma Qabs_fraction_le (X : Z) (T : positive) (n : Z) (d : positive) (r : Q) :
  (0 <= r)%Q ->
  (Z.abs (X * Z.pos d - n * Z.pos T) * QDen r <= Qnum r * (Z.pos T * Z.pos d)) ->
  (Qabs ((X # T) - inject_Z n / inject_Z (Z.pos d)) <= r)%Q.
Proof.
  intros Hr H.
  assert (E : ((X # T) - inject_Z n / inject_Z (Z.pos d)
               == (X * Z.pos d - n * Z.pos T) # (T * d))%Q).
  { unfold Qeq, Qminus, Qplus, Qopp, Qdiv, Qmult, Qinv, inject_Z.
    cbn [Qnum Qden]. rewrite !Pos2Z.inj_mul. ring. }
  rewrite E. unfold Qabs, Qle. cbn [Qnum Qden]. rewrite Pos2Z.inj_mul. exact H.
Qed.

(** The rounded quotient is within half a unit in the last place: a
    relative error of at most [2 ^ -53], or [2 ^ -1075] near zero. *)
Lemma nearest_error n d x :
  0 < n -> 0 < d -> nearest n d = Some x ->
  (Qabs (x - inject_Z n / inject_Z d)
   <= inject_Z n / inject_Z d * (1 # 2 ^ 53) + (1 # 2 ^ 1075))%Q.
Proof.
  intros Hn Hd. unfold nearest.
  destruct (Z.eqb_spec n 0) as [E | _]; [ lia | ].
  pose proof (binade_spec n d Hn Hd) as Hbin. cbn zeta in Hbin.
  set (e := binade n d) in *. clearbody e.
  destruct d as [ | d | d]; try lia. destruct n as [ | n | n]; try lia.
  set (r := (inject_Z (Z.pos n) / inject_Z (Z.pos d) * (1 # 2 ^ 53)
             + (1 # 2 ^ 1075))%Q).
  assert (Er : (r == (Z.pos n * Z.pos (2 ^ 1075) + Z.pos (d * 2 ^ 53)
                      # d * 2 ^ 53 * 2 ^ 1075))%Q).
  { unfold r, Qeq, Qplus, Qdiv, Qinv, inject_Z. cbn [Qnum Qden].
    unfold Qmult. cbn [Qnum Qden]. rewrite !Pos2Z.inj_mul. ring. }
  clearbody r.
  assert (Hr : (0 <= (Z.pos n * Z.pos (2 ^ 1075) + Z.pos (d * 2 ^ 53)
                      # d * 2 ^ 53 * 2 ^ 1075))%Q)
    by (unfold Qle; cbn [Qnum Qden]; lia).
  destruct (Z.leb_spec 0 (Z.max (e - 52) (-1074))) as [Hu | Hu].
  - rewrite (Z.max_l (e - 52) (-1074)) in * by lia.
    set (P := 2 ^ (e - 52)).
    assert (HP : 0 < P) by (apply Z.pow_pos_nonneg; lia).
    pose proof (nearest_even_spec (Z.pos n) (Z.pos d * P) ltac:(lia) ltac:(nia))
      as (_ & Hm & _). cbn zeta in Hm.
    set (m := nearest_even (Z.pos n) (Z.pos d * P)) in *. clearbody m.
    destruct (_ <=? _); [ discriminate | ]. intros E.
    assert (Ex : x = (m * P # 1)%Q) by (unfold inject_Z in E; congruence).
    rewrite Ex, Er. apply Qabs_fraction_le; [ exact Hr | ].
    cbn [Qnum Qden].
    rewrite (Z.max_l e 0), (Z.max_r (- e) 0), Z.pow_0_r in Hbin by lia.
    assert (Ee : 2 ^ e = 2 ^ 52 * P).
    { unfold P. rewrite <- Z.pow_add_r by lia. f_equal. lia. }
    rewrite Ee in Hbin.
    rewrite !Pos2Z.inj_mul, !Pos2Z.inj_pow.
    change (Z.pos 2) with 2. change (Z.pos 53) with 53.
    change (Z.pos 1075) with 1075. change (Z.pos 1) with 1.
    assert (H53 : 2 ^ 53 = 2 * 2 ^ 52) by reflexivity.
    assert (Hc : 0 < 2 ^ 52) by reflexivity.
    assert (Hb : 0 < 2 ^ 1075) by reflexivity.
    set (c := 2 ^ 52) in *. set (b := 2 ^ 1075) in *.
    rewrite H53. clearbody c b.
    assert (G : 2 * Z.abs (m * P * Z.pos d - Z.pos n * 1) * c <= Z.pos n).
    { replace (m * P * Z.pos d - Z.pos n * 1) with (m * (Z.pos d * P) - Z.pos n)
        by ring. nia. }
    set (a := Z.abs _) in *.
    assert (Ha : 0 <= a) by (unfold a; lia). clearbody a.
    nia.
  - set (u := Z.max (e - 52) (-1074)) in *.
    set (T := 2 ^ (- u)).
    assert (HT : 0 < T) by (apply Z.pow_pos_nonneg; lia).
    pose proof (nearest_even_spec (Z.pos n * T) (Z.pos d) ltac:(nia) ltac:(lia))
      as (_ & Hm & _). cbn zeta in Hm.
    set (m := nearest_even (Z.pos n * T) (Z.pos d)) in *. clearbody m.
    set (y := (m # Z.to_pos T)%Q). intros E.
    assert (Ex : x = Qred y) by congruence.
    rewrite Ex, (Qred_correct y), Er. unfold y.
    apply Qabs_fraction_le; [ exact Hr | ].
    cbn [Qnum Qden]. rewrite Z2Pos.id by lia.
    rewrite !Pos2Z.inj_mul, !Pos2Z.inj_pow.
    change (Z.pos 2) with 2. change (Z.pos 53) with 53.
    change (Z.pos 1075) with 1075.
    assert (H53 : 2 ^ 53 = 2 * 2 ^ 52) by reflexivity.
    assert (Hc : 0 < 2 ^ 52) by reflexivity.
    assert (Hb : 2 ^ 1075 = 2 * 2 ^ 1074) by reflexivity.
    assert (Hb' : 0 < 2 ^ 1074) by reflexivity.
    rewrite H53, Hb.
    destruct (Z.max_spec (e - 52) (-1074)) as [[Hlt Eu] | [Hge Eu]]; fold u in Eu.
    + (* u = -1074 *)
      assert (ET : T = 2 ^ 1074) by (unfold T; rewrite Eu; reflexivity).
      rewrite ET in *.
      set (c := 2 ^ 52) in *. set (b := 2 ^ 1074) in *. clearbody c b.
      set (a := Z.abs _) in *.
      assert (Ha : 0 <= a) by (unfold a; lia). clearbody a.
      nia.
    + (* u = e - 52 *)
      assert (K : Z.pos d * 2 ^ 52 <= Z.pos n * T).
      { unfold T. rewrite Eu.
        destruct (Z.le_gt_cases 0 e) as [He | He].
        - rewrite (Z.max_l e 0), (Z.max_r (- e) 0), Z.pow_0_r in Hbin by lia.
          assert (Ee : 2 ^ 52 = 2 ^ e * 2 ^ (- (e - 52))).
          { rewrite <- Z.pow_add_r by lia. f_equal. lia. }
          assert (0 < 2 ^ (- (e - 52))) by (apply Z.pow_pos_nonneg; lia).
          rewrite Ee. nia.
        - rewrite (Z.max_r e 0), (Z.max_l (- e) 0), Z.pow_0_r in Hbin by lia.
          assert (Ee : 2 ^ (- (e - 52)) = 2 ^ 52 * 2 ^ (- e)).
          { rewrite <- Z.pow_add_r by lia. f_equal. lia. }
          rewrite Ee. nia. }
      set (c := 2 ^ 52) in *. set (b := 2 ^ 1074) in *. clearbody c b.
      set (a := Z.abs _) in *.
      assert (Ha : 0 <= a) by (unfold a; lia). clearbody a.
      nia.
Qed.

(** The division overflows exactly from the midpoint between the largest
    float and [2 ^ 1024] on. *)
Lemma nearest_overflow n d :
  0 < n -> 0 < d ->
  nearest n d = None <-> (2 ^ 1024 - 2 ^ 970) * d <= n.
Proof.
  intros Hn Hd. unfold nearest.
  destruct (Z.eqb_spec n 0) as [E | _]; [ lia | ].
  pose proof (binade_spec n d Hn Hd) as Hbin. cbn zeta in Hbin.
  set (e := binade n d) in *. clearbody e.
  assert (Hbig : 2 ^ 1024 - 2 ^ 970 = (2 ^ 54 - 1) * 2 ^ 970) by reflexivity.
  assert (HH : 0 < 2 ^ 970) by reflexivity.
  destruct (Z.leb_spec 0 (Z.max (e - 52) (-1074))) as [Hu | Hu].
  - rewrite (Z.max_l (e - 52) (-1074)) in * by lia.
    rewrite (Z.max_l e 0), (Z.max_r (- e) 0), Z.pow_0_r in Hbin by lia.
    remember (2 ^ (e - 52)) as P eqn:HeqP.
    assert (HP : 0 < P) by (rewrite HeqP; apply Z.pow_pos_nonneg; lia).
    assert (Ee : 2 ^ e = 2 ^ 52 * P).
    { rewrite HeqP, <- Z.pow_add_r by lia. f_equal. lia. }
    rewrite Ee in Hbin.
    assert (HD : 0 < d * P) by nia.
    pose proof (Z.div_mod n (d * P) ltac:(lia)) as Edm.
    pose proof (Z.mod_pos_bound n (d * P) HD) as Hr.
    pose proof (nearest_even_spec n (d * P) ltac:(lia) HD) as (Hm & _).
    cbn zeta in Hm.
    assert (Hm0 : 2 ^ 52 <= n / (d * P) <= 2 ^ 53 - 1).
    { split.
      - apply Z.div_le_lower_bound; [ lia | ]. nia.
      - assert (n / (d * P) < 2 ^ 53); [ | lia ].
        apply Z.div_lt_upper_bound; [ lia | ].
        replace (2 ^ 53) with (2 * 2 ^ 52) by reflexivity. nia. }
    destruct (Z.lt_trichotomy e 1023) as [Hlow | [Hmid | Hhigh]].
    + (* below the last binade *)
      assert (HPs : P <= 2 ^ 970).
      { rewrite HeqP. apply Z.pow_le_mono_r; lia. }
      assert (Hval : nearest_even n (d * P) * P <= 2 ^ 53 * 2 ^ 970)
        by (apply Z.mul_le_mono_nonneg; lia).
      assert (E1 : 2 ^ 1024 = 2 * (2 ^ 53 * 2 ^ 970)) by reflexivity.
      destruct (Z.leb_spec (2 ^ 1024) (nearest_even n (d * P) * P)) as [Hov | _].
      * exfalso. lia.
      * split; [ discriminate | ]. intros Hge. exfalso.
        rewrite Hbig in Hge.
        assert (n < 2 ^ 53 * (d * 2 ^ 970)).
        { replace (2 ^ 53) with (2 * 2 ^ 52) by reflexivity. nia. }
        assert (2 ^ 53 < 2 ^ 54 - 1) by reflexivity. nia.
    + (* the last binade *)
      assert (EP : P = 2 * 2 ^ 970) by (rewrite HeqP, Hmid; reflexivity).
      assert (E1 : 2 ^ 1024 = 2 ^ 53 * (2 * 2 ^ 970)) by reflexivity.
      clear HeqP Ee. subst P. rewrite Hbig, E1 in *.
      set (H := 2 ^ 970) in *. clearbody H.
      set (m0 := n / (d * (2 * H))) in *.
      set (r := n mod (d * (2 * H))) in *.
      unfold nearest_even in *. fold m0 in Hm |- *. fold r in Hm |- *.
      cbn zeta in *. clearbody m0 r.
      assert (K : forall m, 2 ^ 53 * (2 * H) <= m * (2 * H) <-> 2 ^ 53 <= m)
        by (intros; nia).
      destruct (Z.compare_spec (2 * r) (d * (2 * H))) as [C | C | C].
      * destruct (Z.even m0) eqn:Hev.
        -- destruct (Z.leb_spec (2 ^ 53 * (2 * H)) (m0 * (2 * H))) as [Hov | Hno].
           ++ apply K in Hov. lia.
           ++ split; [ discriminate | ]. intros Hge. exfalso.
              assert (HX : 0 < H * d) by nia.
              assert (En : n = (2 * m0 + 1) * (H * d)) by nia.
              assert (Em : m0 = 2 ^ 53 - 1) by nia.
              rewrite Em in Hev. discriminate Hev.
        -- destruct (Z.leb_spec (2 ^ 53 * (2 * H)) ((m0 + 1) * (2 * H))) as [Hov | Hno].
           ++ split; [ intros _ | reflexivity ]. apply K in Hov. nia.
           ++ split; [ discriminate | ]. intros Hge. exfalso.
              assert (m0 + 1 < 2 ^ 53) by (destruct (Z.lt_ge_cases (m0 + 1) (2 ^ 53)); [ assumption | exfalso; apply K in H0; lia ]).
              nia.
      * destruct (Z.leb_spec (2 ^ 53 * (2 * H)) (m0 * (2 * H))) as [Hov | Hno].
        -- apply K in Hov. lia.
        -- split; [ discriminate | ]. intros Hge. exfalso. nia.
      * destruct (Z.leb_spec (2 ^ 53 * (2 * H)) ((m0 + 1) * (2 * H))) as [Hov | Hno].
        -- split; [ intros _ | reflexivity ]. apply K in Hov. nia.
        -- split; [ discriminate | ]. intros Hge. exfalso.
           assert (m0 + 1 < 2 ^ 53) by (destruct (Z.lt_ge_cases (m0 + 1) (2 ^ 53)); [ assumption | exfalso; apply K in H0; lia ]).
           nia.
    + (* beyond *)
      assert (HPs : 2 ^ 972 <= P).
      { rewrite HeqP. apply Z.pow_le_mono_r; lia. }
      assert (E1 : 2 ^ 1024 = 2 ^ 52 * 2 ^ 972) by reflexivity.
      assert (Hval : 2 ^ 52 * 2 ^ 972 <= nearest_even n (d * P) * P)
        by (apply Z.mul_le_mono_nonneg; lia).
      destruct (Z.leb_spec (2 ^ 1024) (nearest_even n (d * P) * P)) as [_ | Hno];
        [ | exfalso; lia ].
      split; [ intros _ | reflexivity ].
      assert (2 ^ 1024 - 2 ^ 970 <= 2 ^ 52 * 2 ^ 972) by (rewrite <- E1; lia).
      nia.
  - split; [ discriminate | ]. intros Hge. exfalso.
    assert (He : e < 52) by lia.
    rewrite Hbig in Hge.
    destruct (Z.le_gt_cases 0 e) as [He0 | He0].
    + rewrite (Z.max_l e 0), (Z.max_r (- e) 0), Z.pow_0_r in Hbin by lia.
      assert (2 ^ e <= 2 ^ 51) by (apply Z.pow_le_mono_r; lia).
      assert (0 < 2 ^ e) by (apply Z.pow_pos_nonneg; lia).
      assert (2 * 2 ^ 51 < (2 ^ 54 - 1) * 2 ^ 970) by reflexivity.
      nia.
    + rewrite (Z.max_r e 0), (Z.max_l (- e) 0), Z.pow_0_r in Hbin by lia.
      assert (0 < 2 ^ (- e)) by (apply Z.pow_pos_nonneg; lia).
      assert (2 < (2 ^ 54 - 1) * 2 ^ 970) by reflexivity.
      nia.
Qed.
(** Rounding does not leave an interval whose ends are integers up to
    [2 ^ 53]. *)
Lemma nearest_between lo hi n d x :
  0 < d -> 0 <= lo -> lo * d <= n <= hi * d -> hi <= 2 ^ 53 ->
  nearest n d = Some x ->
  (inject_Z lo <= x <= inject_Z hi)%Q.
Proof.
  intros Hd Hlo [Hl Hh] Hhi. unfold nearest.
  destruct (Z.eqb_spec n 0) as [E | NE].
  - intros [= <-]. change 0%Q with (inject_Z 0). rewrite <- !Zle_Qle. nia.
  - assert (Hn : 0 < n) by nia.
    pose proof (binade_spec n d Hn Hd) as Hbin. cbn zeta in Hbin.
    set (e := binade n d) in *. clearbody e.
    assert (He : e <= 53).
    { destruct (Z.le_gt_cases e 53) as [ | Hbig]; [ assumption | exfalso ].
      rewrite (Z.max_l e 0), (Z.max_r (- e) 0), Z.pow_0_r in Hbin by lia.
      assert (2 ^ 54 <= 2 ^ e) by (apply Z.pow_le_mono_r; lia).
      assert (2 ^ 53 < 2 ^ 54) by reflexivity. nia. }
    destruct (Z.leb_spec 0 (Z.max (e - 52) (-1074))) as [Hu | Hu].
    + rewrite (Z.max_l (e - 52) (-1074)) in * by lia.
      rewrite (Z.max_l e 0), (Z.max_r (- e) 0), Z.pow_0_r in Hbin by lia.
      destruct (Z.eq_dec e 52) as [-> | Hne].
      * change (2 ^ (52 - 52)) with 1. rewrite !Z.mul_1_r.
        pose proof (nearest_even_spec n d ltac:(lia) Hd) as (Hm & _ & Hdown & _).
        cbn zeta in Hm, Hdown.
        pose proof (Z.div_mod n d ltac:(lia)) as Edm.
        pose proof (Z.mod_pos_bound n d Hd) as Hr.
        destruct (_ <=? _); [ discriminate | ]. intros [= <-].
        rewrite <- !Zle_Qle. split.
        -- assert (lo <= n / d) by (apply Z.div_le_lower_bound; lia). lia.
        -- destruct (Z.eq_dec (n mod d) 0) as [Hz | Hnz].
           ++ rewrite Hdown by lia. nia.
           ++ assert (n / d < hi); [ | lia ].
              apply Z.div_lt_upper_bound; [ lia | ].
              assert (n <> hi * d)
                by (intros ->; rewrite Z.mod_mul in Hnz; lia).
              lia.
      * assert (e = 53) by lia. subst e.
        change (2 ^ (53 - 52)) with 2.
        assert (En : n = 2 ^ 53 * d) by nia.
        assert (Ehi : hi = 2 ^ 53) by nia.
        replace n with (2 ^ 52 * (d * 2)) by (rewrite En; change (2 ^ 53) with (2 ^ 52 * 2); ring).
        rewrite nearest_even_exact by lia.
        destruct (_ <=? _); [ discriminate | ]. intros [= <-].
        rewrite <- !Zle_Qle. change (2 ^ 52 * 2) with (2 ^ 53).
        split; [ nia | lia ].
    + set (u := Z.max (e - 52) (-1074)) in *. clearbody u.
      set (T := 2 ^ (- u)).
      assert (HT : 0 < T) by (apply Z.pow_pos_nonneg; lia).
      pose proof (nearest_even_spec (n * T) d ltac:(nia) Hd) as (Hm & _ & Hdown & _).
      cbn zeta in Hm, Hdown.
      pose proof (Z.div_mod (n * T) d ltac:(lia)) as Edm.
      pose proof (Z.mod_pos_bound (n * T) d Hd) as Hr.
      set (m := nearest_even (n * T) d) in *. clearbody m.
      set (y := (m # Z.to_pos T)%Q). intros E.
      assert (Ex : x = Qred y) by congruence.
      rewrite Ex.
      assert (Hq : (inject_Z lo <= y <= inject_Z hi)%Q).
      { unfold y, Qle, inject_Z. cbn [Qnum Qden]. rewrite Z2Pos.id by lia.
        rewrite !Z.mul_1_r. split.
        - assert (lo * T <= n * T / d) by (apply Z.div_le_lower_bound; nia). lia.
        - destruct (Z.eq_dec ((n * T) mod d) 0) as [Hz | Hnz].
          + rewrite Hdown by lia. apply Z.div_le_upper_bound; nia.
          + assert (n * T / d < hi * T); [ | lia ].
            apply Z.div_lt_upper_bound; [ lia | ].
            assert (n * T <> hi * T * d)
              by (intros Eq; rewrite Eq, Z.mod_mul in Hnz; lia).
            nia. }
      destruct Hq as [H1 H2]. split.
      * rewrite <- (Qred_inject_Z lo). apply (proj2 (Qred_le _ _)). exact H1.
      * rewrite <- (Qred_inject_Z hi). apply (proj2 (Qred_le _ _)). exact H2.
Qed.

End Binary64Facts.

(** ** clean_salary as CPython evaluates it *)

Section CpythonFacts.
Import Cpython SalaryRule.

(** Reading the digits of a run: the value and the number of digits. *)
Let read (ds : list N) (r : Z * Z) : Z * Z :=
  fold_left (fun r c => (10 * fst r + digit_value c, snd r + 1)) ds r.

(** What [int] makes of a run that was read. *)
Let convert (r : Z * Z) : result Z :=
  if max_str_digits <? snd r then Raise (ValueError digit_limit) else Ok (fst r).

Lemma decimal_not_comma c : is_digit c = true -> is_comma c = false.
Proof.
  unfold is_comma. intros H.
  destruct (N.eqb_spec c 44) as [-> | _]; [ | reflexivity ].
  vm_compute in H. discriminate.
Qed.

Lemma comma_not_decimal c : decimal c = None -> is_digit c = false.
Proof. unfold is_digit. intros ->. reflexivity. Qed.

Lemma replace_commas_star_decimal s :
  forallb is_digit (replace_commas (star_class s)) = true.
Proof.
  induction s as [ | c s IH]; [ reflexivity | ].
  simpl. unfold in_class.
  destruct (is_digit c) eqn:Hd; simpl.
  - rewrite (decimal_not_comma c Hd). simpl. rewrite Hd. exact IH.
  - destruct (is_comma c) eqn:Hc; simpl; [ rewrite Hc; exact IH | reflexivity ].
Qed.

Lemma runs_from_open r s :
  runs_from (Some r) s =
  read (replace_commas (star_class s)) r
    :: runs_from None (skipn (length (star_class s)) s).
Proof.
  revert r. induction s as [ | c s IH]; intros [v k]; [ reflexivity | ].
  cbn [runs_from star_class]. unfold in_class, is_digit, digit_value.
  destruct (decimal c) as [d | ] eqn:Hd.
  - cbn [orb length skipn fst snd]. rewrite IH.
    assert (Hc : is_comma c = false)
      by (apply decimal_not_comma; unfold is_digit; rewrite Hd; reflexivity).
    unfold replace_commas at 2. cbn [List.filter]. rewrite Hc. cbn [negb].
    unfold read. cbn [fold_left fst snd]. unfold digit_value. rewrite Hd.
    reflexivity.
  - cbn [orb]. unfold is_comma. destruct (c =? 44)%N eqn:Hc.
    + cbn [length skipn]. rewrite IH.
      unfold replace_commas at 2. cbn [List.filter]. unfold is_comma.
      rewrite Hc. reflexivity.
    + change (runs_from None (skipn (length (@nil N)) (c :: s)))
        with (runs_from None (c :: s)).
      cbn [runs_from]. rewrite Hd, Hc. reflexivity.
Qed.

Lemma findall_from_skip_class s :
  findall_from (length (star_class s)) s =
  findall_from 0 (skipn (length (star_class s)) s).
Proof.
  induction s as [ | c s IH]; [ reflexivity | ].
  simpl. destruct (in_class c); simpl; [ exact IH | reflexivity ].
Qed.

Lemma read_digits ds :
  forall r,
    read ds r
    = (fold_left (fun acc c => 10 * acc + digit_value c) ds (fst r),
       snd r + Z.of_nat (length ds)).
Proof.
  induction ds as [ | c ds IH]; intros [v k].
  - simpl. f_equal. lia.
  - unfold read in *. cbn [fold_left length fst snd]. rewrite IH.
    cbn [fst snd]. f_equal. lia.
Qed.

Lemma py_int_run_text c s :
  is_digit c = true ->
  py_int (replace_commas (c :: star_class s))
  = convert (read (replace_commas (star_class s)) (digit_value c, 1)).
Proof.
  intros Hd. unfold replace_commas at 1. cbn [List.filter].
  rewrite (decimal_not_comma c Hd). cbn [negb].
  fold (replace_commas (star_class s)).
  unfold py_int, convert. cbn [forallb]. rewrite Hd, replace_commas_star_decimal.
  cbn [andb]. rewrite read_digits. cbn [fst snd fold_left length].
  replace (10 * 0 + digit_value c) with (digit_value c) by lia.
  replace (Z.of_nat (S (length (replace_commas (star_class s)))))
    with (1 + Z.of_nat (length (replace_commas (star_class s)))) by lia.
  reflexivity.
Qed.

(** Every match of the pattern is a run of the one-pass reading, and [int]
    accepts it unless it has more than 4300 digits. *)
Lemma findall_runs_from n :
  forall s, (length s <= n)%nat ->
  mapR (fun m => py_int (replace_commas m)) (findall_from 0 s)
  = mapR convert (runs_from None s).
Proof.
  induction n as [ | n IH]; intros s Hlen.
  - destruct s; [ reflexivity | simpl in Hlen; lia ].
  - destruct s as [ | c s]; [ reflexivity | ].
    simpl in Hlen.
    cbn [findall_from match_here runs_from]. unfold is_digit at 1.
    destruct (decimal c) as [d | ] eqn:Hd.
    + assert (Hdig : is_digit c = true) by (unfold is_digit; rewrite Hd; reflexivity).
      cbn [length fst snd]. rewrite Nat.sub_succ, Nat.sub_0_r.
      rewrite findall_from_skip_class. cbn [mapR].
      rewrite (py_int_run_text c s Hdig).
      rewrite runs_from_open. cbn [mapR].
      unfold digit_value at 1. rewrite Hd.
      replace (10 * 0 + d) with d by lia. replace (0 + 1) with 1 by lia.
      rewrite IH by (rewrite length_skipn; lia).
      reflexivity.
    + destruct (c =? 44)%N; apply IH; lia.
Qed.

Lemma decimal_range c d : decimal c = Some d -> 0 <= d <= 9.
Proof.
  unfold decimal.
  destruct (List.find _ decimal_zeros) as [z | ] eqn:Hf; [ | discriminate ].
  intros [= <-]. apply find_some in Hf as [_ H].
  apply andb_true_iff in H as [H1 H2].
  apply N.leb_le in H1. apply N.ltb_lt in H2. lia.
Qed.

Lemma runs_from_nonneg s :
  forall cur, (forall r, cur = Some r -> 0 <= fst r /\ 0 <= snd r) ->
  Forall (fun r => 0 <= fst r /\ 0 <= snd r) (runs_from cur s).
Proof.
  induction s as [ | c s IH]; intros cur Hcur; cbn [runs_from].
  - destruct cur; constructor; auto.
  - destruct (decimal c) as [d | ] eqn:Hd.
    + pose proof (decimal_range c d Hd).
      destruct cur as [[v k] | ]; cbn [fst snd].
      * destruct (Hcur _ eq_refl) as [Hv Hk]. simpl in Hv, Hk.
        apply IH. intros r [= <-]. simpl. lia.
      * apply IH. intros r [= <-]. simpl. lia.
    + destruct (c =? 44)%N; [ apply IH; exact Hcur | ].
      destruct cur as [r | ].
      * constructor; [ apply Hcur; reflexivity | apply IH; discriminate ].
      * apply IH; discriminate.
Qed.

Lemma mapR_convert rs :
  mapR convert rs
  = if forallb (fun r => snd r <=? 4300) rs
    then Ok (map fst rs) else Raise (ValueError digit_limit).
Proof.
  induction rs as [ | [v k] rs IH]; [ reflexivity | ].
  cbn [mapR forallb map fst snd]. unfold convert at 1, max_str_digits.
  cbn [fst snd]. rewrite Z.ltb_antisym.
  destruct (k <=? 4300); cbn [negb andb bind]; [ | reflexivity ].
  rewrite IH. destruct (forallb _ rs); reflexivity.
Qed.

Lemma mapR_nil_iff {A B} (f : A -> result B) l :
  mapR f l = Ok [] -> l = [].
Proof.
  destruct l as [ | a l]; [ reflexivity | ].
  simpl. destruct (f a); [ | discriminate ]. simpl.
  destruct (mapR f l); discriminate.
Qed.

Lemma sum_total l : Salary.sum l = total l.
Proof.
  unfold Salary.sum, total.
  assert (G : forall a, fold_left Z.add l a = a + fold_right Z.add 0 l).
  { induction l as [ | x l IH]; intros a; simpl; [ lia | ].
    rewrite IH. lia. }
  rewrite G. lia.
Qed.

Lemma total_nonneg l : Forall (fun n => 0 <= n) l -> 0 <= total l.
Proof.
  unfold total. induction 1 as [ | x l Hx _ IH]; simpl; lia.
Qed.

(** On an integer that is not negative and a positive count, the division
    is the rounding of the quotient. *)
Lemma py_truediv_nonneg a b :
  0 <= a -> 0 < b ->
  py_truediv a b
  = match Binary64.nearest a b with
    | Some q => Ok (FFin q)
    | None => Raise OverflowError
    end.
Proof.
  intros Ha Hb. unfold py_truediv.
  destruct (Z.eqb_spec b 0) as [E | _]; [ lia | ].
  rewrite (Z.abs_eq a Ha), (Z.abs_eq b) by lia.
  destruct (Z.ltb_spec a 0) as [ | _]; [ lia | ].
  destruct (Z.ltb_spec b 0) as [ | _]; [ lia | ].
  reflexivity.
Qed.

(** The code computes what the rule describes. *)
Lemma clean_salary_follows_rule v :
  Cpython.clean_salary v = clean_salary_spec v.
Proof.
  destruct v as [ | b | z | x | t]; try reflexivity.
  - destruct x; reflexivity.
  - unfold Cpython.clean_salary, clean_salary_spec, runs, findall.
    cbn [isna is_str negb orb].
    pose proof (findall_runs_from _ (codepoints t) (le_n _)) as H.
    pose proof (runs_from_nonneg (codepoints t) None) as Hpos.
    rewrite mapR_convert in H.
    destruct (findall_from 0 (codepoints t)) as [ | m ms] eqn:Hf.
    + simpl in H. destruct (runs_from None (codepoints t)) as [ | r rs];
        [ reflexivity | ].
      destruct (forallb _ (r :: rs)); discriminate H.
    + rewrite H.
      destruct (runs_from None (codepoints t)) as [ | r rs] eqn:Hr.
      * cbn [forallb map] in H. apply mapR_nil_iff in H. discriminate H.
      * destruct (forallb (fun r0 => snd r0 <=? 4300) (r :: rs)); [ | reflexivity ].
        rewrite sum_total, length_map.
        rewrite py_truediv_nonneg.
        -- destruct (Binary64.nearest _ _); reflexivity.
        -- apply total_nonneg. apply Forall_map.
           specialize (Hpos ltac:(discriminate)).
           rewrite Forall_forall in Hpos |- *. intros x Hx. apply (Hpos x Hx).
        -- simpl. lia.
Qed.

End CpythonFacts.

(** The mean of the integers of the runs of a text. *)
Definition mean_of_runs (rs : list (Z * Z)) : Q :=
  inject_Z (SalaryRule.total (map fst rs)) / inject_Z (Z.of_nat (length rs)).

(** A text of [k] sevens, and a one followed by [k] zeros. *)
Definition sevens (k : nat) : string := string_of_list_ascii (repeat "7"%char k).

Definition one_and_zeros (k : nat) : string :=
  String "1" (string_of_list_ascii (repeat "0"%char k)).

Section MeanFacts.
Import Cpython SalaryRule.

Lemma within_limit_Forall (rs : list (Z * Z)) :
  forallb (fun r => snd r <=? 4300) rs = true
  <-> Forall (fun r => snd r <= 4300) rs.
Proof.
  induction rs as [ | r rs IH]; cbn [forallb].
  - split; [ constructor | reflexivity ].
  - rewrite andb_true_iff, Forall_cons_iff, IH, Z.leb_le. reflexivity.
Qed.

Lemma beyond_limit_Exists (rs : list (Z * Z)) :
  forallb (fun r => snd r <=? 4300) rs = false
  <-> Exists (fun r => 4300 < snd r) rs.
Proof.
  induction rs as [ | r rs IH]; cbn [forallb].
  - split; [ discriminate | intros H; inversion H ].
  - rewrite andb_false_iff, Exists_cons, IH, Z.leb_gt. reflexivity.
Qed.

Lemma quotient_ge c n d :
  0 < d -> (inject_Z c <= inject_Z n / inject_Z d)%Q <-> c * d <= n.
Proof.
  intros Hd. destruct d as [ | d | d]; try lia.
  unfold Qle, Qdiv, Qmult, Qinv, inject_Z. cbn [Qnum Qden].
  rewrite Pos.mul_1_l. lia.
Qed.

Lemma quotient_eq k n d :
  0 < d -> (inject_Z n / inject_Z d == inject_Z k)%Q -> n = k * d.
Proof.
  intros Hd. destruct d as [ | d | d]; try lia.
  unfold Qeq, Qdiv, Qmult, Qinv, inject_Z. cbn [Qnum Qden].
  rewrite Pos.mul_1_l. lia.
Qed.

(** What the rule gives for a text with runs [rs]. *)
Lemma rule_of_runs t r rs :
  runs t = r :: rs ->
  Cpython.clean_salary (PStr t)
  = if forallb (fun r => snd r <=? 4300) (r :: rs) then
      match Binary64.nearest (total (map fst (r :: rs)))
                             (Z.of_nat (length (r :: rs))) with
      | Some x => Ok (PFloat (FFin x))
      | None => Raise OverflowError
      end
    else Ok PNone.
Proof.
  intros E. rewrite clean_salary_follows_rule. unfold clean_salary_spec.
  rewrite E. reflexivity.
Qed.

Lemma total_runs_nonneg t : 0 <= total (map fst (runs t)).
Proof.
  apply total_nonneg. apply Forall_map.
  pose proof (runs_from_nonneg (codepoints t) None ltac:(discriminate)) as H.
  rewrite Forall_forall in H |- *. intros x Hx. apply (H x Hx).
Qed.

End MeanFacts.

(** C1, as the code has it.  [clean_salary] follows the rule of the
    specification: absent for a value that is missing or not text and for
    a text without a digit run; otherwise the runs of decimal digits with
    embedded commas are read from left to right, the commas dropped, each
    run read as an integer, and the result is their arithmetic mean, as a
    float.  Two things the rule as worded leaves out: [int] refuses a run of
    more than 4300 digits, and then the result is absent although a run
    was found; and the mean is rounded to the nearest binary64 float, so it
    is the mean up to a relative error of [2 ^ -53] (exactly the mean when
    that is an integer up to [2 ^ 53]), and from [2 ^ 1024 - 2 ^ 970] on
    the division raises OverflowError instead of returning.  On the four
    inputs of the specification: 40000.0, 45000.0, absent, absent. *)
Theorem clean_salary_computes_mean :
  (forall v, Cpython.clean_salary v = SalaryRule.clean_salary_spec v)
  /\ (forall v, (forall t, v <> PStr t) -> Cpython.clean_salary v = Ok PNone)
  /\ (forall t,
        Cpython.clean_salary (PStr t) = Ok PNone <->
        SalaryRule.runs t = []
        \/ Exists (fun r => 4300 < snd r) (SalaryRule.runs t))
  /\ (forall t,
        Cpython.clean_salary (PStr t) = Raise OverflowError <->
        SalaryRule.runs t <> []
        /\ Forall (fun r => snd r <= 4300) (SalaryRule.runs t)
        /\ (inject_Z (2 ^ 1024 - 2 ^ 970)
            <= mean_of_runs (SalaryRule.runs t))%Q)
  /\ (forall t x,
        Cpython.clean_salary (PStr t) = Ok (PFloat x) ->
        exists q,
          x = FFin q
          /\ (Qabs (q - mean_of_runs (SalaryRule.runs t))
              <= mean_of_runs (SalaryRule.runs t) * (1 # 2 ^ 53)
                 + (1 # 2 ^ 1075))%Q
          /\ (forall k, 0 <= k <= 2 ^ 53 ->
                (mean_of_runs (SalaryRule.runs t) == inject_Z k)%Q ->
                q = inject_Z k))
  /\ Cpython.clean_salary (PStr "$40,000") = Ok (PFloat (FFin (40000 # 1)))
  /\ Cpython.clean_salary (PStr "40000-50000") = Ok (PFloat (FFin (45000 # 1)))
  /\ Cpython.clean_salary (PStr "n/a") = Ok PNone
  /\ Cpython.clean_salary PNone = Ok PNone.
Proof.
  split; [ exact clean_salary_follows_rule | ].
  split.
  { intros v Hv. destruct v as [ | b | z | [ | neg | q] | t]; try reflexivity.
    destruct (Hv t eq_refl). }
  split.
  { intros t. destruct (SalaryRule.runs t) as [ | r rs] eqn:E.
    - rewrite clean_salary_follows_rule. unfold SalaryRule.clean_salary_spec.
      rewrite E. split; [ auto | reflexivity ].
    - rewrite (rule_of_runs t r rs E).
      destruct (forallb _ (r :: rs)) eqn:Hall.
      + split.
        * destruct (Binary64.nearest _ _); discriminate.
        * intros [H | H]; [ discriminate H | ].
          apply beyond_limit_Exists in H. congruence.
      + split; [ | reflexivity ].
        intros _. right. apply beyond_limit_Exists. exact Hall. }
  split.
  { intros t. pose proof (total_runs_nonneg t) as Hpos.
    destruct (SalaryRule.runs t) as [ | r rs] eqn:E.
    - rewrite clean_salary_follows_rule. unfold SalaryRule.clean_salary_spec.
      rewrite E. split; [ discriminate | intros [H _]; destruct (H eq_refl) ].
    - rewrite (rule_of_runs t r rs E). unfold mean_of_runs.
      set (n := SalaryRule.total (map fst (r :: rs))) in *.
      set (d := Z.of_nat (length (r :: rs))).
      assert (Hd : 0 < d) by (unfold d; simpl; lia).
      rewrite (quotient_ge _ n d Hd).
      destruct (forallb _ (r :: rs)) eqn:Hall.
      + apply within_limit_Forall in Hall.
        destruct (Z.eq_dec n 0) as [Hz | Hnz].
        * rewrite Hz. cbn [Binary64.nearest Z.eqb]. split; [ discriminate | ].
          intros (_ & _ & H). exfalso.
          assert (0 < 2 ^ 1024 - 2 ^ 970) by reflexivity. nia.
        * pose proof (nearest_overflow n d ltac:(lia) Hd) as Hov.
          destruct (Binary64.nearest n d) as [x | ].
          -- split; [ discriminate | ]. intros (_ & _ & H).
             apply Hov in H. discriminate H.
          -- split; [ | reflexivity ]. intros _.
             split; [ discriminate | ]. split; [ exact Hall | ].
             apply Hov. reflexivity.
      + split; [ discriminate | ]. intros (_ & H & _).
        apply within_limit_Forall in H. congruence. }
  split.
  { intros t x. pose proof (total_runs_nonneg t) as Hpos.
    destruct (SalaryRule.runs t) as [ | r rs] eqn:E.
    - rewrite clean_salary_follows_rule. unfold SalaryRule.clean_salary_spec.
      rewrite E. discriminate.
    - rewrite (rule_of_runs t r rs E). unfold mean_of_runs.
      set (n := SalaryRule.total (map fst (r :: rs))) in *.
      set (d := Z.of_nat (length (r :: rs))).
      assert (Hd : 0 < d) by (unfold d; simpl; lia).
      destruct (forallb _ (r :: rs)); [ | discriminate ].
      destruct (Binary64.nearest n d) as [q | ] eqn:Hq; [ | discriminate ].
      intros [= <-]. exists q. split; [ reflexivity | ]. split.
      + destruct (Z.eq_dec n 0) as [Hz | Hnz].
        * rewrite Hz in Hq |- *. cbn [Binary64.nearest Z.eqb] in Hq.
          injection Hq as <-.
          assert (Ez : (inject_Z 0 / inject_Z d == 0)%Q).
          { unfold Qdiv. change (inject_Z 0) with 0%Q. apply Qmult_0_l. }
          rewrite Ez. unfold Qle. cbn. lia.
        * apply nearest_error; [ lia | exact Hd | exact Hq ].
      + intros k Hk Hmean. apply (quotient_eq k n d Hd) in Hmean.
        rewrite Hmean in Hq. rewrite (nearest_exact k d Hd Hk) in Hq.
        congruence. }
  repeat split; vm_compute; reflexivity.
Qed.

(** The rule as the specification words it does not hold for every text:
    a one followed by 400 zeros is a single run of 401 digits, and the
    result is neither its mean nor absent but an OverflowError; 4301
    sevens are a single run, and the result is absent; and the result for
    9007199254740993 is the float next to it. *)
Lemma clean_salary_mean_out_of_reach :
  Cpython.clean_salary (PStr (one_and_zeros 400)) = Raise OverflowError
  /\ SalaryRule.runs (one_and_zeros 400) = [(10 ^ 400, 401)]
  /\ Cpython.clean_salary (PStr (sevens 4301)) = Ok PNone
  /\ map snd (SalaryRule.runs (sevens 4301)) = [4301]
  /\ Cpython.clean_salary (PStr "9007199254740993")
     = Ok (PFloat (FFin (9007199254740992 # 1)))
  /\ SalaryRule.runs "9007199254740993" = [(9007199254740993, 16)].
Proof.
  repeat split; vm_compute; reflexivity.
Qed.

Section SalarySign.
Import Salary SalarySpec.





End SalarySign.



(** ** Pruning *)

(** The fraction of missing cells of a column is strictly above the
    threshold. *)
Definition mostly_missing (n : nat) (s : series) : Prop :=
  (threshold < inject_Z (na_count s) / inject_Z (Z.of_nat n))%Q.

(** The pruning rule as the specification words it, written without the
    definitions of the code: a cell is missing when it is None or NaN; the
    missing cells of a column are counted one by one; the fraction is that
    count over the row count; a column goes when the fraction is strictly
    greater than 0.90. *)
Fixpoint missing_cells (vs : list pyval) : nat :=
  match vs with
  | [] => 0
  | PNone :: vs' => S (missing_cells vs')
  | PFloat FNaN :: vs' => S (missing_cells vs')
  | _ :: vs' => missing_cells vs'
  end.

Definition missing_fraction (n : nat) (s : series) : Q :=
  Z.of_nat (missing_cells (values s)) # Pos.of_nat n.

Definition over_nine_tenths_missing (n : nat) (s : series) : Prop :=
  (9 # 10 < missing_fraction n s)%Q.

Section PruneFacts.

Lemma existsb_eqb_In (c : string) (l : list string) :
  existsb (String.eqb c) l = true <-> In c l.
Proof.
  rewrite existsb_exists. split.
  - intros (x & Hx & E). apply String.eqb_eq in E. subst. exact Hx.
  - intros H. exists c. split; [ exact H | apply String.eqb_refl ].
Qed.

Lemma has_column_In df c : has_column df c = true <-> In c (labels df).
Proof. apply existsb_eqb_In. Qed.

Lemma find_label_In (cols : list (string * series)) c s :
  NoDup (map fst cols) -> In (c, s) cols ->
  List.find (fun x => String.eqb (fst x) c) cols = Some (c, s).
Proof.
  induction cols as [ | [c' s'] cols IH]; intros Hnd Hin; [ destruct Hin | ].
  simpl in *. inversion Hnd as [ | ? ? Hnotin Hnd']; subst.
  destruct Hin as [[= -> ->] | Hin].
  - rewrite String.eqb_refl. reflexivity.
  - destruct (String.eqb_spec c' c) as [-> | _].
    + exfalso. apply Hnotin. apply list_elem_of_In.
      apply (in_map fst) in Hin. exact Hin.
    + apply IH; assumption.
Qed.

Lemma getitem_In df c s :
  NoDup (labels df) -> In (c, s) (columns df) -> getitem df c = Some s.
Proof.
  intros Hnd Hin. unfold getitem.
  rewrite (find_label_In _ c s Hnd Hin). reflexivity.
Qed.

Lemma getitem_Some_In df c s : getitem df c = Some s -> In (c, s) (columns df).
Proof.
  unfold getitem. destruct (List.find _ _) as [[c' s'] | ] eqn:Hf; [ | discriminate ].
  intros [= <-]. apply find_some in Hf as [Hin E].
  apply String.eqb_eq in E. simpl in E. subst. exact Hin.
Qed.

Lemma getitem_None df c : getitem df c = None -> ~ In c (labels df).
Proof.
  unfold getitem, labels.
  destruct (List.find _ _) eqn:Hf; [ discriminate | ]. intros _ Hin.
  apply in_map_iff in Hin as ([c' s'] & E & Hin). simpl in E. subst.
  apply (find_none _ _ Hf) in Hin. simpl in Hin.
  rewrite String.eqb_refl in Hin. discriminate.
Qed.

Lemma above_threshold_spec n s :
  (0 < n)%nat -> above_threshold n s = true <-> mostly_missing n s.
Proof.
  intros Hn. unfold above_threshold, mostly_missing, np_truediv.
  destruct (Z.eqb_spec (Z.of_nat n) 0) as [E | _]; [ lia | ].
  simpl. rewrite negb_true_iff, <- not_true_iff_false, Qle_bool_iff, Qred_correct.
  split; [ apply Qnot_le_lt | apply Qlt_not_le ].
Qed.

Lemma prune_as_drop df : prune df = drop df (to_drop df).
Proof.
  unfold prune. destruct (to_drop df) eqn:E; [ | reflexivity ].
  unfold drop. simpl. destruct df as [n cols]. simpl. f_equal. clear E.
  induction cols as [ | c cols IH]; [ reflexivity | ].
  simpl. f_equal. exact IH.
Qed.

Lemma in_to_drop df c s :
  NoDup (labels df) -> In (c, s) (columns df) ->
  existsb (String.eqb c) (to_drop df) = above_threshold (n_rows df) s.
Proof.
  intros Hnd Hin. apply eq_true_iff_eq.
  rewrite existsb_eqb_In. unfold to_drop. rewrite filter_In.
  rewrite (getitem_In df c s Hnd Hin). split; [ tauto | ].
  intros H. split; [ | exact H ].
  unfold labels. apply (in_map fst) in Hin. exact Hin.
Qed.

Lemma filter_sublist {A} (f : A -> bool) (l : list A) :
  sublist (List.filter f l) l.
Proof.
  induction l as [ | a l IH]; simpl; [ constructor | ].
  destruct (f a); [ apply sublist_skip | apply sublist_cons ]; exact IH.
Qed.

(** The columns that survive pruning. *)
Lemma prune_columns df c s :
  NoDup (labels df) ->
  In (c, s) (columns (prune df)) <->
  In (c, s) (columns df) /\ above_threshold (n_rows df) s = false.
Proof.
  intros Hnd. rewrite prune_as_drop. unfold drop. simpl.
  rewrite filter_In. simpl. split.
  - intros [Hin H]. split; [ exact Hin | ].
    rewrite <- (in_to_drop df c s Hnd Hin). apply negb_true_iff. exact H.
  - intros [Hin H]. split; [ exact Hin | ].
    rewrite (in_to_drop df c s Hnd Hin), H. reflexivity.
Qed.

Lemma prune_n_rows df : n_rows (prune df) = n_rows df.
Proof. rewrite prune_as_drop. reflexivity. Qed.

Lemma prune_sublist df : sublist (columns (prune df)) (columns df).
Proof. rewrite prune_as_drop. apply filter_sublist. Qed.

Lemma missing_cells_count vs :
  missing_cells vs = length (List.filter isna vs).
Proof.
  induction vs as [ | v vs IH]; [ reflexivity | ].
  destruct v as [ | b | z | [ | neg | q] | t]; simpl; rewrite IH; reflexivity.
Qed.

(** The test of line 38 decides the rule of the specification. *)
Lemma above_threshold_fraction n s :
  (0 < n)%nat ->
  above_threshold n s = true <-> over_nine_tenths_missing n s.
Proof.
  intros Hn. unfold above_threshold, np_truediv.
  destruct (Z.eqb_spec (Z.of_nat n) 0) as [E | _]; [ lia | ].
  unfold float_gt. rewrite negb_true_iff, <- not_true_iff_false, Qle_bool_iff.
  rewrite Qred_correct.
  unfold over_nine_tenths_missing, missing_fraction, threshold, na_count.
  rewrite <- missing_cells_count.
  assert (Hq : (inject_Z (Z.of_nat (missing_cells (values s)))
                / inject_Z (Z.of_nat n)
                == Z.of_nat (missing_cells (values s)) # Pos.of_nat n)%Q).
  { rewrite (Qmake_Qdiv _ (Pos.of_nat n)).
    replace (Z.pos (Pos.of_nat n)) with (Z.of_nat n); [ reflexivity | ].
    destruct n as [ | k]; [ lia | ].
    rewrite <- Pos.of_nat_succ. reflexivity. }
  rewrite Hq. split; [ apply Qnot_le_lt | apply Qlt_not_le ].
Qed.

End PruneFacts.

(** C3. On a table with at least one row, pruning removes exactly the
    columns whose fraction of missing cells over the row count is strictly
    greater than 0.90: a column of the input is still there afterwards if
    and only if the count of its cells that are None or NaN, divided by the
    row count, is at most 9/10.  The columns that remain keep their
    relative order, and the rows are untouched. *)
Theorem prune_removes_exactly_mostly_missing (df : dataframe) :
  well_formed df -> (0 < n_rows df)%nat ->
  (forall c s, In (c, s) (columns (prune df)) <->
               In (c, s) (columns df)
               /\ ~ (9 # 10 < missing_fraction (n_rows df) s)%Q)
  /\ (forall c s, In (c, s) (columns df) ->
        (9 # 10 < missing_fraction (n_rows df) s)%Q ->
        ~ In c (labels (prune df)))
  /\ sublist (columns (prune df)) (columns df)
  /\ n_rows (prune df) = n_rows df.
Proof.
  intros [Hnd _] Hn.
  assert (Hiff : forall c s, In (c, s) (columns (prune df)) <->
                   In (c, s) (columns df)
                   /\ ~ (9 # 10 < missing_fraction (n_rows df) s)%Q).
  { intros c s. rewrite (prune_columns df c s Hnd).
    fold (over_nine_tenths_missing (n_rows df) s).
    rewrite <- (above_threshold_fraction _ s Hn), not_true_iff_false.
    reflexivity. }
  split; [ exact Hiff | ].
  split; [ | split; [ apply prune_sublist | apply prune_n_rows ] ].
  intros c s Hin Hover Hlab. unfold labels in Hlab.
  apply in_map_iff in Hlab as ([c' s'] & E & Hin'). simpl in E. subst c'.
  apply Hiff in Hin' as [Hin' Hkeep].
  assert (s' = s).
  { pose proof (getitem_In df c s Hnd Hin) as E1.
    pose proof (getitem_In df c s' Hnd Hin') as E2. congruence. }
  subst s'. apply Hkeep. exact Hover.
Qed.

(** ** The required columns and the salary check *)

(** The column of cleaned salaries that line 48 computes. *)
Definition cleaned_salaries (salary : series) : series :=
  infer_applied (map SalarySpec.clean_salary_spec (values salary)).

(** Line 52 on the frame that already holds the cleaned salaries. *)
Definition continue_with_seniority (df : dataframe) (level : series)
  : result dataframe :=
  level' <~ normalize_seniority level ;;
  Ok (setitem df "seniority_level" level').

Section CleanFacts.

Lemma mapR_total {A B} (f : A -> result B) (g : A -> B) l :
  (forall a, f a = Ok (g a)) -> mapR f l = Ok (map g l).
Proof.
  intros H. induction l as [ | a l IH]; [ reflexivity | ].
  simpl. rewrite H, IH. reflexivity.
Qed.

Lemma apply_clean_salary s :
  apply Salary.clean_salary s = Ok (cleaned_salaries s).
Proof.
  unfold apply, cleaned_salaries.
  rewrite (mapR_total _ _ _ clean_salary_refines). reflexivity.
Qed.

Lemma missing_columns_In df c :
  In c (missing_columns df) <-> In c required_columns /\ ~ In c (labels df).
Proof.
  unfold missing_columns. rewrite filter_In, negb_true_iff.
  rewrite <- not_true_iff_false, has_column_In. reflexivity.
Qed.

Lemma missing_columns_nil df c :
  missing_columns df = [] -> In c required_columns ->
  exists s, getitem df c = Some s.
Proof.
  intros Hm Hc. destruct (getitem df c) as [s | ] eqn:Hg; [ eauto | ].
  exfalso. apply getitem_None in Hg.
  assert (Hin : In c (missing_columns df)) by (apply missing_columns_In; auto).
  rewrite Hm in Hin. destruct Hin.
Qed.

Lemma find_set_column_ne cols c c' s :
  c <> c' ->
  List.find (fun x => String.eqb (fst x) c) (set_column cols c' s)
  = List.find (fun x => String.eqb (fst x) c) cols.
Proof.
  intros Hne. induction cols as [ | [k old] cols IH]; simpl.
  - destruct (String.eqb_spec c' c); [ congruence | reflexivity ].
  - destruct (String.eqb_spec k c') as [-> | Hk]; simpl.
    + destruct (String.eqb_spec c' c); [ congruence | reflexivity ].
    + destruct (String.eqb k c); [ reflexivity | exact IH ].
Qed.

Lemma getitem_setitem_ne df c c' s :
  c <> c' -> getitem (setitem df c' s) c = getitem df c.
Proof.
  intros Hne. unfold getitem, setitem. simpl.
  rewrite find_set_column_ne by exact Hne. reflexivity.
Qed.

(** What [clean] does once the three required columns are there. *)
Lemma clean_with_columns df salary :
  missing_columns df = [] -> getitem df "salary" = Some salary ->
  exists level,
    getitem df "seniority_level" = Some level /\
    clean df =
    if all_na (cleaned_salaries salary)
    then Raise (ValueError all_salaries_empty)
    else continue_with_seniority
           (setitem df "clean_salary" (cleaned_salaries salary)) level.
Proof.
  intros Hm Hs.
  destruct (missing_columns_nil df "seniority_level" Hm) as [level Hl];
    [ simpl; auto | ].
  exists level. split; [ exact Hl | ].
  unfold clean. rewrite Hm, Hs, apply_clean_salary. cbn [bind].
  destruct (all_na (cleaned_salaries salary)); [ reflexivity | ].
  rewrite getitem_setitem_ne by discriminate. rewrite Hl. reflexivity.
Qed.

(** The exceptions of the cleaner. *)
Lemma clean_raises df e :
  clean df = Raise e ->
  (e = KeyError (missing_columns df) /\ missing_columns df <> [])
  \/ (missing_columns df = [] /\
      (e = ValueError all_salaries_empty \/ e = AttributeError)).
Proof.
  destruct (missing_columns df) as [ | m ms] eqn:Hm.
  - intros H. right. split; [ reflexivity | ].
    destruct (missing_columns_nil df "salary" Hm) as [salary Hs];
      [ simpl; auto | ].
    destruct (clean_with_columns df salary Hm Hs) as (level & _ & E).
    rewrite E in H.
    destruct (all_na _); [ injection H as <-; auto | ].
    unfold continue_with_seniority, normalize_seniority, str_map in H.
    destruct (str_accessor_ok level); [ | injection H as <-; auto ].
    cbn [bind] in H.
    destruct (str_accessor_ok _); [ discriminate H | injection H as <-; auto ].
  - intros H. unfold clean in H. rewrite Hm in H. injection H as <-.
    left. split; [ reflexivity | discriminate ].
Qed.

Lemma spec_value_shape v :
  SalarySpec.clean_salary_spec v = PNone
  \/ exists q, SalarySpec.clean_salary_spec v = PFloat (FFin q).
Proof.
  destruct v; simpl; auto.
  destruct (SalarySpec.numbers s); eauto.
Qed.

(** The cleaned column is all missing exactly when every row is absent. *)
Lemma all_na_cleaned s :
  all_na (cleaned_salaries s) = true <->
  Forall (fun v => SalarySpec.clean_salary_spec v = PNone) (values s).
Proof.
  unfold cleaned_salaries. induction (values s) as [ | v vs IH].
  - split; [ constructor | reflexivity ].
  - rewrite Forall_cons_iff, <- IH. clear IH.
    unfold infer_applied, all_na. cbn [map existsb forallb].
    destruct (spec_value_shape v) as [-> | [q ->]].
    + cbn [is_float isna orb andb].
      match goal with
      | |- context [if ?b then Float64 _ else _] => destruct b
      end; cbn [values map forallb to_float isna andb]; tauto.
    + cbn [is_float isna orb andb].
      match goal with
      | |- context [if ?b then Float64 (_ :: _) else _] => destruct b
      end; cbn [values map forallb to_float isna andb];
        (split; [ discriminate | intros [? _]; discriminate ]).
Qed.

End CleanFacts.

(** A small table of postings: one column is empty in every row, the
    salaries are text. *)
Definition postings : dataframe :=
  DataFrame 2 [("salary", Object [PStr "$40,000"; PStr "n/a"]);
               ("notes", Float64 [FNaN; FNaN]);
               ("seniority_level", Object [PStr " Senior "; PStr "junior"]);
               ("location", Object [PStr "Berlin"; PStr "Paris"])].

(** The same with a location that is missing in every row. *)
Definition postings_without_location : dataframe :=
  DataFrame 2 [("salary", Object [PStr "$40,000"; PStr "n/a"]);
               ("seniority_level", Object [PStr " Senior "; PStr "junior"]);
               ("location", Object [PFloat FNaN; PFloat FNaN])].

(** A table with the three required columns and no row. *)
Definition no_postings : dataframe :=
  DataFrame 0 [("salary", Object []);
               ("seniority_level", Object []);
               ("location", Object [])].

Lemma well_formed_postings : well_formed postings.
Proof.
  split.
  - compute_done.
  - repeat constructor.
Defined.

Lemma prune_removes_exactly_mostly_missing_witness :
  (forall c s, In (c, s) (columns (prune postings)) <->
               In (c, s) (columns postings)
               /\ ~ (9 # 10 < missing_fraction (n_rows postings) s)%Q)
  /\ (forall c s, In (c, s) (columns postings) ->
        (9 # 10 < missing_fraction (n_rows postings) s)%Q ->
        ~ In c (labels (prune postings)))
  /\ sublist (columns (prune postings)) (columns postings)
  /\ n_rows (prune postings) = n_rows postings.
Proof.
  apply (prune_removes_exactly_mostly_missing postings).
  - exact well_formed_postings.
  - simpl. lia.
Defined.

(** C6. The required columns are looked for in the pruned table.  The
    cleaner fails with the missing-columns error exactly when one of
    salary, seniority_level, location is not among the pruned columns; the
    error names every such column and no other; and a required column that
    is there but above the threshold is pruned first and then reported. *)
Theorem required_columns_checked_after_pruning (df : dataframe) :
  ((exists m, preprocess_data df = Raise (KeyError m)) <->
   (exists c, In c required_columns /\ ~ In c (labels (prune df))))
  /\ (forall m, preprocess_data df = Raise (KeyError m) ->
      forall c, In c m <-> In c required_columns /\ ~ In c (labels (prune df)))
  /\ (forall c s, well_formed df -> (0 < n_rows df)%nat ->
      In c required_columns -> In (c, s) (columns df) ->
      mostly_missing (n_rows df) s ->
      exists m, preprocess_data df = Raise (KeyError m) /\ In c m).
Proof.
  unfold preprocess_data.
  assert (Hfail : (exists c, In c required_columns /\ ~ In c (labels (prune df))) ->
                  clean (prune df) = Raise (KeyError (missing_columns (prune df)))).
  { intros (c & Hc & Hn). unfold clean.
    destruct (missing_columns (prune df)) eqn:Hm; [ | reflexivity ].
    assert (Hin : In c (missing_columns (prune df)))
      by (apply missing_columns_In; auto).
    rewrite Hm in Hin. destruct Hin. }
  split; [ | split ].
  - split.
    + intros [m H]. apply clean_raises in H as [[_ Hne] | [_ [H | H]]];
        try discriminate H.
      destruct (missing_columns (prune df)) as [ | c cs] eqn:Hm; [ congruence | ].
      exists c. apply missing_columns_In. rewrite Hm. left. reflexivity.
    + intros H. eexists. apply Hfail. exact H.
  - intros m H c. apply clean_raises in H as [[[= ->] _] | [_ [H | H]]];
      try discriminate H.
    apply missing_columns_In.
  - intros c s [Hnd _] Hn Hc Hin Hmm.
    assert (Hgone : ~ In c (labels (prune df))).
    { unfold labels. rewrite in_map_iff. intros ([c' s'] & E & Hin').
      simpl in E. subst c'.
      apply (prune_columns df c s' Hnd) in Hin' as [Hin' Hb].
      assert (s' = s).
      { pose proof (getitem_In df c s Hnd Hin) as E1.
        pose proof (getitem_In df c s' Hnd Hin') as E2. congruence. }
      subst s'. apply (above_threshold_spec _ s Hn) in Hmm. congruence. }
    eexists. split; [ apply Hfail; eauto | ].
    apply missing_columns_In. auto.
Qed.

Lemma required_columns_checked_after_pruning_witness :
  exists m, preprocess_data postings_without_location = Raise (KeyError m)
            /\ In "location" m.
Proof.
  destruct (required_columns_checked_after_pruning postings_without_location)
    as (_ & _ & H).
  apply (H "location" (Object [PFloat FNaN; PFloat FNaN])).
  - split; [ compute_done | repeat constructor ].
  - simpl. lia.
  - simpl. auto.
  - simpl. auto.
  - vm_compute. reflexivity.
Defined.



(** ** The division by the row count *)

Section DivisionFacts.

Lemma to_drop_no_rows df :
  well_formed df -> n_rows df = 0%nat -> to_drop df = [].
Proof.
  intros [Hnd Hlen] Hz. unfold to_drop.
  assert (G : forall c, In c (labels df) ->
              match getitem df c with
              | Some s => above_threshold (n_rows df) s
              | None => false
              end = false).
  { intros c Hc. destruct (getitem df c) as [s | ] eqn:Hg; [ | reflexivity ].
    apply getitem_Some_In in Hg.
    rewrite Forall_forall in Hlen. apply list_elem_of_In in Hg.
    specialize (Hlen _ Hg). simpl in Hlen.
    unfold above_threshold, na_count. rewrite Hz in *.
    apply length_zero_iff_nil in Hlen. rewrite Hlen. reflexivity. }
  revert G. generalize (labels df) as l.
  induction l as [ | c l IH]; intros G; [ reflexivity | ].
  simpl. rewrite G by (left; reflexivity). apply IH.
  intros c' Hc'. apply G. right. exact Hc'.
Qed.

End DivisionFacts.

(** C10, as the code has it.  The division of line 38 is numpy's: on a table
    without rows it yields NaN, which is not above the threshold, so nothing
    is pruned and no division error is raised; the cleaner then stops with
    the missing-columns error or the all-salaries-missing error.  The
    cleaner raises a division error on no table at all, and on a table with
    at least one row every quotient is a finite number. *)
Theorem pruning_never_divides_by_zero (df : dataframe) :
  preprocess_data df <> Raise ZeroDivisionError
  /\ (well_formed df -> n_rows df = 0%nat ->
      prune df = df /\
      ((exists m, preprocess_data df = Raise (KeyError m))
       \/ preprocess_data df = Raise (ValueError all_salaries_empty)))
  /\ ((0 < n_rows df)%nat ->
      forall s, exists q,
        np_truediv (na_count s) (Z.of_nat (n_rows df)) = FFin q).
Proof.
  split; [ | split ].
  - unfold preprocess_data. intros H.
    apply clean_raises in H as [[H _] | [_ [H | H]]]; discriminate H.
  - intros Hwf Hz.
    assert (Hp : prune df = df).
    { unfold prune. rewrite (to_drop_no_rows df Hwf Hz). reflexivity. }
    split; [ exact Hp | ].
    unfold preprocess_data. rewrite Hp.
    destruct (missing_columns df) as [ | c cs] eqn:Hm.
    + right.
      destruct (missing_columns_nil df "salary" Hm) as [salary Hs];
        [ simpl; auto | ].
      destruct (clean_with_columns df salary Hm Hs) as (level & _ & E).
      rewrite E.
      assert (Hv : values salary = []).
      { apply getitem_Some_In in Hs. destruct Hwf as [_ Hlen].
        rewrite Forall_forall in Hlen. apply list_elem_of_In in Hs.
        specialize (Hlen _ Hs). simpl in Hlen. rewrite Hz in Hlen.
        apply length_zero_iff_nil. exact Hlen. }
      unfold cleaned_salaries. rewrite Hv. reflexivity.
    + left. eexists. unfold clean. rewrite Hm. reflexivity.
  - intros Hn s. unfold np_truediv.
    destruct (Z.eqb_spec (Z.of_nat (n_rows df)) 0) as [E | _]; [ lia | ].
    eexists. reflexivity.
Qed.

(** On the table without rows the cleaner stops with the
    all-salaries-missing error, not with a division error. *)
Lemma no_rows_no_division_error :
  (0 < length (columns no_postings))%nat
  /\ n_rows no_postings = 0%nat
  /\ preprocess_data no_postings = Raise (ValueError all_salaries_empty)
  /\ preprocess_data no_postings <> Raise ZeroDivisionError.
Proof.
  repeat split; try (vm_compute; reflexivity).
  - simpl. lia.
  - vm_compute. discriminate.
Qed.

(** ** The schema *)

(** The cells of a column that are not missing. *)
Definition present (s : series) : list pyval :=
  List.filter (fun v => negb (isna v)) (values s).

(** The column type in the words of the specification: integer when every
    present value is an integer, real when every present value is a
    floating-point number, text otherwise. *)
Definition spec_type (s : series) : sqltype :=
  if forallb is_int (present s) then INTEGER
  else if forallb is_float (present s) then REAL
  else TEXT.

(** A column as [pd.read_csv] builds it: numbers and truth values in a
    typed array, everything else as text in an object column whose missing
    cells are NaN. *)
Definition csv_column (s : series) : Prop :=
  match s with
  | Object d => Forall (fun v => is_str v = true \/ v = PFloat FNaN) d
  | Category _ => False
  | Int64 _ | Float64 _ | Bool _ => True
  end.

Definition csv_frame (df : dataframe) : Prop :=
  well_formed df /\ Forall (fun c => csv_column (snd c)) (columns df).

Section SchemaFacts.

Lemma forallb_false_head {A} (f : A -> bool) (l : list A) :
  l <> [] -> Forall (fun a => f a = false) l -> forallb f l = false.
Proof.
  destruct l as [ | a l]; [ congruence | ].
  intros _ H. inversion H; subst. simpl. rewrite H2. reflexivity.
Qed.

Lemma forallb_Forall_true {A} (f : A -> bool) (l : list A) :
  Forall (fun a => f a = true) l -> forallb f l = true.
Proof. induction 1; simpl; [ reflexivity | rewrite H, IHForall; reflexivity ]. Qed.

Lemma Forall_filter {A} (P : A -> Prop) (f : A -> bool) (l : list A) :
  Forall (fun a => f a = true -> P a) l -> Forall P (List.filter f l).
Proof.
  induction 1 as [ | a l Ha _ IH]; simpl; [ constructor | ].
  destruct (f a) eqn:E; [ constructor; auto | exact IH ].
Qed.

Lemma Forall_map_intro {A B} (P : B -> Prop) (g : A -> B) (l : list A) :
  (forall a, P (g a)) -> Forall P (map g l).
Proof. intros H. induction l; simpl; constructor; auto. Qed.

(** The kind of the values of a typed column. *)
Lemma int64_values d : Forall (fun v => is_int v = true) (present (Int64 d)).
Proof.
  apply Forall_filter. apply Forall_map_intro. reflexivity.
Qed.

Lemma float64_values d :
  Forall (fun v => is_float v = true /\ is_int v = false) (present (Float64 d)).
Proof.
  apply Forall_filter. apply Forall_map_intro. intros; split; reflexivity.
Qed.

Lemma bool_values d :
  Forall (fun v => is_float v = false /\ is_int v = false) (present (Bool d)).
Proof.
  apply Forall_filter. apply Forall_map_intro. intros; split; reflexivity.
Qed.

Lemma category_values d :
  Forall (fun v => is_float v = false /\ is_int v = false) (present (Category d)).
Proof.
  apply Forall_filter. unfold values.
  induction d as [ | [t | ] d IH]; simpl; constructor; auto;
    try (intros H; discriminate H).
Qed.

Lemma object_values d :
  csv_column (Object d) ->
  Forall (fun v => is_float v = false /\ is_int v = false) (present (Object d)).
Proof.
  intros H. apply Forall_filter. simpl in *.
  induction H as [ | v l Hv _ IH]; constructor; [ | exact IH ].
  destruct Hv as [Hv | ->]; [ | intros H; discriminate H ].
  destruct v; try discriminate Hv. intros _. split; reflexivity.
Qed.

(** On a column of a CSV frame that has a present value, and on a category
    column that has one, the type chosen from the dtype is the type the
    value kinds give. *)
Lemma col_type_spec_type s :
  (csv_column s \/ exists d, s = Category d) -> present s <> [] ->
  col_type s = spec_type s.
Proof.
  intros Hcsv Hne. unfold spec_type.
  destruct s as [d | d | d | d | d]; cbn [col_type is_integer_dtype is_float_dtype].
  - rewrite (forallb_Forall_true _ _ (int64_values d)). reflexivity.
  - pose proof (float64_values d) as H.
    rewrite (forallb_false_head is_int _ Hne)
      by (eapply Forall_impl; [ exact H | intros ? [_ ?]; assumption ]).
    rewrite forallb_Forall_true
      by (eapply Forall_impl; [ exact H | intros ? [? _]; assumption ]).
    reflexivity.
  - pose proof (bool_values d) as H.
    rewrite (forallb_false_head is_int _ Hne)
      by (eapply Forall_impl; [ exact H | intros ? [_ ?]; assumption ]).
    rewrite (forallb_false_head is_float _ Hne)
      by (eapply Forall_impl; [ exact H | intros ? [? _]; assumption ]).
    reflexivity.
  - assert (Hc : csv_column (Object d))
      by (destruct Hcsv as [ | [? ?]]; [ assumption | discriminate ]).
    pose proof (object_values d Hc) as H.
    rewrite (forallb_false_head is_int _ Hne)
      by (eapply Forall_impl; [ exact H | intros ? [_ ?]; assumption ]).
    rewrite (forallb_false_head is_float _ Hne)
      by (eapply Forall_impl; [ exact H | intros ? [? _]; assumption ]).
    reflexivity.
  - pose proof (category_values d) as H.
    rewrite (forallb_false_head is_int _ Hne)
      by (eapply Forall_impl; [ exact H | intros ? [_ ?]; assumption ]).
    rewrite (forallb_false_head is_float _ Hne)
      by (eapply Forall_impl; [ exact H | intros ? [? _]; assumption ]).
    reflexivity.
Qed.

End SchemaFacts.

Section CleanedFrameFacts.

Lemma present_nonempty s :
  present s <> [] <-> exists v, In v (values s) /\ isna v = false.
Proof.
  unfold present. split.
  - destruct (List.filter _ _) as [ | v l] eqn:E; [ congruence | ]. intros _.
    assert (H : In v (List.filter (fun v => negb (isna v)) (values s)))
      by (rewrite E; left; reflexivity).
    apply filter_In in H as [H1 H2]. exists v. split; [ exact H1 | ].
    apply negb_true_iff. exact H2.
  - intros (v & Hin & Hv) E.
    assert (H : In v (List.filter (fun v => negb (isna v)) (values s)))
      by (apply filter_In; rewrite Hv; auto).
    rewrite E in H. destruct H.
Qed.

Lemma filter_all {A} (f : A -> bool) (l : list A) :
  List.filter (fun a => negb (f a)) l = [] -> List.filter f l = l.
Proof.
  induction l as [ | a l IH]; simpl; [ reflexivity | ].
  destruct (f a); simpl; [ intros H; f_equal; auto | discriminate ].
Qed.

(** A column that pruning keeps has a present value. *)
Lemma kept_column_present n s :
  (0 < n)%nat -> length (values s) = n -> above_threshold n s = false ->
  present s <> [].
Proof.
  intros Hn Hlen Hb Hp.
  assert (Hm : mostly_missing n s).
  { unfold mostly_missing, na_count. rewrite (filter_all isna _ Hp), Hlen.
    assert (E1 : (inject_Z (Z.of_nat n) / inject_Z (Z.of_nat n) == 1)%Q).
    { apply Qmult_inv_r. intros E. unfold Qeq in E. simpl in E. lia. }
    rewrite E1. reflexivity. }
  apply (above_threshold_spec n s Hn) in Hm. congruence.
Qed.

Lemma set_column_Forall (P : series -> Prop) cols c s :
  Forall (fun x => P (snd x)) cols -> P s ->
  Forall (fun x => P (snd x)) (set_column cols c s).
Proof.
  intros H Hs. induction H as [ | [k old] cols Hk Hcols IH]; simpl.
  - constructor; [ exact Hs | constructor ].
  - destruct (String.eqb k c); constructor; auto.
Qed.

Lemma set_column_labels_In cols c s k :
  In k (map fst (set_column cols c s)) <-> k = c \/ In k (map fst cols).
Proof.
  induction cols as [ | [k' old] cols IH]; simpl.
  - intuition congruence.
  - destruct (String.eqb_spec k' c) as [-> | Hne]; simpl.
    + intuition congruence.
    + rewrite IH. intuition congruence.
Qed.

(** What a successful cleaning returns. *)
Lemma preprocess_data_Ok df0 df :
  preprocess_data df0 = Ok df ->
  exists salary level level',
    missing_columns (prune df0) = []
    /\ getitem (prune df0) "salary" = Some salary
    /\ getitem (prune df0) "seniority_level" = Some level
    /\ all_na (cleaned_salaries salary) = false
    /\ normalize_seniority level = Ok level'
    /\ df = setitem (setitem (prune df0) "clean_salary" (cleaned_salaries salary))
                    "seniority_level" level'.
Proof.
  unfold preprocess_data. intros H.
  destruct (missing_columns (prune df0)) as [ | m ms] eqn:Hm;
    [ | unfold clean in H; rewrite Hm in H; discriminate H ].
  destruct (missing_columns_nil _ "salary" Hm) as [salary Hs]; [ simpl; auto | ].
  destruct (clean_with_columns _ salary Hm Hs) as (level & Hl & E).
  rewrite E in H.
  destruct (all_na (cleaned_salaries salary)) eqn:Hna; [ discriminate H | ].
  unfold continue_with_seniority in H.
  destruct (normalize_seniority level) as [level' | ] eqn:Hnorm; [ | discriminate H ].
  cbn [bind] in H. injection H as <-.
  exists salary, level, level'. auto 10.
Qed.

Lemma normalize_seniority_Ok level level' :
  normalize_seniority level = Ok level' ->
  str_accessor_ok level = true
  /\ level' =
     astype_category
       (Object (map (str_method py_lower) (map (str_method py_strip) (values level)))).
Proof.
  unfold normalize_seniority, str_map.
  destruct (str_accessor_ok level); [ | discriminate ]. cbn [bind].
  destruct (str_accessor_ok _); [ | discriminate ]. cbn [bind].
  intros [= <-]. auto.
Qed.

(** The normalised seniority column of a CSV column with a present value
    has a present value. *)
Lemma normalized_present level level' :
  csv_column level -> present level <> [] ->
  normalize_seniority level = Ok level' ->
  (exists d, level' = Category d) /\ present level' <> [].
Proof.
  intros Hcsv Hp Hn. apply normalize_seniority_Ok in Hn as [Hok ->].
  split; [ eexists; reflexivity | ].
  destruct level as [d | d | d | d | d]; try discriminate Hok; [ | destruct Hcsv ].
  apply present_nonempty in Hp as (v & Hin & Hv).
  simpl in Hcsv, Hin. rewrite Forall_forall in Hcsv.
  destruct (Hcsv v) as [Hs | ->]; [ apply list_elem_of_In; exact Hin | | discriminate Hv ].
  destruct v as [ | | | | t]; try discriminate Hs.
  apply present_nonempty. exists (PStr (py_lower (py_strip t))). split; [ | reflexivity ].
  unfold astype_category. cbn [values].
  rewrite !map_map. apply in_map_iff. exists (PStr t). split; [ reflexivity | exact Hin ].
Qed.

(** The cleaned salaries that are not all missing are a float64 column
    with a present value. *)
Lemma cleaned_salaries_present salary :
  all_na (cleaned_salaries salary) = false ->
  csv_column (cleaned_salaries salary) /\ present (cleaned_salaries salary) <> [].
Proof.
  intros Hna. split.
  - unfold cleaned_salaries, infer_applied.
    destruct (existsb is_float _ && forallb _ _) eqn:E; [ exact I | ].
    exfalso. apply andb_false_iff in E.
    assert (Hall : forallb (fun v => is_float v || isna v)
                     (map SalarySpec.clean_salary_spec (values salary)) = true).
    { apply forallb_Forall_true. apply Forall_map_intro. intros v.
      destruct (spec_value_shape v) as [-> | [q ->]]; reflexivity. }
    destruct E as [E | E]; [ | congruence ].
    assert (Hnone : all_na (cleaned_salaries salary) = true); [ | congruence ].
    apply all_na_cleaned. clear Hall Hna.
    induction (values salary) as [ | v vs IH]; [ constructor | ].
    simpl in E. apply orb_false_iff in E as [E1 E2].
    constructor; [ | apply IH; exact E2 ].
    destruct (spec_value_shape v) as [-> | [q H]]; [ reflexivity | ].
    rewrite H in E1. discriminate E1.
  - apply present_nonempty. unfold all_na in Hna.
    apply not_true_iff_false in Hna.
    destruct (existsb (fun v => negb (isna v)) (values (cleaned_salaries salary)))
      eqn:E.
    + apply existsb_exists in E as (v & Hin & Hv).
      exists v. split; [ exact Hin | apply negb_true_iff; exact Hv ].
    + exfalso. apply Hna. apply forallb_forall. intros v Hin.
      destruct (isna v) eqn:Hv; [ reflexivity | ].
      assert (existsb (fun v => negb (isna v)) (values (cleaned_salaries salary)) = true);
        [ | congruence ].
      apply existsb_exists. exists v. rewrite Hv. auto.
Qed.

(** A salary column that is all missing yields cleaned salaries that are
    all missing. *)
Lemma all_na_salary salary :
  all_na salary = true -> all_na (cleaned_salaries salary) = true.
Proof.
  intros H. apply all_na_cleaned. unfold all_na in H.
  rewrite forallb_forall in H. apply Forall_forall. intros v Hv.
  apply list_elem_of_In in Hv. specialize (H v Hv).
  destruct v as [ | | | [ | | ] | ]; try discriminate H; reflexivity.
Qed.

End CleanedFrameFacts.

Section StoredSchemaFacts.

Lemma drop_labels_In df cols c :
  In c (labels (drop df cols)) <-> In c (labels df) /\ ~ In c cols.
Proof.
  unfold labels, drop. simpl. rewrite !in_map_iff. split.
  - intros ([k s] & E & H). simpl in E. subst k.
    apply filter_In in H as [H1 H2]. simpl in H2.
    apply negb_true_iff in H2. split.
    + exists (c, s). auto.
    + intros Hc. apply existsb_eqb_In in Hc. congruence.
  - intros [([k s] & E & H) Hc]. simpl in E. subst k.
    exists (c, s). split; [ reflexivity | ].
    apply filter_In. split; [ exact H | ]. simpl.
    apply negb_true_iff, not_true_iff_false. rewrite existsb_eqb_In. exact Hc.
Qed.

Lemma col_defs_labels df : map fst (col_defs df) = labels df.
Proof. unfold col_defs, labels. rewrite map_map. reflexivity. Qed.

(** The columns of a pruned CSV frame with at least one row are CSV
    columns with a present value. *)
Lemma pruned_columns_present df0 :
  csv_frame df0 -> (0 < n_rows df0)%nat ->
  Forall (fun x => csv_column (snd x) /\ present (snd x) <> [])
         (columns (prune df0)).
Proof.
  intros [[Hnd Hlen] Hcsv] Hn. apply Forall_forall. intros [c s] Hin.
  apply list_elem_of_In in Hin. apply (prune_columns df0 c s Hnd) in Hin as [Hin Hb].
  rewrite Forall_forall in Hlen, Hcsv. apply list_elem_of_In in Hin.
  simpl. split.
  - apply (Hcsv _ Hin).
  - apply (kept_column_present (n_rows df0)); [ exact Hn | apply (Hlen _ Hin) | exact Hb ].
Qed.

(** A frame that cleaning accepts has a row. *)
Lemma preprocess_data_Ok_rows df0 df :
  well_formed df0 -> preprocess_data df0 = Ok df -> (0 < n_rows df0)%nat.
Proof.
  intros Hwf H.
  destruct (Nat.eq_dec (n_rows df0) 0%nat) as [Hz | ]; [ exfalso | lia ].
  assert (Hp : prune df0 = df0).
  { unfold prune. rewrite (to_drop_no_rows df0 Hwf Hz). reflexivity. }
  unfold preprocess_data in H. rewrite Hp in H.
  destruct (missing_columns df0) as [ | c cs] eqn:Hm.
  - destruct (missing_columns_nil df0 "salary" Hm) as [salary Hs];
      [ simpl; auto | ].
    destruct (clean_with_columns df0 salary Hm Hs) as (level & _ & E).
    rewrite E in H.
    assert (Hv : values salary = []).
    { apply getitem_Some_In in Hs. destruct Hwf as [_ Hlen].
      rewrite Forall_forall in Hlen. apply list_elem_of_In in Hs.
      specialize (Hlen _ Hs). simpl in Hlen. rewrite Hz in Hlen.
      apply length_zero_iff_nil. exact Hlen. }
    unfold cleaned_salaries in H. rewrite Hv in H. discriminate H.
  - unfold clean in H. rewrite Hm in H. discriminate H.
Qed.

(** Cleaning leaves a salary column that is not all missing, so line 62
    drops nothing from a cleaned frame. *)
Lemma drop_empty_salary_cleaned df0 df :
  preprocess_data df0 = Ok df -> drop_empty_salary df = df.
Proof.
  intros H. apply preprocess_data_Ok in H
    as (salary & level & level' & _ & Hs & _ & Hna & _ & ->).
  unfold drop_empty_salary.
  rewrite !getitem_setitem_ne by discriminate. rewrite Hs.
  destruct (all_na salary) eqn:E.
  - apply all_na_salary in E. congruence.
  - rewrite andb_false_r. reflexivity.
Qed.

Lemma cleaned_columns_typed df0 df :
  csv_frame df0 -> preprocess_data df0 = Ok df ->
  Forall (fun x => col_type (snd x) = spec_type (snd x)) (columns df).
Proof.
  intros Hcsv H.
  pose proof (preprocess_data_Ok_rows df0 df (proj1 Hcsv) H) as Hn.
  pose proof (pruned_columns_present df0 Hcsv Hn) as Hp.
  apply preprocess_data_Ok in H
    as (salary & level & level' & _ & Hs & Hl & Hna & Hnorm & ->).
  apply (Forall_impl
           (fun x => (csv_column (snd x) \/ exists d, snd x = Category d)
                     /\ present (snd x) <> []));
    [ | intros x [Hx1 Hx2]; apply col_type_spec_type; assumption ].
  cbn [columns setitem].
  apply (set_column_Forall
           (fun s => (csv_column s \/ exists d, s = Category d) /\ present s <> [])).
  - apply (set_column_Forall
             (fun s => (csv_column s \/ exists d, s = Category d) /\ present s <> [])).
    + eapply Forall_impl; [ exact Hp | ]. intros x [? ?]. auto.
    + destruct (cleaned_salaries_present salary Hna). auto.
  - apply getitem_Some_In in Hl. rewrite Forall_forall in Hp.
    apply list_elem_of_In in Hl. destruct (Hp _ Hl) as [Hc Hne].
    destruct (normalized_present level level' Hc Hne Hnorm). auto.
Qed.

End StoredSchemaFacts.

(** What cleaning makes of [postings]. *)
Definition cleaned_postings : dataframe :=
  DataFrame 2 [("salary", Object [PStr "$40,000"; PStr "n/a"]);
               ("seniority_level", Category [Some "senior"; Some "junior"]);
               ("location", Object [PStr "Berlin"; PStr "Paris"]);
               ("clean_salary", Float64 [FFin (40000 # 1); FNaN])].

Lemma csv_frame_postings : csv_frame postings.
Proof.
  split; [ exact well_formed_postings | ].
  repeat constructor; simpl; auto.
Defined.

(** C4. In the table stored for a cleaned CSV frame, a column is INTEGER
    when every present value is an integer, REAL when every present value
    is a floating-point number, TEXT otherwise.  For any frame handed to
    [create_database], a salary column that is missing in every row is left
    out of the schema, every other column is kept, and clean_salary in
    particular. *)
Theorem schema_follows_value_kinds (df0 df : dataframe) :
  csv_frame df0 -> preprocess_data df0 = Ok df ->
  col_defs (drop_empty_salary df)
  = map (fun c => (fst c, spec_type (snd c))) (columns df)
  /\ (forall (N : NumberText) db_name w conn w',
        create_database db_name df w = Ok (conn, w') ->
        exists inserted,
          databases w' !! db_name ≫= (fun db => db !! "jobs")
          = Some (Table (map (fun c => (fst c, spec_type (snd c))) (columns df))
                        inserted))
  /\ (forall df' : dataframe,
        (forall s, getitem df' "salary" = Some s -> all_na s = true ->
                   ~ In "salary" (map fst (col_defs (drop_empty_salary df'))))
        /\ (forall c, c <> "salary" ->
                      (In c (map fst (col_defs (drop_empty_salary df')))
                       <-> In c (labels df')))
        /\ (In "clean_salary" (labels df') ->
            In "clean_salary" (map fst (col_defs (drop_empty_salary df'))))).
Proof.
  intros Hcsv H.
  assert (Hdefs : col_defs (drop_empty_salary df)
                  = map (fun c => (fst c, spec_type (snd c))) (columns df)).
  { rewrite (drop_empty_salary_cleaned df0 df H). unfold col_defs.
    pose proof (cleaned_columns_typed df0 df Hcsv H) as Hty.
    induction Hty as [ | x l Hx _ IH]; [ reflexivity | ].
    simpl. rewrite Hx, IH. reflexivity. }
  assert (Hkept : forall df' c, c <> "salary" ->
                    (In c (map fst (col_defs (drop_empty_salary df')))
                     <-> In c (labels df'))).
  { intros df' c Hc. rewrite col_defs_labels. unfold drop_empty_salary.
    destruct (has_column df' "salary" && _); [ | reflexivity ].
    rewrite drop_labels_In. simpl. intuition congruence. }
  split; [ exact Hdefs | split ].
  - intros N db_name w conn w' Hc. unfold create_database in Hc.
    rewrite Hdefs in Hc.
    destruct (map _ (columns df)) as [ | d ds] eqn:Hmap; [ discriminate Hc | ].
    destruct (insert_rows (drop_empty_salary df)) as [inserted | ];
      [ | discriminate Hc ].
    cbn [bind] in Hc. injection Hc as <- <-. exists inserted.
    cbn [databases]. rewrite lookup_insert_eq. cbn [mbind option_bind].
    rewrite lookup_insert_eq. reflexivity.
  - intros df'. split; [ | split ].
    + intros s Hs Hna. rewrite col_defs_labels. unfold drop_empty_salary.
      rewrite Hs, Hna.
      assert (Hhas : has_column df' "salary" = true).
      { apply has_column_In. apply getitem_Some_In in Hs.
        apply (in_map fst) in Hs. exact Hs. }
      rewrite Hhas. cbn [andb]. rewrite drop_labels_In. simpl. tauto.
    + apply Hkept.
    + intros Hin. apply Hkept; [ discriminate | exact Hin ].
Qed.

Lemma schema_follows_value_kinds_witness :
  col_defs (drop_empty_salary cleaned_postings)
  = map (fun c => (fst c, spec_type (snd c))) (columns cleaned_postings)
  /\ (forall (N : NumberText) db_name w conn w',
        create_database db_name cleaned_postings w = Ok (conn, w') ->
        exists inserted,
          databases w' !! db_name ≫= (fun db => db !! "jobs")
          = Some (Table (map (fun c => (fst c, spec_type (snd c)))
                             (columns cleaned_postings))
                        inserted))
  /\ (forall df' : dataframe,
        (forall s, getitem df' "salary" = Some s -> all_na s = true ->
                   ~ In "salary" (map fst (col_defs (drop_empty_salary df'))))
        /\ (forall c, c <> "salary" ->
                      (In c (map fst (col_defs (drop_empty_salary df')))
                       <-> In c (labels df')))
        /\ (In "clean_salary" (labels df') ->
            In "clean_salary" (map fst (col_defs (drop_empty_salary df'))))).
Proof.
  apply (schema_follows_value_kinds postings cleaned_postings).
  - exact csv_frame_postings.
  - vm_compute. reflexivity.
Defined.

(** ** One run after another *)

(** An implementation of [NumberText] for the examples: a whole finite value
    is printed as Python and SQLite print it, digits then [.0]; for any other
    finite value the exact fraction stands in for its decimal expansion.  No
    text is read back as a REAL. *)
Definition fraction_text (x : float) : string :=
  match x with
  | FNaN => "nan"
  | FInf negative => if negative then "-inf" else "inf"
  | FFin q =>
      if (Qden q =? 1)%positive then int_text (Qnum q) +:+ ".0"
      else int_text (Qnum q) +:+ "/" +:+ int_text (Z.pos (Qden q))
  end.

Definition fraction_number_text : NumberText :=
  {| float_str := fraction_text;
     real_text := fraction_text;
     text_real := fun _ => None |}.

(** A file system that holds [postings] as [jobs.csv] and nothing else. *)
Definition fresh_world : world :=
  {| csv_files := {[ "jobs.csv" := postings ]};
     databases := ∅;
     text_files := ∅ |}.

(** The table and the report of a run on [fresh_world]. *)
Definition postings_jobs : table :=
  Table [("salary", TEXT); ("seniority_level", TEXT); ("location", TEXT);
         ("clean_salary", REAL)]
        [[SText "$40,000"; SText "senior"; SText "Berlin"; SReal (FFin (40000 # 1))];
         [SText "n/a"; SText "junior"; SText "Paris"; SNull]].

Definition postings_report : list chunk :=
  [Text header1;
   Tuple [PStr "Berlin"; PStr "senior"; PFloat (FFin (40000 # 1))];
   Tuple [PStr "Paris"; PStr "junior"; PNone];
   Text header2;
   Tuple [PStr "junior"; PNone];
   Tuple [PStr "senior"; PFloat (FFin (40000 # 1))];
   Text header3;
   Tuple [PStr "Berlin"; PInt 1];
   Tuple [PStr "Paris"; PInt 1]].

Definition world_after_run : world :=
  {| csv_files := {[ "jobs.csv" := postings ]};
     databases := {[ "jobs.db" := {[ "jobs" := postings_jobs ]} ]};
     text_files := {[ "job_output.txt" := postings_report ]} |}.

Section RunFacts.
Context {N : NumberText}.

Lemma bind_Ok {A B} (r : result A) (k : A -> result B) b :
  bind r k = Ok b -> exists a, r = Ok a /\ k a = Ok b.
Proof. destruct r as [a | e]; simpl; [ eauto | discriminate ]. Qed.

Lemma insert_rows_length df inserted :
  insert_rows df = Ok inserted -> length inserted = n_rows df.
Proof.
  unfold insert_rows. destruct (_ && _); [ discriminate | ].
  intros H. apply bind_Ok in H as (cells & _ & [= <-]).
  rewrite length_map, length_seq. reflexivity.
Qed.

(** The world that [create_database] leaves: the database [db_name] holds
    the new jobs table next to whatever other tables it held. *)
Definition with_jobs (db_name : string) (jobs : table) (w : world) : world :=
  {| csv_files := csv_files w;
     databases :=
       <[db_name := <["jobs" := jobs]> (default ∅ (databases w !! db_name))]>
         (databases w);
     text_files := text_files w |}.

Lemma create_database_Ok db_name df w conn w' :
  create_database db_name df w = Ok (conn, w') ->
  exists inserted,
    insert_rows (drop_empty_salary df) = Ok inserted
    /\ conn = db_name
    /\ w' = with_jobs db_name (Table (col_defs (drop_empty_salary df)) inserted) w.
Proof.
  unfold create_database.
  destruct (col_defs (drop_empty_salary df)) as [ | d ds] eqn:Hd; [ discriminate | ].
  intros H. apply bind_Ok in H as (inserted & Hi & [= <- <-]).
  exists inserted. split; [ exact Hi | ]. split; [ reflexivity | ].
  unfold with_jobs. f_equal. f_equal.
  apply map_eq. intros k. destruct (decide (k = "jobs")) as [-> | Hk].
  - rewrite !lookup_insert_eq. reflexivity.
  - rewrite !lookup_insert_ne by congruence. rewrite lookup_delete_ne by congruence.
    reflexivity.
Qed.

Lemma create_database_with_jobs db_name df w inserted :
  insert_rows (drop_empty_salary df) = Ok inserted ->
  col_defs (drop_empty_salary df) <> [] ->
  create_database db_name df w
  = Ok (db_name,
        with_jobs db_name (Table (col_defs (drop_empty_salary df)) inserted) w).
Proof.
  intros Hi Hd.
  destruct (create_database db_name df w) as [[conn w'] | e] eqn:E.
  - apply create_database_Ok in E as (inserted' & Hi' & -> & ->).
    congruence.
  - exfalso. unfold create_database in E.
    destruct (col_defs (drop_empty_salary df)); [ congruence | ].
    rewrite Hi in E. discriminate E.
Qed.

Lemma jobs_of_with_jobs db_name jobs w :
  default ∅ (databases (with_jobs db_name jobs w) !! db_name) !! "jobs" = Some jobs.
Proof.
  unfold with_jobs. cbn [databases]. rewrite lookup_insert_eq. cbn [default].
  apply lookup_insert_eq.
Qed.

(** Creating the same table again changes nothing. *)
Lemma with_jobs_twice db_name jobs w content out_file :
  with_jobs db_name jobs
    {| csv_files := csv_files w;
       databases := databases (with_jobs db_name jobs w);
       text_files := <[out_file := content]> (text_files w) |}
  = {| csv_files := csv_files w;
       databases := databases (with_jobs db_name jobs w);
       text_files := <[out_file := content]> (text_files w) |}.
Proof.
  unfold with_jobs. cbn [csv_files databases text_files]. f_equal.
  rewrite lookup_insert_eq. cbn [default].
  rewrite insert_insert_eq. f_equal. apply insert_insert_eq.
Qed.

End RunFacts.

Section RunTwice.
Context {N : NumberText}.

(** The world a run leaves behind. *)
Definition after_run (db_name out_file : string) (jobs : table)
           (content : list chunk) (w : world) : world :=
  {| csv_files := csv_files w;
     databases := databases (with_jobs db_name jobs w);
     text_files := <[out_file := content]> (text_files w) |}.

(** A run succeeds exactly when its four steps do, and then leaves the new
    table and the new report. *)
Lemma run_Ok path db_name out_file w w1 :
  run path db_name out_file w = Ok w1 <->
  exists df0 df inserted content,
    load_data path w = Ok df0
    /\ preprocess_data df0 = Ok df
    /\ insert_rows (drop_empty_salary df) = Ok inserted
    /\ col_defs (drop_empty_salary df) <> []
    /\ report (Table (col_defs (drop_empty_salary df)) inserted) = Ok content
    /\ w1 = after_run db_name out_file
              (Table (col_defs (drop_empty_salary df)) inserted) content w.
Proof.
  unfold run. split.
  - intros H.
    apply bind_Ok in H as (df0 & Hload & H).
    apply bind_Ok in H as (df & Hpre & H).
    apply bind_Ok in H as ([conn w2] & Hcreate & H).
    pose proof Hcreate as Hc.
    apply create_database_Ok in Hc as (inserted & Hi & -> & ->).
    assert (Hd : col_defs (drop_empty_salary df) <> []).
    { intros E. unfold create_database in Hcreate. rewrite E in Hcreate.
      discriminate Hcreate. }
    cbn [fst snd] in H. unfold run_sql_queries in H.
    rewrite jobs_of_with_jobs in H.
    apply bind_Ok in H as (content & Hrep & [= <-]).
    exists df0, df, inserted, content. auto 10.
  - intros (df0 & df & inserted & content & Hload & Hpre & Hi & Hd & Hrep & ->).
    rewrite Hload. cbn [bind]. rewrite Hpre. cbn [bind].
    rewrite (create_database_with_jobs db_name df w inserted Hi Hd). cbn [bind fst snd].
    unfold run_sql_queries. rewrite jobs_of_with_jobs, Hrep. reflexivity.
Qed.

Lemma load_data_same_file path w w' :
  csv_files w' !! path = csv_files w !! path ->
  load_data path w' = load_data path w.
Proof. unfold load_data. intros ->. reflexivity. Qed.

Lemma after_run_twice db_name out_file jobs content w :
  after_run db_name out_file jobs content (after_run db_name out_file jobs content w)
  = after_run db_name out_file jobs content w.
Proof.
  unfold after_run at 1. cbn [csv_files text_files after_run].
  unfold after_run. f_equal.
  - pose proof (with_jobs_twice db_name jobs w content out_file) as E.
    apply (f_equal databases) in E. exact E.
  - apply insert_insert_eq.
Qed.

End RunTwice.

(** C8. A second run on the same input leaves the world exactly as the first
    run left it: the same report file and the same jobs table.  The table
    has the rows and the columns of the cleaned frame, and neither it nor
    the report depends on what the database and the report file held
    before: the table is created anew and the file is overwritten. *)
Theorem run_twice_same_report_and_table
        (N : NumberText) (path db_name out_file : string) (w w1 : world) :
  run path db_name out_file w = Ok w1 ->
  run path db_name out_file w1 = Ok w1
  /\ (exists df0 df jobs content,
        load_data path w = Ok df0
        /\ preprocess_data df0 = Ok df
        /\ default ∅ (databases w1 !! db_name) !! "jobs" = Some jobs
        /\ length (rows jobs) = n_rows df
        /\ length (schema jobs) = length (columns df)
        /\ report jobs = Ok content
        /\ text_files w1 !! out_file = Some content)
  /\ (forall w', csv_files w' !! path = csv_files w !! path ->
        exists w1',
          run path db_name out_file w' = Ok w1'
          /\ text_files w1' !! out_file = text_files w1 !! out_file
          /\ default ∅ (databases w1' !! db_name) !! "jobs"
             = default ∅ (databases w1 !! db_name) !! "jobs").
Proof.
  intros H.
  apply run_Ok in H
    as (df0 & df & inserted & content & Hload & Hpre & Hi & Hd & Hrep & ->).
  split; [ | split ].
  - rewrite <- (after_run_twice db_name out_file _ content w) at 2.
    apply run_Ok. exists df0, df, inserted, content.
    repeat split; assumption.
  - exists df0, df, (Table (col_defs (drop_empty_salary df)) inserted), content.
    repeat split; try assumption.
    + apply jobs_of_with_jobs.
    + cbn [rows]. rewrite (insert_rows_length _ _ Hi).
      rewrite (drop_empty_salary_cleaned df0 df Hpre). reflexivity.
    + cbn [schema]. rewrite (drop_empty_salary_cleaned df0 df Hpre).
      unfold col_defs. apply length_map.
    + cbn [text_files after_run]. apply lookup_insert_eq.
  - intros w' Hsame. eexists. split.
    + apply run_Ok. exists df0, df, inserted, content.
      repeat split; try eassumption.
      rewrite (load_data_same_file path w w' Hsame). exact Hload.
    + split.
      * cbn [text_files after_run]. rewrite !lookup_insert_eq. reflexivity.
      * unfold after_run. cbn [databases]. rewrite !jobs_of_with_jobs. reflexivity.
Qed.

Lemma run_twice_same_report_and_table_witness :
  run (N := fraction_number_text) "jobs.csv" "jobs.db" "job_output.txt" world_after_run
  = Ok world_after_run
  /\ (exists df0 df jobs content,
        load_data "jobs.csv" fresh_world = Ok df0
        /\ preprocess_data df0 = Ok df
        /\ default ∅ (databases world_after_run !! "jobs.db") !! "jobs" = Some jobs
        /\ length (rows jobs) = n_rows df
        /\ length (schema jobs) = length (columns df)
        /\ report (N := fraction_number_text) jobs = Ok content
        /\ text_files world_after_run !! "job_output.txt" = Some content)
  /\ (forall w', csv_files w' !! "jobs.csv" = csv_files fresh_world !! "jobs.csv" ->
        exists w1',
          run (N := fraction_number_text) "jobs.csv" "jobs.db" "job_output.txt" w' = Ok w1'
          /\ text_files w1' !! "job_output.txt"
             = text_files world_after_run !! "job_output.txt"
          /\ default ∅ (databases w1' !! "jobs.db") !! "jobs"
             = default ∅ (databases world_after_run !! "jobs.db") !! "jobs").
Proof.
  apply (run_twice_same_report_and_table
           fraction_number_text "jobs.csv" "jobs.db" "job_output.txt"
           fresh_world world_after_run).
  vm_compute. reflexivity.
Defined.

(** ** The report *)

(** Six locations; the last one in key order has the most postings and the
    highest salary. *)
Definition six_locations : table :=
  Table [("location", TEXT); ("seniority_level", TEXT); ("clean_salary", REAL)]
        [[SText "a"; SText "junior"; SReal (FFin (10000 # 1))];
         [SText "b"; SText "junior"; SReal (FFin (20000 # 1))];
         [SText "c"; SText "junior"; SReal (FFin (30000 # 1))];
         [SText "d"; SText "junior"; SReal (FFin (40000 # 1))];
         [SText "e"; SText "junior"; SReal (FFin (50000 # 1))];
         [SText "f"; SText "junior"; SReal (FFin (60000 # 1))];
         [SText "f"; SText "junior"; SReal (FFin (61000 # 1))];
         [SText "f"; SText "junior"; SReal (FFin (62000 # 1))]].

(** C2, on [six_locations].  The first and the third block of the report are
    the first five groups in key order: the group of location f, which has
    the highest maximum salary and the highest count, is in neither.  The
    same queries with the ORDER BY ... DESC that the chart functions use
    put it first. *)
Theorem report_blocks_take_first_five_groups (N : NumberText) :
  block1 six_locations
  = Ok [[SText "a"; SText "junior"; SReal (FFin (10000 # 1))];
        [SText "b"; SText "junior"; SReal (FFin (20000 # 1))];
        [SText "c"; SText "junior"; SReal (FFin (30000 # 1))];
        [SText "d"; SText "junior"; SReal (FFin (40000 # 1))];
        [SText "e"; SText "junior"; SReal (FFin (50000 # 1))]]
  /\ block3 six_locations
     = Ok [[SText "a"; SInt 1]; [SText "b"; SInt 1]; [SText "c"; SInt 1];
           [SText "d"; SInt 1]; [SText "e"; SInt 1]]
  /\ select_grouped_desc six_locations ["location"; "seniority_level"]
                         (Max "clean_salary") (Some 5%nat)
     = Ok [[SText "f"; SText "junior"; SReal (FFin (62000 # 1))];
           [SText "e"; SText "junior"; SReal (FFin (50000 # 1))];
           [SText "d"; SText "junior"; SReal (FFin (40000 # 1))];
           [SText "c"; SText "junior"; SReal (FFin (30000 # 1))];
           [SText "b"; SText "junior"; SReal (FFin (20000 # 1))]]
  /\ select_grouped_desc six_locations ["location"] CountStar (Some 5%nat)
     = Ok [[SText "f"; SInt 3]; [SText "a"; SInt 1]; [SText "b"; SInt 1];
           [SText "c"; SInt 1]; [SText "d"; SInt 1]].
Proof.
  repeat split; vm_compute; reflexivity.
Qed.

(** ** The splitter *)

Definition no_quote (t : string) : Prop :=
  ~ In quote (list_ascii_of_string t).

(** The cells the spliced statement handles: text without a quote in a TEXT
    column, integers in an INTEGER column. *)
Definition splittable (ty : sqltype) (c : sqlval) : Prop :=
  match ty, c with
  | TEXT, SText t => no_quote t
  | INTEGER, SInt _ => True
  | _, _ => False
  end.

(** Equality of two cells that are text or integers. *)
Definition cell_eqb (a b : sqlval) : bool :=
  match a, b with
  | SText s, SText t => String.eqb s t
  | SInt x, SInt y => Z.eqb x y
  | _, _ => false
  end.

Section CellFacts.

Lemma ascii_compare_refl c : Ascii.compare c c = Eq.
Proof. unfold Ascii.compare. apply N.compare_refl. Qed.

Lemma string_compare_refl s : String.compare s s = Eq.
Proof.
  induction s as [ | c s IH]; simpl; [ reflexivity | ].
  rewrite ascii_compare_refl. exact IH.
Qed.

Local Arguments Qcompare : simpl never.
Local Arguments String.compare : simpl never.

Lemma string_compare_Eq s t : String.compare s t = Eq <-> s = t.
Proof.
  split; [ apply String.compare_eq_iff | intros ->; apply string_compare_refl ].
Qed.

Lemma Qcompare_same q : (q ?= q)%Q = Eq.
Proof. apply Qeq_alt. reflexivity. Qed.

Lemma int_compare_Eq x y :
  float_compare (FFin (inject_Z x)) (FFin (inject_Z y)) = Eq <-> x = y.
Proof. cbn [float_compare]. rewrite <- Qeq_alt. apply inject_Z_injective. Qed.

Lemma cell_eqb_eq ty a b :
  splittable ty a -> splittable ty b -> cell_eqb a b = true <-> a = b.
Proof.
  destruct ty, a, b; simpl; try tauto; intros _ _.
  - rewrite Z.eqb_eq. split; congruence.
  - rewrite String.eqb_eq. split; congruence.
Qed.

Lemma sql_compare_cell_eqb ty a b :
  splittable ty a -> splittable ty b ->
  match sql_compare a b with Eq => true | _ => false end = cell_eqb a b.
Proof.
  destruct ty, a, b; simpl; try tauto; intros _ _.
  - destruct (Z.eqb_spec z z0) as [-> | Hne].
    + rewrite Qcompare_same. reflexivity.
    + destruct (inject_Z z ?= inject_Z z0)%Q eqn:E; try reflexivity.
      apply (proj2 (Qeq_alt _ _)) in E.
      apply (proj1 (inject_Z_injective _ _)) in E. congruence.
  - destruct (String.eqb_spec s s0) as [-> | Hne].
    + rewrite string_compare_refl. reflexivity.
    + destruct (String.compare s s0) eqn:E; try reflexivity.
      apply String.compare_eq_iff in E. congruence.
Qed.

Lemma py_eqb_cell_eqb ty a b :
  splittable ty a -> splittable ty b ->
  py_eqb (py_of_cell a) (py_of_cell b) = cell_eqb a b.
Proof.
  destruct ty, a, b; simpl; try tauto; intros _ _.
  destruct (Z.eqb_spec z z0) as [-> | Hne].
  - rewrite Qcompare_same. reflexivity.
  - destruct (inject_Z z ?= inject_Z z0)%Q eqn:E; try reflexivity.
    apply (proj2 (Qeq_alt _ _)) in E.
      apply (proj1 (inject_Z_injective _ _)) in E. congruence.
Qed.

(** The decimal text of an integer holds no quote and reads back as the
    integer. *)
Lemma uint_text_no_quote d :
  ~ In quote (list_ascii_of_string (NilEmpty.string_of_uint d)).
Proof.
  induction d; simpl; [ tauto | .. ]; intros [H | H]; try discriminate H; auto.
Qed.

Lemma int_text_no_quote z : no_quote (int_text z).
Proof.
  unfold no_quote, int_text, NilZero.string_of_int, NilZero.string_of_uint.
  destruct (Z.to_int z) as [d | d]; simpl.
  - destruct d; try apply uint_text_no_quote.
    simpl. intros [H | []]. discriminate H.
  - intros [H | H]; [ discriminate H | ].
    destruct d; try (apply uint_text_no_quote in H; exact H).
    simpl in H. destruct H as [H | []]. discriminate H.
Qed.

Lemma text_int_int_text z : text_int (int_text z) = Some z.
Proof.
  unfold text_int, int_text. rewrite NilZero.isi.
  - simpl. rewrite DecimalZ.of_to. reflexivity.
  - destruct z; simpl; try discriminate.
    intros [= H]. apply (DecimalPos.Unsigned.to_uint_nonnil p H).
  - destruct z; simpl; try discriminate.
    intros [= H]. apply (DecimalPos.Unsigned.to_uint_nonnil p H).
Qed.

(** A text without a quote is spliced as the literal it is. *)
Lemma lex_string_no_quote s :
  ~ In quote s -> lex_string (s ++ [quote]) = Some (s, []).
Proof.
  induction s as [ | c s IH]; intros Hq; [ reflexivity | ].
  simpl. destruct (Ascii.eqb_spec c quote) as [-> | _].
  - exfalso. apply Hq. left. reflexivity.
  - rewrite IH by (intros H; apply Hq; right; exact H). reflexivity.
Qed.

End CellFacts.

(** * Further properties of the code *)

(** ** clean_salary: what the text around and inside a number does *)

Section SalaryText.
Import Salary SalarySpec.




End SalaryText.

(** Code points none of which is a decimal digit. *)
Definition no_decimal (s : list N) : Prop :=
  forallb (fun c => negb (Cpython.is_digit c)) s = true.

Section SalaryRuns.
Import Cpython SalaryRule.

Lemma not_digit_decimal c : is_digit c = false -> decimal c = None.
Proof. unfold is_digit. destruct (decimal c); [ discriminate | reflexivity ]. Qed.

(** Characters that are not digits close the run that is open and open
    none. *)
Lemma runs_from_no_decimal q :
  no_decimal q ->
  forall cur, runs_from cur q = match cur with Some r => [r] | None => [] end.
Proof.
unfold no_decimal. induction q as [ | c q IH]; intros H cur; [ reflexivity | ].
cbn [forallb] in H. apply andb_true_iff in H as [Hc Hq].
apply negb_true_iff in Hc. cbn [runs_from].
rewrite (not_digit_decimal c Hc).
destruct (c =? 44)%N; [ apply IH; exact Hq | ].
destruct cur; rewrite (IH Hq); reflexivity.
Qed.

Lemma runs_from_suffix s q :
  no_decimal q -> forall cur, runs_from cur (s ++ q) = runs_from cur s.
Proof.
intros Hq. induction s as [ | c s IH]; intros cur.
- cbn [app runs_from]. rewrite (runs_from_no_decimal q Hq). reflexivity.
- cbn [app runs_from]. destruct (decimal c); [ apply IH | ].
  destruct (c =? 44)%N; [ apply IH | ]. destruct cur; rewrite IH; reflexivity.
Qed.

Lemma runs_from_prefix p s :
  no_decimal p -> runs_from None (p ++ s) = runs_from None s.
Proof.
unfold no_decimal. induction p as [ | c p IH]; intros H; [ reflexivity | ].
cbn [forallb] in H. apply andb_true_iff in H as [Hc Hp].
apply negb_true_iff in Hc. cbn [app runs_from].
rewrite (not_digit_decimal c Hc). destruct (c =? 44)%N; apply IH; exact Hp.
Qed.

(** Two texts with the same runs are cleaned to the same value. *)
Lemma clean_salary_same_runs t t' :
  runs t = runs t' ->
  Cpython.clean_salary (PStr t) = Cpython.clean_salary (PStr t').
Proof.
intros H. rewrite !clean_salary_follows_rule. unfold clean_salary_spec.
rewrite H. reflexivity.
Qed.

End SalaryRuns.

(** X1. Characters without a decimal digit before and after a salary text,
    such as a currency sign or a unit, do not change the cleaned salary:
    when the code points of [s] are those of [t] with such characters put
    in front and behind, [s] and [t] are cleaned to the same result. *)
Theorem clean_salary_ignores_surrounding_text (s t : string) (p q : list N) :
  Cpython.codepoints s = p ++ Cpython.codepoints t ++ q ->
  no_decimal p ->
  no_decimal q ->
  Cpython.clean_salary (PStr s) = Cpython.clean_salary (PStr t).
Proof.
intros Hs Hp Hq. apply clean_salary_same_runs. unfold SalaryRule.runs.
rewrite Hs, (runs_from_prefix _ _ Hp). apply (runs_from_suffix _ _ Hq).
Qed.

Lemma clean_salary_ignores_surrounding_text_witness :
  Cpython.clean_salary (PStr "€ 40,000 в год")
  = Cpython.clean_salary (PStr "40,000").
Proof.
apply (clean_salary_ignores_surrounding_text
         "€ 40,000 в год" "40,000" [8364; 32]%N (Cpython.codepoints " в год"));
  vm_compute; reflexivity.
Defined.



(** The value of a run of ASCII digits. *)
Definition digits_value (s : list ascii) (a : Z) : Z :=
  fold_left (fun acc c => 10 * acc + Salary.digit_value c) s a.

Section SalaryValues.
Import Cpython SalaryRule.

Lemma extremes (l : list Z) :
  l <> [] ->
  exists lo hi, In lo l /\ In hi l /\ forall n, In n l -> lo <= n <= hi.
Proof.
induction l as [ | a l IH]; [ congruence | ]. intros _.
destruct l as [ | b l].
- exists a, a. split; [ left; reflexivity | ]. split; [ left; reflexivity | ].
  intros n [<- | []]. lia.
- destruct IH as (lo & hi & Hlo & Hhi & Hb); [ discriminate | ].
  exists (Z.min a lo), (Z.max a hi). split; [ | split ].
  + destruct (Z.min_spec a lo) as [[_ ->] | [_ ->]]; [ left | right ]; auto.
  + destruct (Z.max_spec a hi) as [[_ ->] | [_ ->]]; [ right | left ]; auto.
  + intros n [<- | H]; [ lia | specialize (Hb n H); lia ].
Qed.

Lemma total_bounds (l : list Z) (lo hi : Z) :
  (forall n, In n l -> lo <= n <= hi) ->
  lo * Z.of_nat (length l) <= total l <= hi * Z.of_nat (length l).
Proof.
unfold total. induction l as [ | x l IH]; intros Hb.
- simpl. lia.
- assert (Hx : lo <= x <= hi) by (apply Hb; left; reflexivity).
  assert (Hl : forall n, In n l -> lo <= n <= hi)
    by (intros n Hn; apply Hb; right; exact Hn).
  specialize (IH Hl). cbn [fold_right length]. rewrite Nat2Z.inj_succ. lia.
Qed.

(** ASCII text is its own list of code points. *)
Lemma decode_ascii bs :
  Forall (fun b => (b < 128)%N) bs -> decode bs = bs.
Proof.
induction 1 as [ | b bs Hb _ IH]; [ reflexivity | ].
cbn [decode]. apply N.ltb_lt in Hb. rewrite Hb, IH. reflexivity.
Qed.

Lemma decimal_of_digit c :
  Salary.is_digit c = true ->
  (N_of_ascii c < 128)%N
  /\ decimal (N_of_ascii c) = Some (Salary.digit_value c).
Proof.
destruct c as [[] [] [] [] [] [] [] []]; intros H;
  try discriminate H; split; reflexivity.
Qed.

Lemma digit_value_range c :
  Salary.is_digit c = true -> 0 <= Salary.digit_value c <= 9.
Proof.
unfold Salary.is_digit, Salary.digit_value. intros H.
apply andb_true_iff in H as [H1 H2].
apply Nat.leb_le in H1. apply Nat.leb_le in H2. lia.
Qed.

Lemma runs_from_digits ds :
  forallb Salary.is_digit ds = true ->
  forall v k,
    runs_from (Some (v, k)) (map N_of_ascii ds)
    = [(digits_value ds v, k + Z.of_nat (length ds))].
Proof.
induction ds as [ | c ds IH]; intros H v k.
- simpl. f_equal. f_equal. lia.
- cbn [forallb] in H. apply andb_true_iff in H as [Hc Hds].
  destruct (decimal_of_digit c Hc) as [_ Hd].
  cbn [map runs_from]. rewrite Hd. cbn [fst snd].
  rewrite (IH Hds). cbn [length]. unfold digits_value. cbn [fold_left].
  f_equal. f_equal. lia.
Qed.

Lemma digits_value_bound ds :
  forallb Salary.is_digit ds = true ->
  forall a, 0 <= a ->
    0 <= digits_value ds a <= (a + 1) * 10 ^ Z.of_nat (length ds) - 1.
Proof.
induction ds as [ | c ds IH]; intros H a Ha.
- simpl. lia.
- cbn [forallb] in H. apply andb_true_iff in H as [Hc Hds].
  pose proof (digit_value_range c Hc) as Hr.
  unfold digits_value. cbn [fold_left length].
  fold (digits_value ds (10 * a + Salary.digit_value c)).
  specialize (IH Hds (10 * a + Salary.digit_value c) ltac:(lia)).
  rewrite Nat2Z.inj_succ, Z.pow_succ_r by lia.
  assert (0 < 10 ^ Z.of_nat (length ds)) by (apply Z.pow_pos_nonneg; lia).
  nia.
Qed.

Lemma codepoints_of_digits ds :
  forallb Salary.is_digit ds = true ->
  codepoints (string_of_list_ascii ds) = map N_of_ascii ds.
Proof.
intros H. unfold codepoints. rewrite list_ascii_of_string_of_list_ascii.
apply decode_ascii. apply Forall_map. apply Forall_forall. intros c Hc.
apply (decimal_of_digit c).
rewrite forallb_forall in H. apply H. apply list_elem_of_In. exact Hc.
Qed.

End SalaryValues.

(** X3. When [clean_salary] returns a number for a text whose integers are
    at most [2 ^ 53], the number lies between the smallest and the largest
    of the integers read from the digit runs, both included: rounding the
    mean does not leave that interval. *)
Theorem clean_salary_between_extremes (t : string) (x : float) :
  Cpython.clean_salary (PStr t) = Ok (PFloat x) ->
  exists lo hi q,
    x = FFin q
    /\ In lo (map fst (SalaryRule.runs t))
    /\ In hi (map fst (SalaryRule.runs t))
    /\ (forall n, In n (map fst (SalaryRule.runs t)) -> lo <= n <= hi)
    /\ (hi <= 2 ^ 53 -> (inject_Z lo <= q <= inject_Z hi)%Q).
Proof.
intros H.
pose proof (runs_from_nonneg (Cpython.codepoints t) None ltac:(discriminate))
  as Hpos. fold (SalaryRule.runs t) in Hpos.
destruct (SalaryRule.runs t) as [ | r rs] eqn:E.
- rewrite clean_salary_follows_rule in H. unfold SalaryRule.clean_salary_spec in H.
  rewrite E in H. discriminate H.
- rewrite (rule_of_runs t r rs E) in H.
  destruct (forallb _ (r :: rs)); [ | discriminate H ].
  destruct (Binary64.nearest _ _) as [q | ] eqn:Hq; [ | discriminate H ].
  injection H as <-.
  destruct (extremes (map fst (r :: rs))) as (lo & hi & Hlo & Hhi & Hb);
    [ discriminate | ].
  exists lo, hi, q. split; [ reflexivity | ].
  split; [ exact Hlo | ]. split; [ exact Hhi | ]. split; [ exact Hb | ].
  intros Hbound.
  pose proof (total_bounds _ lo hi Hb) as Ht. rewrite length_map in Ht.
  apply (nearest_between lo hi _ _ q) in Hq; try assumption.
  + simpl. lia.
  + apply in_map_iff in Hlo as (r0 & <- & Hr0).
    rewrite Forall_forall in Hpos. apply (Hpos r0).
    apply list_elem_of_In. exact Hr0.
Qed.

Lemma clean_salary_between_extremes_witness :
  exists lo hi q,
    FFin (45000 # 1) = FFin q
    /\ In lo (map fst (SalaryRule.runs "40000-50000"))
    /\ In hi (map fst (SalaryRule.runs "40000-50000"))
    /\ (forall n, In n (map fst (SalaryRule.runs "40000-50000")) -> lo <= n <= hi)
    /\ (hi <= 2 ^ 53 -> (inject_Z lo <= q <= inject_Z hi)%Q).
Proof.
apply (clean_salary_between_extremes "40000-50000" (FFin (45000 # 1))).
vm_compute. reflexivity.
Defined.

(** X4. A text of one to fifteen ASCII digits is cleaned to exactly the
    integer it spells, leading zeros included. *)
Theorem clean_salary_of_decimal_text (ds : list ascii) :
  ds <> [] ->
  forallb Salary.is_digit ds = true ->
  (length ds <= 15)%nat ->
  Cpython.clean_salary (PStr (string_of_list_ascii ds))
  = Ok (PFloat (FFin (inject_Z (digits_value ds 0)))).
Proof.
intros Hne Hdig Hlen.
assert (Hruns : SalaryRule.runs (string_of_list_ascii ds)
                = [(digits_value ds 0, Z.of_nat (length ds))]).
{ unfold SalaryRule.runs. rewrite (codepoints_of_digits ds Hdig).
  destruct ds as [ | c ds]; [ congruence | ].
  cbn [forallb] in Hdig. apply andb_true_iff in Hdig as [Hc Hds].
  destruct (decimal_of_digit c Hc) as [_ Hd].
  cbn [map SalaryRule.runs_from]. rewrite Hd. cbn [fst snd].
  rewrite (runs_from_digits ds Hds). unfold digits_value. cbn [fold_left length].
  f_equal. f_equal. lia. }
rewrite (rule_of_runs _ _ _ Hruns). cbn [forallb snd andb map fst length].
pose proof (digits_value_bound ds Hdig 0 ltac:(lia)) as Hv.
assert (Hpow : 10 ^ Z.of_nat (length ds) <= 10 ^ 15)
  by (apply Z.pow_le_mono_r; lia).
assert (H53 : 10 ^ 15 <= 2 ^ 53) by (vm_compute; discriminate).
destruct (Z.leb_spec (Z.of_nat (length ds)) 4300) as [_ | Hbig]; [ | lia ].
unfold SalaryRule.total. cbn [fold_right].
replace (digits_value ds 0 + 0) with (digits_value ds 0 * 1) by lia.
change (Z.of_nat 1) with 1.
rewrite (nearest_exact (digits_value ds 0) 1); [ reflexivity | lia | lia ].
Qed.

Lemma clean_salary_of_decimal_text_witness :
  Cpython.clean_salary (PStr (string_of_list_ascii (list_ascii_of_string "052500")))
  = Ok (PFloat (FFin (inject_Z (digits_value (list_ascii_of_string "052500") 0)))).
Proof.
apply (clean_salary_of_decimal_text (list_ascii_of_string "052500"));
  [ discriminate | reflexivity | simpl; lia ].
Defined.

(** ** preprocess_data: the frame it returns *)

Section StripLower.

(** [py_strip] and [py_lower] on the characters. *)
Definition strip_chars (l : list ascii) : list ascii :=
  rev (lstrip (rev (lstrip l))).

Lemma py_strip_chars t :
  py_strip t = string_of_list_ascii (strip_chars (list_ascii_of_string t)).
Proof. reflexivity. Qed.

Lemma lower_char_idempotent c : lower_char (lower_char c) = lower_char c.
Proof. destruct c as [[] [] [] [] [] [] [] []]; reflexivity. Qed.

Lemma is_space_lower_char c : is_space (lower_char c) = is_space c.
Proof. destruct c as [[] [] [] [] [] [] [] []]; reflexivity. Qed.

Lemma lstrip_lower l : lstrip (map lower_char l) = map lower_char (lstrip l).
Proof.
induction l as [ | c l IH]; [ reflexivity | ].
simpl. rewrite is_space_lower_char. destruct (is_space c); [ exact IH | reflexivity ].
Qed.

Lemma strip_chars_lower l :
  strip_chars (map lower_char l) = map lower_char (strip_chars l).
Proof.
unfold strip_chars. rewrite lstrip_lower, <- map_rev, lstrip_lower, <- map_rev.
reflexivity.
Qed.

Lemma lstrip_idempotent l : lstrip (lstrip l) = lstrip l.
Proof.
induction l as [ | c l IH]; [ reflexivity | ].
simpl. destruct (is_space c) eqn:E; [ exact IH | ]. simpl. rewrite E. reflexivity.
Qed.

Lemma lstrip_keeps_last m c :
  is_space c = false -> exists m', lstrip (m ++ [c]) = m' ++ [c].
Proof.
intros Hc. induction m as [ | x m IH]; simpl.
- rewrite Hc. exists []. reflexivity.
- destruct (is_space x); [ exact IH | ]. exists (x :: m). reflexivity.
Qed.

(** Stripping the right end of a text that starts clean leaves a text that
    starts clean. *)
Lemma lstrip_after_rstrip a :
  lstrip a = a -> lstrip (rev (lstrip (rev a))) = rev (lstrip (rev a)).
Proof.
destruct a as [ | c a]; [ reflexivity | ]. intros H.
assert (Hc : is_space c = false).
{ simpl in H. destruct (is_space c) eqn:E; [ | reflexivity ].
  exfalso. assert (Hlen : (length (lstrip a) <= length a)%nat).
  { clear. induction a as [ | x a IH]; simpl; [ lia | ].
    destruct (is_space x); simpl; lia. }
  rewrite H in Hlen. simpl in Hlen. lia. }
simpl. destruct (lstrip_keeps_last (rev a) c Hc) as [m' ->].
rewrite rev_app_distr. simpl. rewrite Hc. reflexivity.
Qed.

Lemma strip_chars_idempotent l : strip_chars (strip_chars l) = strip_chars l.
Proof.
unfold strip_chars.
rewrite (lstrip_after_rstrip (lstrip l) (lstrip_idempotent l)).
rewrite rev_involutive, lstrip_idempotent. reflexivity.
Qed.

(** A normalised seniority label is its own normal form. *)
Lemma normal_form_strip t :
  py_strip (py_lower (py_strip t)) = py_lower (py_strip t).
Proof.
unfold py_lower. rewrite !py_strip_chars.
rewrite !list_ascii_of_string_of_list_ascii.
rewrite strip_chars_lower, strip_chars_idempotent. reflexivity.
Qed.

Lemma normal_form_lower t :
  py_lower (py_lower (py_strip t)) = py_lower (py_strip t).
Proof.
unfold py_lower. rewrite !list_ascii_of_string_of_list_ascii.
rewrite map_map. f_equal. apply map_ext. intros c. apply lower_char_idempotent.
Qed.

End StripLower.

Section CleanedShape.

Lemma set_column_labels cols c s :
  map fst (set_column cols c s)
  = map fst cols ++ (if existsb (String.eqb c) (map fst cols) then [] else [c]).
Proof.
induction cols as [ | [k old] cols IH]; [ reflexivity | ].
simpl. destruct (String.eqb_spec k c) as [-> | Hne].
- rewrite String.eqb_refl. simpl. rewrite app_nil_r. reflexivity.
- destruct (String.eqb_spec c k) as [-> | _]; [ congruence | ].
  simpl. rewrite IH. reflexivity.
Qed.

Lemma find_set_column_eq cols c s :
  List.find (fun x => String.eqb (fst x) c) (set_column cols c s) = Some (c, s).
Proof.
induction cols as [ | [k old] cols IH]; simpl.
- rewrite String.eqb_refl. reflexivity.
- destruct (String.eqb_spec k c) as [-> | Hne]; simpl.
  + rewrite String.eqb_refl. reflexivity.
  + destruct (String.eqb_spec k c); [ congruence | exact IH ].
Qed.

Lemma getitem_setitem_eq df c s : getitem (setitem df c s) c = Some s.
Proof. unfold getitem, setitem. simpl. rewrite find_set_column_eq. reflexivity. Qed.

Lemma NoDup_labels_filter (f : string * series -> bool) cols :
  NoDup (map fst cols) -> NoDup (map fst (List.filter f cols)).
Proof.
induction cols as [ | x cols IH]; intros H; [ exact H | ].
simpl in H. apply NoDup_cons in H as [Hx Hnd]. simpl.
destruct (f x); [ | apply IH; exact Hnd ].
simpl. apply NoDup_cons. split; [ | apply IH; exact Hnd ].
intros Hin. apply Hx. apply list_elem_of_In in Hin. apply list_elem_of_In.
apply in_map_iff in Hin as (y & E & Hy). apply filter_In in Hy as [Hy _].
apply in_map_iff. exists y. auto.
Qed.

Lemma NoDup_labels_set_column cols c s :
  NoDup (map fst cols) -> NoDup (map fst (set_column cols c s)).
Proof.
intros H. rewrite set_column_labels.
destruct (existsb (String.eqb c) (map fst cols)) eqn:E.
- rewrite app_nil_r. exact H.
- apply NoDup_app. split; [ exact H | ]. split; [ | apply NoDup_singleton ].
  intros x Hx Hc. apply list_elem_of_In in Hc. destruct Hc as [<- | []].
  apply list_elem_of_In, existsb_eqb_In in Hx. congruence.
Qed.

Lemma well_formed_prune df : well_formed df -> well_formed (prune df).
Proof.
intros [Hnd Hlen]. rewrite prune_as_drop. unfold drop. split.
- unfold labels. simpl. apply NoDup_labels_filter. exact Hnd.
- simpl. apply Forall_forall. intros x Hx. apply list_elem_of_In in Hx.
  apply filter_In in Hx as [Hx _]. rewrite Forall_forall in Hlen.
  apply Hlen, list_elem_of_In, Hx.
Qed.

Lemma well_formed_setitem df c s :
  well_formed df -> length (values s) = n_rows df -> well_formed (setitem df c s).
Proof.
intros [Hnd Hlen] Hs. split.
- unfold labels. simpl. apply NoDup_labels_set_column. exact Hnd.
- simpl. apply (set_column_Forall (fun s => length (values s) = n_rows df));
    assumption.
Qed.

Lemma cleaned_salaries_length salary :
  length (values (cleaned_salaries salary)) = length (values salary).
Proof.
unfold cleaned_salaries, infer_applied.
destruct (existsb is_float _ && forallb _ _); simpl; rewrite ?length_map; reflexivity.
Qed.

Lemma normalize_seniority_length level level' :
  normalize_seniority level = Ok level' ->
  length (values level') = length (values level).
Proof.
intros H. apply normalize_seniority_Ok in H as [_ ->].
unfold astype_category. simpl. rewrite !length_map. reflexivity.
Qed.

Lemma column_length df c s :
  well_formed df -> getitem df c = Some s -> length (values s) = n_rows df.
Proof.
intros [_ Hlen] Hg. apply getitem_Some_In in Hg.
rewrite Forall_forall in Hlen. apply list_elem_of_In in Hg.
apply (Hlen _ Hg).
Qed.

End CleanedShape.

(** X5. Cleaning keeps the shape of the table: the cleaned frame has the
    rows of the input, distinct labels and full-length columns; its labels
    are those that survive pruning, in their order, with clean_salary added
    at the end unless a column of that name was already there. *)
Theorem preprocess_data_keeps_shape (df0 df : dataframe) :
  well_formed df0 -> preprocess_data df0 = Ok df ->
  well_formed df
  /\ n_rows df = n_rows df0
  /\ labels df
     = labels (prune df0)
       ++ (if has_column (prune df0) "clean_salary" then [] else ["clean_salary"])
  /\ sublist (columns (prune df0)) (columns df0).
Proof.
intros Hwf H.
apply preprocess_data_Ok in H
  as (salary & level & level' & _ & Hs & Hl & _ & Hnorm & ->).
pose proof (well_formed_prune df0 Hwf) as Hp.
assert (Hcs : well_formed (setitem (prune df0) "clean_salary" (cleaned_salaries salary))).
{ apply well_formed_setitem; [ exact Hp | ].
  rewrite cleaned_salaries_length. apply (column_length _ "salary" _ Hp Hs). }
split; [ | split; [ | split ] ].
- apply well_formed_setitem; [ exact Hcs | ].
  rewrite (normalize_seniority_length _ _ Hnorm).
  apply (column_length _ "seniority_level" _ Hp Hl).
- simpl. apply prune_n_rows.
- unfold labels, setitem. cbn [columns]. rewrite !set_column_labels.
  assert (E : existsb (String.eqb "seniority_level")
                (map fst (columns (prune df0))
                 ++ (if existsb (String.eqb "clean_salary")
                                (map fst (columns (prune df0)))
                     then [] else ["clean_salary"])) = true).
  { apply existsb_eqb_In, in_app_iff. left.
    apply getitem_Some_In in Hl. apply (in_map fst) in Hl. exact Hl. }
  rewrite E, app_nil_r. reflexivity.
- apply prune_sublist.
Qed.

Lemma preprocess_data_keeps_shape_witness :
  well_formed cleaned_postings
  /\ n_rows cleaned_postings = n_rows postings
  /\ labels cleaned_postings
     = labels (prune postings)
       ++ (if has_column (prune postings) "clean_salary" then [] else ["clean_salary"])
  /\ sublist (columns (prune postings)) (columns postings).
Proof.
apply (preprocess_data_keeps_shape postings cleaned_postings).
- exact well_formed_postings.
- vm_compute. reflexivity.
Defined.



Section SeniorityFacts.

(** What one cell of the seniority column becomes. *)
Definition normalized_cell (v : pyval) : option string :=
  match v with
  | PStr t => Some (py_lower (py_strip t))
  | _ => None
  end.

Lemma astype_after_str_methods vs :
  astype_category
    (Object (map (str_method py_lower) (map (str_method py_strip) vs)))
  = Category (map normalized_cell vs).
Proof.
unfold astype_category. cbn [values]. f_equal. rewrite !map_map.
apply map_ext. intros [ | | | | t]; reflexivity.
Qed.

(** What a [.str] method returns is text and NaN, which the accessor takes. *)
Lemma str_accessor_ok_after_map f vs :
  str_accessor_ok (Object (map (str_method f) vs)) = true.
Proof.
unfold str_accessor_ok.
destruct (List.filter _ _) as [ | p ps] eqn:E; [ reflexivity | ].
assert (Hp : In p (List.filter (fun v => negb (isna v)) (map (str_method f) vs)))
  by (rewrite E; left; reflexivity).
apply filter_In in Hp as [Hin Hna]. apply in_map_iff in Hin as (v & <- & _).
destruct v; simpl in Hna; try discriminate Hna. reflexivity.
Qed.

Lemma normalize_seniority_result level :
  normalize_seniority level
  = if str_accessor_ok level
    then Ok (Category (map normalized_cell (values level)))
    else Raise AttributeError.
Proof.
unfold normalize_seniority, str_map.
destruct (str_accessor_ok level); [ | reflexivity ]. cbn [bind].
rewrite str_accessor_ok_after_map. cbn [bind values].
rewrite astype_after_str_methods. reflexivity.
Qed.


End SeniorityFacts.

(** Text of ASCII characters only. *)
Definition ascii_text (t : string) : Prop :=
  Forall (fun c => (nat_of_ascii c < 128)%nat) (list_ascii_of_string t).

(** X7. When the seniority levels are ASCII text, the seniority column of
    the cleaned frame is a category column aligned with the pruned one: a
    text cell has become its stripped, lower-cased text and any other cell
    is missing.  Every label in it is in normal form: stripping or
    lower-casing it again changes nothing. *)
Theorem seniority_column_normalized (df0 df : dataframe) (level : series) :
  preprocess_data df0 = Ok df ->
  getitem (prune df0) "seniority_level" = Some level ->
  Forall (fun v => forall t, v = PStr t -> ascii_text t) (values level) ->
  exists normalized,
    getitem df "seniority_level" = Some (Category normalized)
    /\ Forall2 (fun v c =>
                  match v with
                  | PStr t => c = Some (py_lower (py_strip t))
                  | _ => c = None
                  end)
               (values level) normalized
    /\ (forall t, In (Some t) normalized -> py_strip t = t /\ py_lower t = t).
Proof.
intros H Hlevel _.
apply preprocess_data_Ok in H
  as (salary & level0 & level' & _ & _ & Hl & _ & Hnorm & ->).
assert (level0 = level) by congruence. subst level0.
rewrite normalize_seniority_result in Hnorm.
destruct (str_accessor_ok level); [ | discriminate Hnorm ].
injection Hnorm as <-.
exists (map normalized_cell (values level)).
split; [ apply getitem_setitem_eq | ]. split.
- induction (values level) as [ | v vs IH]; simpl; constructor; [ | exact IH ].
  destruct v; reflexivity.
- intros t Hin. apply in_map_iff in Hin as (v & Hv & _).
  destruct v as [ | | | | t0]; try discriminate Hv.
  simpl in Hv. injection Hv as <-.
  split; [ apply normal_form_strip | apply normal_form_lower ].
Qed.

Lemma seniority_column_normalized_witness :
  exists normalized,
    getitem cleaned_postings "seniority_level" = Some (Category normalized)
    /\ Forall2 (fun v c =>
                  match v with
                  | PStr t => c = Some (py_lower (py_strip t))
                  | _ => c = None
                  end)
               (values (Object [PStr " Senior "; PStr "junior"])) normalized
    /\ (forall t, In (Some t) normalized -> py_strip t = t /\ py_lower t = t).
Proof.
apply (seniority_column_normalized
         postings cleaned_postings (Object [PStr " Senior "; PStr "junior"])).
- vm_compute. reflexivity.
- vm_compute. reflexivity.
- repeat constructor; intros t [= <-]; unfold ascii_text; simpl;
    repeat constructor; vm_compute; lia.
Defined.




(** ** create_database: what is stored *)

Section StoredRows.
Context {N : NumberText}.


Lemma drop_empty_salary_n_rows df : n_rows (drop_empty_salary df) = n_rows df.
Proof. unfold drop_empty_salary. destruct (_ && _); reflexivity. Qed.

Lemma insert_rows_width df inserted :
  insert_rows df = Ok inserted ->
  Forall (fun r => length r = length (columns df)) inserted.
Proof.
unfold insert_rows. destruct (_ && _); [ discriminate | ].
intros H. apply bind_Ok in H as (cells & Hc & [= <-]).
apply mapR_length in Hc. apply Forall_forall. intros r Hr.
apply list_elem_of_In, in_map_iff in Hr as (i & <- & _).
unfold row_at. rewrite length_map. exact Hc.
Qed.

End StoredRows.

(** A label that SQL reads as one plain name when it is spliced into a
    statement: ASCII letters, digits and underscores, the first of them not
    a digit. *)
Definition is_letter (c : ascii) : bool :=
  let n := nat_of_ascii c in
  ((65 <=? n) && (n <=? 90) || (97 <=? n) && (n <=? 122) || (n =? 95))%nat.

Definition identifier (s : string) : bool :=
  match s with
  | EmptyString => false
  | String c rest =>
      is_letter c
      && forallb (fun c => is_letter c || Salary.is_digit c)
                 (list_ascii_of_string rest)
  end.

(** X9. The table that [create_database] stores has one row per row of the
    frame and one cell per column in every row.  When the frame has a row
    and its labels are plain names, the columns are those of the frame
    under their labels and in their order, without a salary column that
    is missing in every row.  The connection returned is the database that
    was named. *)
Theorem create_database_stores_the_frame
        (N : NumberText) (db_name : string) (df : dataframe) (w : world)
        (conn : string) (w' : world) :
  create_database db_name df w = Ok (conn, w') ->
  conn = db_name
  /\ exists jobs,
       default ∅ (databases w' !! db_name) !! "jobs" = Some jobs
       /\ length (rows jobs) = n_rows df
       /\ Forall (fun r => length r = length (schema jobs)) (rows jobs)
       /\ ((0 < n_rows df)%nat ->
           forallb identifier (labels df) = true ->
           map fst (schema jobs) = labels (drop_empty_salary df)).
Proof.
intros H. apply create_database_Ok in H as (inserted & Hi & -> & ->).
split; [ reflexivity | ].
exists (Table (col_defs (drop_empty_salary df)) inserted).
split; [ apply jobs_of_with_jobs | ]. cbn [rows schema]. split; [ | split ].
- rewrite (insert_rows_length _ _ Hi). apply drop_empty_salary_n_rows.
- pose proof (insert_rows_width _ _ Hi) as Hw.
  unfold col_defs. rewrite length_map. exact Hw.
- intros _ _. apply col_defs_labels.
Qed.

Lemma create_database_stores_the_frame_witness :
  "jobs.db" = "jobs.db"
  /\ exists jobs,
       default ∅ (databases
                    (with_jobs "jobs.db" postings_jobs fresh_world) !! "jobs.db")
         !! "jobs" = Some jobs
       /\ length (rows jobs) = n_rows cleaned_postings
       /\ Forall (fun r => length r = length (schema jobs)) (rows jobs)
       /\ ((0 < n_rows cleaned_postings)%nat ->
           forallb identifier (labels cleaned_postings) = true ->
           map fst (schema jobs) = labels (drop_empty_salary cleaned_postings)).
Proof.
apply (create_database_stores_the_frame
         fraction_number_text "jobs.db" cleaned_postings fresh_world).
vm_compute. reflexivity.
Defined.





Section ReadBack.
Context {N : NumberText}.

Lemma lookup_map {A B} (f : A -> B) (l : list A) (i : nat) :
  map f l !! i = f <$> l !! i.
Proof. apply list_lookup_fmap. Qed.



End ReadBack.



(** ** The queries of the report and of the charts *)

(** Line 107, the query behind the pie chart of
    [visualize_seniority_distribution_sql]. *)
Definition seniority_distribution_query {N : NumberText} (jobs : table)
  : result (list row) :=
  select_grouped jobs ["seniority_level"] CountStar None.

(** Line 164, the query of [visualize_count_location_sql]; lines 184-186 and
    199-201 run the same one.  [top_n] is a count, not a negative number
    (for which LIMIT would mean no limit). *)
Definition count_location_query {N : NumberText} (top_n : nat) (jobs : table)
  : result (list row) :=
  select_grouped_desc jobs ["location"] CountStar (Some top_n).

(** The count in the last field of a result row. *)
Definition count_of (r : row) : Z :=
  match List.last r SNull with
  | SInt n => n
  | _ => 0
  end.

Section GroupFacts.
Context {N : NumberText}.

Definition group_total (groups : list (list sqlval * list row)) : nat :=
  fold_right Nat.add 0%nat (map (fun g => length (snd g)) groups).

Lemma insert_group_total k r groups :
  group_total (insert_group k r groups) = S (group_total groups).
Proof.
unfold group_total. induction groups as [ | [k' rs] groups IH]; [ reflexivity | ].
simpl. destruct (key_compare k k'); simpl.
- rewrite length_app. simpl. lia.
- reflexivity.
- rewrite IH. lia.
Qed.

Lemma insert_group_nonempty k r groups :
  Forall (fun g => snd g <> []) groups ->
  Forall (fun g => snd g <> []) (insert_group k r groups).
Proof.
induction 1 as [ | [k' rs] groups Hg Hgs IH]; simpl.
- constructor; [ discriminate | constructor ].
- destruct (key_compare k k').
  + constructor; [ | exact Hgs ]. simpl. destruct rs; discriminate.
  + constructor; [ discriminate | constructor; assumption ].
  + constructor; assumption.
Qed.

Lemma insert_group_key_length m k r groups :
  length k = m ->
  Forall (fun g => length (fst g) = m) groups ->
  Forall (fun g => length (fst g) = m) (insert_group k r groups).
Proof.
intros Hk. induction 1 as [ | [k' rs] groups Hg Hgs IH]; simpl.
- constructor; [ exact Hk | constructor ].
- destruct (key_compare k k'); constructor; auto.
Qed.

(** An invariant of every step of GROUP BY holds of its result. *)
Lemma group_by_invariant (P : list (list sqlval * list row) -> Prop)
      (key : row -> list sqlval) :
  (forall r groups, P groups -> P (insert_group (key r) r groups)) ->
  forall rs groups, P groups ->
    P (fold_left (fun groups r => insert_group (key r) r groups) rs groups).
Proof.
intros Hstep. induction rs as [ | r rs IH]; intros groups Hg; [ exact Hg | ].
simpl. apply IH. apply Hstep. exact Hg.
Qed.

Lemma group_by_total key rs : group_total (group_by key rs) = length rs.
Proof.
unfold group_by.
assert (G : forall groups,
          group_total (fold_left (fun groups r => insert_group (key r) r groups)
                                 rs groups)
          = (length rs + group_total groups)%nat).
{ induction rs as [ | r rs IH]; intros groups; [ reflexivity | ].
  simpl. rewrite IH, insert_group_total. lia. }
rewrite G. unfold group_total. simpl. lia.
Qed.

Lemma group_by_nonempty key rs :
  Forall (fun g => snd g <> []) (group_by key rs).
Proof.
unfold group_by.
apply (group_by_invariant (Forall (fun g => snd g <> []))).
- intros r groups. apply insert_group_nonempty.
- constructor.
Qed.

Lemma group_by_key_length idx rs :
  Forall (fun g => length (fst g) = length idx)
         (group_by (fun r => map (fun i => cell i r) idx) rs).
Proof.
unfold group_by.
apply (group_by_invariant (Forall (fun g => length (fst g) = length idx))).
- intros r groups. apply insert_group_key_length. apply length_map.
- constructor.
Qed.

(** The pieces of a grouped SELECT that succeeds. *)
Lemma select_grouped_Ok t by_cols agg n res :
  select_grouped t by_cols agg n = Ok res ->
  exists idx f,
    mapR (resolve (schema t)) by_cols = Ok idx
    /\ eval_aggregate (schema t) agg = Ok f
    /\ res = limit n (map (fun g => fst g ++ [f (snd g)])
                          (group_by (fun r => map (fun i => cell i r) idx) (rows t))).
Proof.
unfold select_grouped. intros H.
apply bind_Ok in H as (idx & Hidx & H). apply bind_Ok in H as (f & Hf & [= <-]).
exists idx, f. auto.
Qed.

Lemma count_of_group (k : list sqlval) (n : nat) :
  count_of (k ++ [SInt (Z.of_nat n)]) = Z.of_nat n.
Proof. unfold count_of. rewrite last_last. reflexivity. Qed.

Lemma counts_of_groups (groups : list (list sqlval * list row)) :
  Forall (fun g => snd g <> []) groups ->
  Forall (fun r => 1 <= count_of r)
         (map (fun g => fst g ++ [SInt (Z.of_nat (length (snd g)))]) groups)
  /\ fold_right Z.add 0
       (map count_of
            (map (fun g => fst g ++ [SInt (Z.of_nat (length (snd g)))]) groups))
     = Z.of_nat (group_total groups).
Proof.
unfold group_total. induction 1 as [ | [k g] groups Hg _ [IH1 IH2]]; simpl.
- split; [ constructor | reflexivity ].
- rewrite count_of_group. split.
  + constructor; [ | exact IH1 ]. rewrite count_of_group.
    simpl in Hg. destruct g; [ congruence | simpl; lia ].
  + rewrite IH2. lia.
Qed.

End GroupFacts.

(** X12. Grouping loses no row and invents none: in the result of a
    [SELECT col, COUNT( * ) ... GROUP BY col] without LIMIT, such as the query
    of the pie chart, every count is at least 1 and the counts add up to the
    number of rows of the table. *)
Theorem group_counts_add_up
        (N : NumberText) (jobs : table) (col : string) (res : list row) :
  select_grouped jobs [col] CountStar None = Ok res ->
  Forall (fun r => 1 <= count_of r) res
  /\ fold_right Z.add 0 (map count_of res) = Z.of_nat (length (rows jobs)).
Proof.
intros H. apply select_grouped_Ok in H as (idx & f & _ & Hf & ->).
injection Hf as <-. cbn [limit].
rewrite <- (group_by_total (fun r => map (fun i => cell i r) idx) (rows jobs)).
apply counts_of_groups. apply group_by_nonempty.
Qed.

Lemma group_counts_add_up_witness :
  Forall (fun r => 1 <= count_of r)
         [[SText "junior"; SInt 1]; [SText "senior"; SInt 1]]
  /\ fold_right Z.add 0
       (map count_of [[SText "junior"; SInt 1]; [SText "senior"; SInt 1]])
     = Z.of_nat (length (rows postings_jobs)).
Proof.
apply (group_counts_add_up fraction_number_text postings_jobs "seniority_level").
vm_compute. reflexivity.
Defined.

Section ReportFacts.
Context {N : NumberText}.

Lemma bind_Raise {A B} (r : result A) (k : A -> result B) e :
  bind r k = Raise e -> r = Raise e \/ exists a, r = Ok a /\ k a = Raise e.
Proof. destruct r as [a | e']; simpl; [ eauto | intros [= ->]; auto ]. Qed.

Lemma column_index_In sch col :
  (exists i, column_index sch col = Some i) <-> In col (map fst sch).
Proof.
induction sch as [ | [c ty] sch IH]; simpl.
- split; [ intros [i H]; discriminate H | tauto ].
- destruct (String.eqb_spec c col) as [-> | Hne].
  + split; [ auto | eauto ].
  + rewrite <- IH. split.
    * intros [i H]. destruct (column_index sch col) as [j | ]; [ eauto | discriminate H ].
    * intros [E | [i H]]; [ congruence | ]. rewrite H. eauto.
Qed.

Lemma resolve_Ok sch col :
  (exists i, resolve sch col = Ok i) <-> In col (map fst sch).
Proof.
rewrite <- column_index_In. unfold resolve.
destruct (column_index sch col) as [i | ]; split; intros [j H];
  try discriminate H; eauto.
Qed.

Lemma resolve_Raise sch col e : resolve sch col = Raise e -> e = OperationalError.
Proof.
unfold resolve. destruct (column_index sch col); [ discriminate | ].
intros [= <-]. reflexivity.
Qed.

Lemma mapR_resolve_Ok sch cols :
  (exists idx, mapR (resolve sch) cols = Ok idx)
  <-> Forall (fun c => In c (map fst sch)) cols.
Proof.
induction cols as [ | c cols IH]; simpl.
- split; [ constructor | eauto ].
- rewrite Forall_cons_iff, <- IH, <- resolve_Ok. split.
  + intros [idx H]. apply bind_Ok in H as (i & Hi & H).
    apply bind_Ok in H as (is' & His & _). eauto.
  + intros [[i Hi] [idx Hidx]]. rewrite Hi, Hidx. simpl. eauto.
Qed.

Lemma mapR_resolve_Raise sch cols e :
  mapR (resolve sch) cols = Raise e -> e = OperationalError.
Proof.
induction cols as [ | c cols IH]; simpl; [ discriminate | ].
intros H. apply bind_Raise in H as [H | (i & _ & H)].
- apply (resolve_Raise _ _ _ H).
- apply bind_Raise in H as [H | (is' & _ & H)]; [ auto | discriminate H ].
Qed.

(** The column an aggregate reads, if it reads one. *)
Definition aggregate_columns (a : aggregate) : list string :=
  match a with
  | Max col | Avg col => [col]
  | CountStar => []
  end.

Lemma eval_aggregate_Ok sch a :
  (exists f, eval_aggregate sch a = Ok f)
  <-> Forall (fun c => In c (map fst sch)) (aggregate_columns a).
Proof.
destruct a as [col | col | ]; simpl.
- rewrite Forall_singleton, <- resolve_Ok. split.
  + intros [f H]. apply bind_Ok in H as (i & Hi & _). eauto.
  + intros [i Hi]. rewrite Hi. simpl. eauto.
- rewrite Forall_singleton, <- resolve_Ok. split.
  + intros [f H]. apply bind_Ok in H as (i & Hi & _). eauto.
  + intros [i Hi]. rewrite Hi. simpl. eauto.
- split; [ constructor | eauto ].
Qed.

Lemma eval_aggregate_Raise sch a e :
  eval_aggregate sch a = Raise e -> e = OperationalError.
Proof.
destruct a as [col | col | ]; simpl; try discriminate;
  intros H; apply bind_Raise in H as [H | (i & _ & H)];
  try discriminate H; apply (resolve_Raise _ _ _ H).
Qed.

(** A grouped SELECT succeeds exactly when the table has the columns it
    names, and fails with OperationalError otherwise. *)
Lemma select_grouped_succeeds t by_cols agg n :
  (exists res, select_grouped t by_cols agg n = Ok res)
  <-> Forall (fun c => In c (map fst (schema t))) (by_cols ++ aggregate_columns agg).
Proof.
rewrite Forall_app, <- mapR_resolve_Ok, <- eval_aggregate_Ok.
unfold select_grouped. split.
- intros [res H]. apply bind_Ok in H as (idx & Hidx & H).
  apply bind_Ok in H as (f & Hf & _). eauto.
- intros [[idx Hidx] [f Hf]]. rewrite Hidx, Hf. simpl. eauto.
Qed.

Lemma select_grouped_Raise t by_cols agg n e :
  select_grouped t by_cols agg n = Raise e -> e = OperationalError.
Proof.
unfold select_grouped. intros H.
apply bind_Raise in H as [H | (idx & _ & H)];
  [ apply (mapR_resolve_Raise _ _ _ H) | ].
apply bind_Raise in H as [H | (f & _ & H)];
  [ apply (eval_aggregate_Raise _ _ _ H) | discriminate H ].
Qed.

Lemma report_Ok jobs content :
  report jobs = Ok content ->
  exists b1 b2 b3,
    block1 jobs = Ok b1 /\ block2 jobs = Ok b2 /\ block3 jobs = Ok b3
    /\ content
       = [Text header1] ++ map (fun r => Tuple (fetch r)) b1
         ++ [Text header2] ++ map (fun r => Tuple (fetch r)) b2
         ++ [Text header3] ++ map (fun r => Tuple (fetch r)) b3.
Proof.
unfold report. intros H.
apply bind_Ok in H as (b1 & H1 & H). apply bind_Ok in H as (b2 & H2 & H).
apply bind_Ok in H as (b3 & H3 & [= <-]). exists b1, b2, b3. auto.
Qed.

Lemma select_grouped_shape t by_cols agg n res :
  select_grouped t by_cols agg n = Ok res ->
  Forall (fun r => length r = S (length by_cols)) res
  /\ (forall k, n = Some k -> (length res <= k)%nat).
Proof.
intros H. apply select_grouped_Ok in H as (idx & f & Hidx & _ & ->).
apply mapR_length in Hidx. split.
- pose proof (group_by_key_length idx (rows t)) as Hk.
  assert (Hall : Forall (fun r => length r = S (length by_cols))
                        (map (fun g => fst g ++ [f (snd g)])
                             (group_by (fun r => map (fun i => cell i r) idx) (rows t)))).
  { apply Forall_forall. intros r Hr. apply list_elem_of_In in Hr.
    apply in_map_iff in Hr as (g & <- & Hg).
    rewrite Forall_forall in Hk. apply list_elem_of_In in Hg.
    rewrite length_app, (Hk g Hg). simpl. lia. }
  destruct n as [k | ]; [ | exact Hall ].
  cbn [limit]. apply Forall_take. exact Hall.
- intros k ->. cbn [limit]. rewrite length_firstn. lia.
Qed.

End ReportFacts.

(** Two names that SQLite takes for the same column: equal up to the case
    of ASCII letters. *)
Definition same_name (a b : string) : bool :=
  String.eqb (py_lower a) (py_lower b).

(** X13. The three queries of the report succeed when the jobs table has
    columns named location, seniority_level and clean_salary; when one of
    these names is that of no column, not even up to the case of its
    letters, they fail with OperationalError. *)
Theorem report_needs_its_columns (N : NumberText) (jobs : table) :
  (In "location" (map fst (schema jobs))
   /\ In "seniority_level" (map fst (schema jobs))
   /\ In "clean_salary" (map fst (schema jobs)) ->
   exists content, report jobs = Ok content)
  /\ (forall c,
        In c ["location"; "seniority_level"; "clean_salary"] ->
        (forall n, In n (map fst (schema jobs)) -> same_name c n = false) ->
        report jobs = Raise OperationalError).
Proof.
assert (Hraise : forall t e, report t = Raise e -> e = OperationalError).
{ intros t e H. unfold report in H.
  apply bind_Raise in H as [H | (b1 & _ & H)];
    [ apply (select_grouped_Raise _ _ _ _ _ H) | ].
  apply bind_Raise in H as [H | (b2 & _ & H)];
    [ apply (select_grouped_Raise _ _ _ _ _ H) | ].
  apply bind_Raise in H as [H | (b3 & _ & H)];
    [ apply (select_grouped_Raise _ _ _ _ _ H) | discriminate H ]. }
assert (Hneeds : (exists content, report jobs = Ok content) ->
                 In "location" (map fst (schema jobs))
                 /\ In "seniority_level" (map fst (schema jobs))
                 /\ In "clean_salary" (map fst (schema jobs))).
{ intros [content H]. apply report_Ok in H as (b1 & b2 & b3 & H1 & _ & _ & _).
  assert (Hs : exists res, block1 jobs = Ok res) by eauto.
  apply select_grouped_succeeds in Hs. simpl in Hs.
  rewrite !Forall_cons_iff in Hs. tauto. }
split.
- intros (Hl & Hs & Hc).
  destruct (proj2 (select_grouped_succeeds jobs ["location"; "seniority_level"]
                     (Max "clean_salary") (Some 5%nat))) as [b1 H1];
    [ simpl; repeat constructor; assumption | ].
  destruct (proj2 (select_grouped_succeeds jobs ["seniority_level"]
                     (Avg "clean_salary") None)) as [b2 H2];
    [ simpl; repeat constructor; assumption | ].
  destruct (proj2 (select_grouped_succeeds jobs ["location"]
                     CountStar (Some 5%nat))) as [b3 H3];
    [ simpl; repeat constructor; assumption | ].
  unfold report, block1, block2, block3. rewrite H1, H2, H3. simpl. eauto.
- intros c Hc Hnone.
  assert (Habsent : ~ In c (map fst (schema jobs))).
  { intros Hin. specialize (Hnone c Hin). unfold same_name in Hnone.
    rewrite String.eqb_refl in Hnone. discriminate Hnone. }
  destruct (report jobs) as [content | e] eqn:E.
  + exfalso. destruct (Hneeds (ex_intro _ content eq_refl)) as (Hl & Hs & Hk).
    simpl in Hc. destruct Hc as [<- | [<- | [<- | []]]]; auto.
  + rewrite (Hraise jobs e E). reflexivity.
Qed.

(** X14. The report is the first header, at most five tuples of three
    fields, the second header, one tuple of two fields per seniority level,
    the third header and at most five tuples of two fields. *)
Theorem report_layout (N : NumberText) (jobs : table) (content : list chunk) :
  report jobs = Ok content ->
  exists b1 b2 b3,
    content
    = [Text header1] ++ map (fun r => Tuple (fetch r)) b1
      ++ [Text header2] ++ map (fun r => Tuple (fetch r)) b2
      ++ [Text header3] ++ map (fun r => Tuple (fetch r)) b3
    /\ (length b1 <= 5)%nat /\ (length b3 <= 5)%nat
    /\ Forall (fun r => length (fetch r) = 3%nat) b1
    /\ Forall (fun r => length (fetch r) = 2%nat) b2
    /\ Forall (fun r => length (fetch r) = 2%nat) b3
    /\ select_grouped jobs ["seniority_level"] (Avg "clean_salary") None = Ok b2.
Proof.
intros H. apply report_Ok in H as (b1 & b2 & b3 & H1 & H2 & H3 & ->).
exists b1, b2, b3. split; [ reflexivity | ].
destruct (select_grouped_shape _ _ _ _ _ H1) as [W1 L1].
destruct (select_grouped_shape _ _ _ _ _ H2) as [W2 _].
destruct (select_grouped_shape _ _ _ _ _ H3) as [W3 L3].
split; [ apply L1; reflexivity | ]. split; [ apply L3; reflexivity | ].
assert (Hfetch : forall (k : nat) (rs : list row),
          Forall (fun r => length r = k) rs ->
          Forall (fun r => length (fetch r) = k) rs).
{ intros k rs Hk. eapply Forall_impl; [ exact Hk | ].
  intros r Hr. unfold fetch. rewrite length_map. exact Hr. }
repeat split; try (apply Hfetch; assumption). exact H2.
Qed.

Lemma report_layout_witness :
  exists b1 b2 b3,
    postings_report
    = [Text header1] ++ map (fun r => Tuple (fetch r)) b1
      ++ [Text header2] ++ map (fun r => Tuple (fetch r)) b2
      ++ [Text header3] ++ map (fun r => Tuple (fetch r)) b3
    /\ (length b1 <= 5)%nat /\ (length b3 <= 5)%nat
    /\ Forall (fun r => length (fetch r) = 3%nat) b1
    /\ Forall (fun r => length (fetch r) = 2%nat) b2
    /\ Forall (fun r => length (fetch r) = 2%nat) b3
    /\ select_grouped (N := fraction_number_text) postings_jobs
                      ["seniority_level"] (Avg "clean_salary") None = Ok b2.
Proof.
apply (report_layout fraction_number_text postings_jobs postings_report).
vm_compute. reflexivity.
Defined.

Section OrderFacts.
Context {N : NumberText}.

(** A result row that ends in a count. *)
Definition counted (r : row) : Prop := exists n, List.last r SNull = SInt n.

Definition by_count_desc (r r' : row) : Prop := count_of r' <= count_of r.

Lemma compare_counts r r' :
  counted r -> counted r' ->
  sql_compare (List.last r SNull) (List.last r' SNull)
  = Z.compare (count_of r) (count_of r').
Proof.
intros [a Ha] [b Hb]. unfold count_of. rewrite Ha, Hb.
cbn [sql_compare as_float float_compare]. unfold Qcompare. simpl.
rewrite !Z.mul_1_r. reflexivity.
Qed.

Lemma insert_desc_Permutation r sorted :
  Permutation (insert_desc r sorted) (r :: sorted).
Proof.
induction sorted as [ | r' rest IH]; simpl; [ reflexivity | ].
destruct (sql_compare _ _); try reflexivity;
  rewrite IH; apply perm_swap.
Qed.

Lemma insert_desc_sorted r sorted :
  counted r -> Forall counted sorted ->
  StronglySorted by_count_desc sorted ->
  StronglySorted by_count_desc (insert_desc r sorted).
Proof.
intros Hr Hc Hs. induction Hs as [ | r' rest Hrest IH Hhead]; simpl.
- constructor; constructor.
- inversion Hc as [ | ? ? Hr' Hc']; subst.
  rewrite (compare_counts r r' Hr Hr').
  destruct (Z.compare_spec (count_of r) (count_of r')) as [E | E | E].
  + constructor; [ apply IH; exact Hc' | ].
    rewrite (insert_desc_Permutation r rest). constructor; [ | exact Hhead ].
    unfold by_count_desc. lia.
  + constructor; [ apply IH; exact Hc' | ].
    rewrite (insert_desc_Permutation r rest). constructor; [ | exact Hhead ].
    unfold by_count_desc. lia.
  + constructor; [ constructor; assumption | ].
    constructor; [ unfold by_count_desc; lia | ].
    eapply Forall_impl; [ exact Hhead | ].
    intros x Hx. unfold by_count_desc in *. lia.
Qed.

Lemma order_desc_spec rs :
  Forall counted rs ->
  Permutation (order_desc rs) rs
  /\ StronglySorted by_count_desc (order_desc rs).
Proof.
unfold order_desc. intros Hrs.
assert (G : forall acc,
          Forall counted acc -> StronglySorted by_count_desc acc ->
          Permutation (fold_left (fun sorted r => insert_desc r sorted) rs acc)
                      (rs ++ acc)
          /\ StronglySorted by_count_desc
               (fold_left (fun sorted r => insert_desc r sorted) rs acc)).
{ induction Hrs as [ | r rs Hr Hrs IH]; intros acc Hacc Hs; [ split; auto | ].
  simpl. destruct (IH (insert_desc r acc)) as [P S].
  - rewrite (insert_desc_Permutation r acc). constructor; assumption.
  - apply insert_desc_sorted; assumption.
  - split; [ | exact S ].
    rewrite P, (insert_desc_Permutation r acc). symmetry. apply Permutation_middle. }
destruct (G []) as [P S]; [ constructor | constructor | ].
rewrite app_nil_r in P. auto.
Qed.

Lemma count_rows_counted t by_cols res :
  select_grouped t by_cols CountStar None = Ok res -> Forall counted res.
Proof.
intros H. apply select_grouped_Ok in H as (idx & f & _ & Hf & ->).
injection Hf as <-. cbn [limit]. apply Forall_forall. intros r Hr.
apply list_elem_of_In, in_map_iff in Hr as (g & <- & _).
eexists. apply last_last.
Qed.

Lemma select_grouped_desc_Ok t by_cols agg n res :
  select_grouped_desc t by_cols agg n = Ok res ->
  exists all,
    select_grouped t by_cols agg None = Ok all /\ res = limit n (order_desc all).
Proof.
unfold select_grouped_desc. intros H.
apply bind_Ok in H as (all & Hall & [= <-]). eauto.
Qed.

End OrderFacts.

(** X15. The query of [visualize_count_location_sql] returns the [top_n]
    locations with the most postings: its rows are in descending order of
    their count, there are [top_n] of them or as many as there are
    locations, and no location that was left out has a larger count than
    one that was returned. *)
Theorem count_location_query_takes_the_largest
        (N : NumberText) (top_n : nat) (jobs : table) (res : list row) :
  count_location_query top_n jobs = Ok res ->
  exists all rest,
    select_grouped jobs ["location"] CountStar None = Ok all
    /\ Permutation (res ++ rest) all
    /\ length res = Nat.min top_n (length all)
    /\ StronglySorted (fun r r' => count_of r' <= count_of r) res
    /\ (forall r r', In r res -> In r' rest -> count_of r' <= count_of r).
Proof.
intros H. apply select_grouped_desc_Ok in H as (all & Hall & ->).
destruct (order_desc_spec all (count_rows_counted _ _ _ Hall)) as [P S].
exists all, (skipn top_n (order_desc all)). cbn [limit].
rewrite <- (firstn_skipn top_n (order_desc all)) in S.
split; [ exact Hall | ]. split; [ rewrite firstn_skipn; exact P | ].
split; [ rewrite length_firstn, (Permutation_length P); reflexivity | ].
split; [ apply (StronglySorted_app_1_l _ _ _ S) | ].
intros r r' Hr Hr'.
apply (StronglySorted_app_1_elem_of by_count_desc _ _ r r' S);
  apply list_elem_of_In; assumption.
Qed.

Lemma count_location_query_takes_the_largest_witness :
  exists all rest,
    select_grouped (N := fraction_number_text) six_locations ["location"]
                   CountStar None = Ok all
    /\ Permutation
         ([[SText "f"; SInt 3]; [SText "a"; SInt 1]; [SText "b"; SInt 1]] ++ rest)
         all
    /\ length [[SText "f"; SInt 3]; [SText "a"; SInt 1]; [SText "b"; SInt 1]]
       = Nat.min 3 (length all)
    /\ StronglySorted (fun r r' => count_of r' <= count_of r)
         [[SText "f"; SInt 3]; [SText "a"; SInt 1]; [SText "b"; SInt 1]]
    /\ (forall r r',
          In r [[SText "f"; SInt 3]; [SText "a"; SInt 1]; [SText "b"; SInt 1]] ->
          In r' rest -> count_of r' <= count_of r).
Proof.
apply (count_location_query_takes_the_largest
         fraction_number_text 3%nat six_locations).
vm_compute. reflexivity.
Defined.

(** ** db_structure *)

Definition type_name (ty : sqltype) : string :=
  match ty with
  | INTEGER => "INTEGER"
  | REAL => "REAL"
  | TEXT => "TEXT"
  end.

(** [PRAGMA table_info(jobs)]: for each column its number, its name, the
    type it was declared with, and three fields that say it is neither NOT
    NULL nor defaulted nor part of a key, as [create_database] declares
    none of these.  There is no row when the table is not there. *)
Fixpoint table_info_from (cid : Z) (sch : list (string * sqltype))
  : list (list pyval) :=
  match sch with
  | [] => []
  | (name, ty) :: rest =>
      [PInt cid; PStr name; PStr (type_name ty); PInt 0; PNone; PInt 0]
        :: table_info_from (cid + 1) rest
  end.

Definition table_info (db : gmap string table) : list (list pyval) :=
  match db !! "jobs" with
  | Some jobs => table_info_from 0 (schema jobs)
  | None => []
  end.

Definition structure_header : string := "
--- Структура таблицы jobs ---
".

(** [db_structure(conn)], lines 216-222: what it prints. *)
Definition db_structure (conn : string) (w : world) : list chunk :=
  Text structure_header
    :: map Tuple (table_info (default ∅ (databases w !! conn))).

Section StructureFacts.

Lemma table_info_from_lookup sch :
  forall cid i name ty,
    sch !! i = Some (name, ty) ->
    table_info_from cid sch !! i
    = Some [PInt (cid + Z.of_nat i); PStr name; PStr (type_name ty);
            PInt 0; PNone; PInt 0].
Proof.
induction sch as [ | [n t] sch IH]; intros cid i name ty H; [ discriminate H | ].
destruct i as [ | i].
- simpl in *. injection H as -> ->. rewrite Z.add_0_r. reflexivity.
- rewrite Nat2Z.inj_succ.
  change (table_info_from (cid + 1) sch !! i
          = Some [PInt (cid + Z.succ (Z.of_nat i)); PStr name;
                  PStr (type_name ty); PInt 0; PNone; PInt 0]).
  change (sch !! i = Some (name, ty)) in H.
  rewrite (IH (cid + 1) i name ty H).
  replace (cid + Z.succ (Z.of_nat i)) with (cid + 1 + Z.of_nat i) by lia.
  reflexivity.
Qed.

Lemma table_info_from_length sch cid :
  length (table_info_from cid sch) = length sch.
Proof.
revert cid. induction sch as [ | [n t] sch IH]; intros cid; simpl; auto.
Qed.

End StructureFacts.

(** X16. After [create_database] has stored a frame that has a row and
    whose labels are plain names, [db_structure] prints its header and then
    one tuple per column of the stored frame, in the order of the frame:
    the position counted from 0, the label, the type chosen from the dtype,
    and 0, None, 0.  On a database without a jobs table it prints the
    header alone and does not fail. *)
Theorem db_structure_lists_the_columns
        (N : NumberText) (db_name : string) (df : dataframe) (w : world)
        (conn : string) (w' : world) :
  create_database db_name df w = Ok (conn, w') ->
  (0 < n_rows df)%nat ->
  forallb identifier (labels df) = true ->
  (exists infos,
     db_structure conn w' = Text structure_header :: map Tuple infos
     /\ length infos = length (columns (drop_empty_salary df))
     /\ forall i c s,
          columns (drop_empty_salary df) !! i = Some (c, s) ->
          infos !! i
          = Some [PInt (Z.of_nat i); PStr c; PStr (type_name (col_type s));
                  PInt 0; PNone; PInt 0])
  /\ (forall other w0,
        default ∅ (databases w0 !! other) !! "jobs" = None ->
        db_structure other w0 = [Text structure_header]).
Proof.
intros H _ _. apply create_database_Ok in H as (inserted & _ & -> & ->). split.
- exists (table_info_from 0 (col_defs (drop_empty_salary df))).
  unfold db_structure, table_info. rewrite jobs_of_with_jobs. cbn [schema].
  split; [ reflexivity | ]. split.
  + rewrite table_info_from_length. unfold col_defs. apply length_map.
  + intros i c s Hi.
    rewrite (table_info_from_lookup _ 0 i c (col_type s)); [ reflexivity | ].
    unfold col_defs. rewrite lookup_map, Hi. reflexivity.
- intros other w0 Hnone. unfold db_structure, table_info. rewrite Hnone. reflexivity.
Qed.

Lemma db_structure_lists_the_columns_witness :
  (exists infos,
     db_structure "jobs.db" (with_jobs "jobs.db" postings_jobs fresh_world)
     = Text structure_header :: map Tuple infos
     /\ length infos = length (columns (drop_empty_salary cleaned_postings))
     /\ forall i c s,
          columns (drop_empty_salary cleaned_postings) !! i = Some (c, s) ->
          infos !! i
          = Some [PInt (Z.of_nat i); PStr c; PStr (type_name (col_type s));
                  PInt 0; PNone; PInt 0])
  /\ (forall other w0,
        default ∅ (databases w0 !! other) !! "jobs" = None ->
        db_structure other w0 = [Text structure_header]).
Proof.
apply (db_structure_lists_the_columns
         fraction_number_text "jobs.db" cleaned_postings fresh_world).
- vm_compute. reflexivity.
- simpl. lia.
- vm_compute. reflexivity.
Defined.

(** ** The whole run: what stops it and what it leaves alone *)

Section RunErrors.
Context {N : NumberText}.

Lemma load_data_Raise path w e :
  load_data path w = Raise e ->
  (e = FileNotFoundError path /\ csv_files w !! path = None)
  \/ (e = ValueError empty_file
      /\ exists df, csv_files w !! path = Some df /\ empty df = true).
Proof.
unfold load_data. destruct (csv_files w !! path) as [df | ].
- destruct (empty df) eqn:E; [ | discriminate ].
  intros [= <-]. right. eauto.
- intros [= <-]. left. auto.
Qed.

Lemma bind_parameter_Raise v e : bind_parameter v = Raise e -> e = OverflowError.
Proof.
destruct v as [ | | z | [ | | ] | ]; simpl; try discriminate.
destruct (_ && _); [ discriminate | ]. intros [= <-]. reflexivity.
Qed.

Lemma mapR_Raise {A B} (f : A -> result B) (P : exn -> Prop) l e :
  (forall a e', f a = Raise e' -> P e') -> mapR f l = Raise e -> P e.
Proof.
intros Hf. induction l as [ | a l IH]; simpl; [ discriminate | ].
intros H. apply bind_Raise in H as [H | (b & _ & H)]; [ apply (Hf a e H) | ].
apply bind_Raise in H as [H | (bs & _ & H)]; [ auto | discriminate H ].
Qed.

Lemma create_database_Raise db_name df w e :
  create_database db_name df w = Raise e ->
  e = OperationalError \/ e = InterfaceError \/ e = OverflowError.
Proof.
unfold create_database.
destruct (col_defs (drop_empty_salary df)); [ intros [= <-]; auto | ].
intros H. apply bind_Raise in H as [H | (inserted & _ & H)]; [ | discriminate H ].
unfold insert_rows in H. destruct (_ && _); [ injection H as <-; auto | ].
apply bind_Raise in H as [H | (cells & _ & H)]; [ | discriminate H ].
right. right.
apply (mapR_Raise _ (fun e => e = OverflowError) _ _) in H; [ exact H | ].
intros [c s] e' Hc. unfold column_cells in Hc.
apply (mapR_Raise _ (fun e => e = OverflowError) _ _) in Hc; [ exact Hc | ].
intros v e'' Hv. apply bind_Raise in Hv as [Hv | (c0 & _ & Hv)];
  [ apply (bind_parameter_Raise _ _ Hv) | discriminate Hv ].
Qed.

Lemma run_sql_queries_Raise conn out_file w e :
  run_sql_queries conn out_file w = Raise e -> e = OperationalError.
Proof.
unfold run_sql_queries.
destruct (default ∅ (databases w !! conn) !! "jobs") as [jobs | ];
  [ | intros [= <-]; reflexivity ].
intros H. apply bind_Raise in H as [H | (content & _ & H)]; [ | discriminate H ].
unfold report in H.
apply bind_Raise in H as [H | (b1 & _ & H)];
  [ apply (select_grouped_Raise _ _ _ _ _ H) | ].
apply bind_Raise in H as [H | (b2 & _ & H)];
  [ apply (select_grouped_Raise _ _ _ _ _ H) | ].
apply bind_Raise in H as [H | (b3 & _ & H)];
  [ apply (select_grouped_Raise _ _ _ _ _ H) | discriminate H ].
Qed.

(** Where an exception of a run comes from. *)
Lemma run_Raise path db_name out_file w e :
  run path db_name out_file w = Raise e ->
  load_data path w = Raise e
  \/ (exists df0, load_data path w = Ok df0 /\
      (preprocess_data df0 = Raise e
       \/ e = OperationalError \/ e = InterfaceError \/ e = OverflowError)).
Proof.
unfold run. intros H.
apply bind_Raise in H as [H | (df0 & Hload & H)]; [ auto | ].
right. exists df0. split; [ exact Hload | ].
apply bind_Raise in H as [H | (df & _ & H)]; [ auto | ]. right.
apply bind_Raise in H as [H | ([conn w'] & _ & H)].
- apply (create_database_Raise _ _ _ _ H).
- left. apply (run_sql_queries_Raise _ _ _ _ H).
Qed.

End RunErrors.

(** X17. A run whose CSV file is not there stops with FileNotFoundError
    for that file, and a run stops with the empty-file ValueError exactly
    when the file parses to a table without rows or without columns: no
    later step raises that error. *)
Theorem run_stops_on_missing_or_empty_file
        (N : NumberText) (path db_name out_file : string) (w : world) :
  (csv_files w !! path = None ->
   run path db_name out_file w = Raise (FileNotFoundError path))
  /\ (run path db_name out_file w = Raise (ValueError empty_file)
      <-> exists df, csv_files w !! path = Some df /\ empty df = true).
Proof.
split.
- intros Hnone. unfold run, load_data. rewrite Hnone. reflexivity.
- split.
  + intros H. apply run_Raise in H as [H | (df0 & _ & [H | [H | [H | H]]])];
      try discriminate H.
    * apply load_data_Raise in H as [[H _] | [_ Hdf]];
        [ discriminate H | exact Hdf ].
    * unfold preprocess_data in H.
      apply clean_raises in H as [[H _] | [_ [H | H]]]; discriminate H.
  + intros (df & Hdf & Hempty). unfold run, load_data.
    rewrite Hdf, Hempty. reflexivity.
Qed.
